(** * uggsec: an encrypted single-file secret store

    Shallow embedding of the Go package [uggsec] (file [uggsec.go]), of
    its sample program ([sample/main.go]) and of the parts of its
    collaborators that the package observes: [strings.Contains],
    [encoding/base64], [crypto/aes], [crypto/cipher] (CFB mode),
    [math/rand], [os.Getenv], [io/ioutil] and the [zalando/go-keyring]
    capability.

    Go strings and [[]byte] values are sequences of 8-bit bytes: a Go
    [string] is a Rocq [string], a [[]byte] is a [list ascii], and the
    conversions [[]byte(s)] and [string(b)] are [list_ascii_of_string]
    and [string_of_list_ascii].  Go [error] values are a tagged union
    together with the text their [Error()] method renders, because the
    package classifies errors by searching that text. *)

From Stdlib Require Import NArith ZArith Ascii String List Bool Lia.
From stdpp Require Import base option list gmap strings pretty.

Open Scope string_scope.
Open Scope list_scope.

(** ** Package [strings] *)

Module strings.

(** [strings.Contains(s, substr)]: [substr] occurs somewhere in [s]. *)
Fixpoint Contains (s substr : string) : bool :=
  String.prefix substr s ||
  match s with
  | EmptyString => false
  | String _ s' => Contains s' substr
  end.

End strings.

(** ** Go errors *)

Inductive error : Type :=
| KeySizeError (k : nat)                 (* crypto/aes *)
| CorruptInputError (offset : nat)       (* encoding/base64 *)
| ErrNotFound                            (* go-keyring *)
| KeyringError (msg : string)            (* any other keyring failure *)
| PathError (op path errno : string)     (* os / io/ioutil *)
| ErrorString (msg : string).            (* errors.New *)

(** The text of [err.Error()]. *)
Definition Error (e : error) : string :=
  match e with
  | KeySizeError k => "crypto/aes: invalid key size " +:+ pretty k
  | CorruptInputError n => "illegal base64 data at input byte " +:+ pretty n
  | ErrNotFound => "secret not found in keyring"
  | KeyringError msg => msg
  | PathError op path errno => op +:+ " " +:+ path +:+ ": " +:+ errno
  | ErrorString msg => msg
  end.

(** A Go call either returns or panics. *)
Inductive outcome (A : Type) : Type :=
| Returns (a : A)
| Panics (e : string).
Arguments Returns {A} a.
Arguments Panics {A} e.

(** ** Bytes *)

Definition byte_of_N (n : N) : ascii := ascii_of_N (n mod 256).

Definition xor_byte (a b : ascii) : ascii :=
  match a, b with
  | Ascii a0 a1 a2 a3 a4 a5 a6 a7, Ascii b0 b1 b2 b3 b4 b5 b6 b7 =>
      Ascii (xorb a0 b0) (xorb a1 b1) (xorb a2 b2) (xorb a3 b3)
            (xorb a4 b4) (xorb a5 b5) (xorb a6 b6) (xorb a7 b7)
  end.

(** [subtle.XORBytes(dst, x, y)]: the bytes written to [dst], one for
    each index below [min(len(x), len(y))]. *)
Definition XORBytes (x y : list ascii) : list ascii := zip_with xor_byte x y.

(** [copy(dst[off:], src)]: overwrite [dst] from index [off] on with as
    many bytes of [src] as fit. *)
Definition copy_at (dst : list ascii) (off : nat) (src : list ascii) : list ascii :=
  let n := Nat.min (length dst - off) (length src) in
  take off dst ++ take n src ++ drop (off + n) dst.

(** ** Package [crypto/aes]: the block cipher of FIPS 197 *)

Module aes.

Definition BlockSize : nat := 16.

(** Multiplication by x in GF(2^8) modulo x^8 + x^4 + x^3 + x + 1. *)
Definition xtime (b : N) : N :=
  let s := N.land (N.shiftl b 1) 255 in
  if N.testbit b 7 then N.lxor s 27 else s.

Fixpoint gmul_loop (n : nat) (a b : N) : N :=
  match n with
  | O => 0
  | S n' => N.lxor (if N.odd b then a else 0)
                   (gmul_loop n' (xtime a) (N.shiftr b 1))
  end%N.

Definition gmul (a b : N) : N := gmul_loop 8 a b.

Fixpoint gpow (a : N) (n : nat) : N :=
  match n with
  | O => 1%N
  | S n' => gmul a (gpow a n')
  end.

(** The multiplicative inverse (0 is mapped to 0) is the 254th power. *)
Definition ginv (a : N) : N := gpow a 254.

Definition rotl8 (b : N) (k : N) : N :=
  N.land (N.lor (N.shiftl b k) (N.shiftr b (8 - k))) 255.

Definition sbox_affine (a : N) : N :=
  let b := ginv a in
  N.lxor (N.lxor (N.lxor (N.lxor (N.lxor b (rotl8 b 1)) (rotl8 b 2))
                         (rotl8 b 3)) (rotl8 b 4)) 99.

Definition sbox0 : list N :=
  Eval vm_compute in map (fun i => sbox_affine (N.of_nat i)) (seq 0 256).

Definition sbox (b : N) : N := nth (N.to_nat b) sbox0 0%N.

Definition SubWord (w : list N) : list N := map sbox w.

Definition RotWord (w : list N) : list N :=
  match w with
  | a :: r => r ++ [a]
  | [] => []
  end.

Definition xor_word (a b : list N) : list N := zip_with N.lxor a b.

Fixpoint words (key : list N) (n : nat) : list (list N) :=
  match n with
  | O => []
  | S n' => take 4 key :: words (drop 4 key) n'
  end.

(** Key expansion: [w] holds the words computed so far, [i] is the index
    of the next one, [rc] the current round constant. *)
Fixpoint expand (n : nat) (Nk i : nat) (rc : N) (w : list (list N))
  : list (list N) :=
  match n with
  | O => w
  | S n' =>
      let prev := nth (i - 1) w [] in
      let back := nth (i - Nk) w [] in
      if (i mod Nk =? 0)%nat then
        let t := xor_word (SubWord (RotWord prev)) [rc; 0; 0; 0]%N in
        expand n' Nk (S i) (xtime rc) (w ++ [xor_word back t])
      else if (6 <? Nk)%nat && (i mod Nk =? 4)%nat then
        expand n' Nk (S i) rc (w ++ [xor_word back (SubWord prev)])
      else
        expand n' Nk (S i) rc (w ++ [xor_word back prev])
  end.

(** The expanded key of a cipher: [Nr] rounds and [4 * (Nr + 1)] words. *)
Record Block : Type := mkBlock { Nr : nat; xk : list N }.

Definition expandKey (key : list N) : Block :=
  let Nk := (length key / 4)%nat in
  let nr := (Nk + 6)%nat in
  let total := (4 * (nr + 1))%nat in
  mkBlock nr (concat (expand (total - Nk) Nk Nk 1%N (words key Nk))).

Definition round_key (c : Block) (r : nat) : list N :=
  map (fun j => nth (16 * r + j) (xk c) 0%N) (seq 0 16).

Definition AddRoundKey (st rk : list N) : list N := zip_with N.lxor st rk.

Definition SubBytes (st : list N) : list N := map sbox st.

Definition ShiftRows (st : list N) : list N :=
  map (fun i => nth i st 0%N)
      [0; 5; 10; 15; 4; 9; 14; 3; 8; 13; 2; 7; 12; 1; 6; 11]%nat.

Definition mix_column (a0 a1 a2 a3 : N) : list N :=
  [ N.lxor (N.lxor (gmul 2 a0) (gmul 3 a1)) (N.lxor a2 a3);
    N.lxor (N.lxor a0 (gmul 2 a1)) (N.lxor (gmul 3 a2) a3);
    N.lxor (N.lxor a0 a1) (N.lxor (gmul 2 a2) (gmul 3 a3));
    N.lxor (N.lxor (gmul 3 a0) a1) (N.lxor a2 (gmul 2 a3)) ]%N.

Definition MixColumns (st : list N) : list N :=
  flat_map (fun c => mix_column (nth (4 * c) st 0%N) (nth (4 * c + 1) st 0%N)
                                (nth (4 * c + 2) st 0%N) (nth (4 * c + 3) st 0%N))
           [0; 1; 2; 3]%nat.

Fixpoint rounds (c : Block) (n r : nat) (st : list N) : list N :=
  match n with
  | O => st
  | S n' =>
      rounds c n' (S r)
             (AddRoundKey (MixColumns (ShiftRows (SubBytes st))) (round_key c r))
  end.

Definition cipher_rounds (c : Block) (st : list N) : list N :=
  let st := AddRoundKey (map (fun i => nth i st 0%N) (seq 0 16)) (round_key c 0) in
  let st := rounds c (Nr c - 1) 1 st in
  AddRoundKey (ShiftRows (SubBytes st)) (round_key c (Nr c)).

(** [c.Encrypt(dst, src)] on one block: the 16 bytes written to [dst]. *)
Definition Encrypt (c : Block) (src : list ascii) : list ascii :=
  map byte_of_N (cipher_rounds c (map N_of_ascii src)).

(** [aes.NewCipher(key)]: the key must have 16, 24 or 32 bytes. *)
Definition NewCipher (key : list ascii) : Block + error :=
  let k := length key in
  if (k =? 16)%nat || (k =? 24)%nat || (k =? 32)%nat
  then inl (expandKey (map N_of_ascii key))
  else inr (KeySizeError k).

End aes.

(** ** Package [crypto/cipher]: cipher feedback mode *)

Module cipher.

(** The [cfb] stream: [next] is the block to be enciphered next, [out]
    the current key stream block and [outUsed] how much of it is spent. *)
Record cfb : Type := mkCFB {
  b : aes.Block;
  next : list ascii;
  out : list ascii;
  outUsed : nat;
  decrypt : bool
}.

Definition newCFB (block : aes.Block) (iv : list ascii) (decrypt : bool)
  : outcome cfb :=
  let blockSize := aes.BlockSize in
  if (length iv =? blockSize)%nat
  then Returns (mkCFB block (copy_at (replicate blockSize zero) 0 iv)
                      (replicate blockSize zero) blockSize decrypt)
  else Panics "cipher.newCFB: IV length must equal block size".

Definition NewCFBEncrypter (block : aes.Block) (iv : list ascii) : outcome cfb :=
  newCFB block iv false.

Definition NewCFBDecrypter (block : aes.Block) (iv : list ascii) : outcome cfb :=
  newCFB block iv true.

(** The loop of [XORKeyStream]: [dst] and [src] are the slices still to
    be processed; the result is the final stream and the contents of
    [dst].  Every iteration consumes at least one byte of [src], so
    [length src] iterations are enough. *)
Fixpoint xorLoop (fuel : nat) (x : cfb) (dst src : list ascii)
  : cfb * list ascii :=
  match fuel, src with
  | _, [] => (x, dst)
  | O, _ => (x, dst)
  | S fuel', _ =>
      let x1 :=
        if (outUsed x =? length (out x))%nat
        then mkCFB (b x) (next x) (aes.Encrypt (b x) (next x)) 0 (decrypt x)
        else x in
      let x2 :=
        if decrypt x1
        then mkCFB (b x1) (copy_at (next x1) (outUsed x1) src)
                   (out x1) (outUsed x1) (decrypt x1)
        else x1 in
      let d := XORBytes src (drop (outUsed x2) (out x2)) in
      let n := length d in
      let dst1 := d ++ drop n dst in
      let x3 :=
        if decrypt x2
        then x2
        else mkCFB (b x2) (copy_at (next x2) (outUsed x2) dst1)
                   (out x2) (outUsed x2) (decrypt x2) in
      let x4 := mkCFB (b x3) (next x3) (out x3) (outUsed x3 + n) (decrypt x3) in
      let '(x', rest) := xorLoop fuel' x4 (drop n dst1) (drop n src) in
      (x', d ++ rest)
  end.

(** [x.XORKeyStream(dst, src)]. *)
Definition XORKeyStream (x : cfb) (dst src : list ascii)
  : outcome (cfb * list ascii) :=
  if (length dst <? length src)%nat
  then Panics "crypto/cipher: output smaller than input"
  else Returns (xorLoop (length src) x dst src).

End cipher.

(** ** Package [encoding/base64]: the standard encoding with padding *)

Module base64.

Definition encodeStd : string :=
  "ABCDEFGHIJKLMNOPQRSTUVWXYZabcdefghijklmnopqrstuvwxyz0123456789+/".

Definition StdPadding : ascii := "="%char.

(** [enc.encode[i]] *)
Definition encodeChar (i : N) : ascii :=
  nth (N.to_nat i) (list_ascii_of_string encodeStd) zero.

Fixpoint indexOf (c : ascii) (l : list ascii) (i : N) : option N :=
  match l with
  | [] => None
  | x :: l' => if Ascii.eqb x c then Some i else indexOf c l' (N.succ i)
  end.

(** [enc.decodeMap[c]], with [None] for the entry [0xff]. *)
Definition decodeMap (c : ascii) : option N :=
  indexOf c (list_ascii_of_string encodeStd) 0.

(** [enc.encode[val>>shift&0x3F]] *)
Definition sextet (val shift : N) : ascii :=
  encodeChar (N.land (N.shiftr val shift) 63).

Fixpoint Encode (src : list ascii) : list ascii :=
  match src with
  | a :: b :: c :: rest =>
      let val := N.lor (N.lor (N.shiftl (N_of_ascii a) 16)
                              (N.shiftl (N_of_ascii b) 8)) (N_of_ascii c) in
      sextet val 18 :: sextet val 12 :: sextet val 6 :: sextet val 0
        :: Encode rest
  | [a; b] =>
      let val := N.lor (N.shiftl (N_of_ascii a) 16) (N.shiftl (N_of_ascii b) 8) in
      [sextet val 18; sextet val 12; sextet val 6; StdPadding]
  | [a] =>
      let val := N.shiftl (N_of_ascii a) 16 in
      [sextet val 18; sextet val 12; StdPadding; StdPadding]
  | [] => []
  end.

Definition EncodeToString (src : list ascii) : string :=
  string_of_list_ascii (Encode src).

Definition isNewline (c : ascii) : bool :=
  Ascii.eqb c "010"%char || Ascii.eqb c "013"%char.

Fixpoint skipNewlines (src : list ascii) (si : nat) : list ascii * nat :=
  match src with
  | c :: rest => if isNewline c then skipNewlines rest (S si) else (src, si)
  | [] => ([], si)
  end.

(** The bytes of a quantum of [dlen] six-bit values: [dlen - 1] bytes. *)
Definition quantumBytes (dbuf : list N) (dlen : nat) : list ascii :=
  let d j := nth j dbuf 0%N in
  let val := N.lor (N.lor (N.lor (N.shiftl (d 0%nat) 18) (N.shiftl (d 1%nat) 12))
                          (N.shiftl (d 2%nat) 6)) (d 3%nat) in
  take (dlen - 1)
       [byte_of_N (N.shiftr val 16); byte_of_N (N.shiftr val 8); byte_of_N val].

(** After the padding of a quantum only line breaks may follow. *)
Definition finishQuantum (dbuf : list N) (rest : list ascii) (si : nat)
  : list ascii * option error :=
  let '(rest', si') := skipNewlines rest si in
  (quantumBytes dbuf (length dbuf),
   match rest' with
   | [] => None
   | _ :: _ => Some (CorruptInputError si')
   end).

(** [enc.Decode]: [si] is the index of the head of [src] in the input,
    [dbuf] the six-bit values of the quantum read so far.  The result is
    the decoded prefix and the error, if any. *)
Fixpoint decodeLoop (src : list ascii) (si : nat) (dbuf : list N)
  : list ascii * option error :=
  match src with
  | [] =>
      match dbuf with
      | [] => ([], None)
      | _ :: _ => ([], Some (CorruptInputError (si - length dbuf)))
      end
  | c :: rest =>
      match decodeMap c with
      | Some v =>
          let dbuf' := dbuf ++ [v] in
          if (length dbuf' =? 4)%nat
          then let '(d, e) := decodeLoop rest (S si) [] in
               (quantumBytes dbuf' 4 ++ d, e)
          else decodeLoop rest (S si) dbuf'
      | None =>
          if isNewline c then decodeLoop rest (S si) dbuf
          else if negb (Ascii.eqb c StdPadding)
          then ([], Some (CorruptInputError si))
          else
            match length dbuf with
            | 0%nat | 1%nat => ([], Some (CorruptInputError si))
            | 2%nat =>
                let '(rest1, si1) := skipNewlines rest (S si) in
                match rest1 with
                | [] => ([], Some (CorruptInputError si1))
                | c2 :: rest2 =>
                    if negb (Ascii.eqb c2 StdPadding)
                    then ([], Some (CorruptInputError (si1 - 1)))
                    else finishQuantum dbuf rest2 (S si1)
                end
            | _ => finishQuantum dbuf rest (S si)
            end
      end
  end.

Definition DecodeString (s : string) : list ascii * option error :=
  decodeLoop (list_ascii_of_string s) 0 [].

End base64.

(** ** The outside world

    The package talks to four collaborators: the OS keyring, the process
    environment, the file system and the process-wide random generator.
    Their state is threaded explicitly, together with a [trace] of the
    calls made, so that "this call is never made" can be stated. *)

Inductive event : Type :=
| EvKeyringGet (service user : string)
| EvKeyringSet (service user password : string)
| EvGetenv (key : string)
| EvReadFile (filename : string)
| EvWriteFile (filename : string) (data : list ascii) (perm : N).

(** A path either names a regular file the process may read, or
    something that cannot be opened, for reading or for writing: every
    open fails with the given errno text. *)
Inductive node : Type :=
| RegularFile (data : list ascii)
| Inaccessible (errno : string).

(** How a write to a path fails, when it does.  [ioutil.WriteFile] opens
    the file with [O_WRONLY|O_CREATE|O_TRUNC], writes the data and closes
    the file.  [OpenFault]: the open fails and nothing is changed (a
    missing or unwritable directory, an empty name, a file without write
    permission).  [WriteFault n]: the file has been created or truncated,
    [f.Write] stores [n] of the bytes and fails (a full device).
    [CloseFault n]: [f.Write] reports no error, [f.Close] does, and [n] of
    the bytes have reached the file. *)
Inductive fault : Type :=
| OpenFault (errno : string)
| WriteFault (n : nat) (errno : string)
| CloseFault (n : nat) (errno : string).

Record world : Type := mkWorld {
  secrets : gmap (string * string) string;  (* the keyring's items *)
  keyring_get_failure : option string;      (* backend failure of every Get *)
  keyring_set_failure : option string;      (* backend failure of every Set *)
  environ : gmap string string;
  files : gmap string node;
  write_faults : gmap string fault;         (* paths a write of which fails *)
  enoent : string;          (* the platform's errno text for a missing file *)
  now : nat;                (* time.Now().UnixNano() *)
  prng : nat -> nat -> nat; (* seed -> index -> the generator's raw output *)
  rng_seed : nat;
  rng_pos : nat;
  trace : list event
}.

Definition log (ev : event) (w : world) : world :=
  mkWorld (secrets w) (keyring_get_failure w) (keyring_set_failure w)
          (environ w) (files w) (write_faults w) (enoent w) (now w) (prng w)
          (rng_seed w) (rng_pos w) (trace w ++ [ev]).

Definition set_secrets (m : gmap (string * string) string) (w : world) : world :=
  mkWorld m (keyring_get_failure w) (keyring_set_failure w)
          (environ w) (files w) (write_faults w) (enoent w) (now w) (prng w)
          (rng_seed w) (rng_pos w) (trace w).

Definition set_files (m : gmap string node) (w : world) : world :=
  mkWorld (secrets w) (keyring_get_failure w) (keyring_set_failure w)
          (environ w) m (write_faults w) (enoent w) (now w) (prng w)
          (rng_seed w) (rng_pos w) (trace w).

Definition set_rng (seed pos : nat) (w : world) : world :=
  mkWorld (secrets w) (keyring_get_failure w) (keyring_set_failure w)
          (environ w) (files w) (write_faults w) (enoent w) (now w) (prng w)
          seed pos (trace w).

(** A computation of the package: it runs in a world, and returns or
    panics in a new one. *)
Definition M (A : Type) : Type := world -> outcome A * world.

Definition ret {A} (a : A) : M A := fun w => (Returns a, w).

Definition bind {A B} (m : M A) (k : A -> M B) : M B :=
  fun w =>
    match m w with
    | (Returns a, w') => k a w'
    | (Panics e, w') => (Panics e, w')
    end.

Definition lift {A} (o : outcome A) : M A := fun w => (o, w).

Notation "'do' x <- m ; k" := (bind m (fun x => k))
  (at level 10, x name, m at level 100, k at level 200,
   format "'[v' 'do'  x  <-  m ; '/' k ']'").

Notation "'do' ( x , y ) <- m ; k" := (bind m (fun '(x, y) => k))
  (at level 10, x name, y name, m at level 100, k at level 200,
   format "'[v' 'do'  ( x ,  y )  <-  m ; '/' k ']'").

Definition obind {A B} (o : outcome A) (k : A -> outcome B) : outcome B :=
  match o with
  | Returns a => k a
  | Panics e => Panics e
  end.

Notation "'try' x <- o ; k" := (obind o (fun x => k))
  (at level 10, x name, o at level 100, k at level 200,
   format "'[v' 'try'  x  <-  o ; '/' k ']'").

Notation "'try' ( x , y ) <- o ; k" := (obind o (fun '(x, y) => k))
  (at level 10, x name, y name, o at level 100, k at level 200,
   format "'[v' 'try'  ( x ,  y )  <-  o ; '/' k ']'").

(** *** [github.com/zalando/go-keyring] *)

Module keyring.

Definition Get (service user : string) : M (string * option error) :=
  fun w =>
    let w' := log (EvKeyringGet service user) w in
    match keyring_get_failure w with
    | Some msg => (Returns ("", Some (KeyringError msg)), w')
    | None =>
        match secrets w !! (service, user) with
        | Some secret => (Returns (secret, None), w')
        | None => (Returns ("", Some ErrNotFound), w')
        end
    end.

(** [keyring.Set]; [Set] is reserved in Rocq. *)
Definition Set_ (service user password : string) : M (option error) :=
  fun w =>
    let w' := log (EvKeyringSet service user password) w in
    match keyring_set_failure w with
    | Some msg => (Returns (Some (KeyringError msg)), w')
    | None =>
        (Returns None, set_secrets (<[(service, user) := password]> (secrets w)) w')
    end.

End keyring.

(** *** [os], [io/ioutil], [time] and [math/rand] *)

Module os.

Definition Getenv (key : string) : M string :=
  fun w => (Returns (default "" (environ w !! key)), log (EvGetenv key) w).

End os.

Module ioutil.

Definition ReadFile (filename : string) : M (list ascii * option error) :=
  fun w =>
    let w' := log (EvReadFile filename) w in
    match files w !! filename with
    | Some (RegularFile data) => (Returns (data, None), w')
    | Some (Inaccessible errno) =>
        (Returns ([], Some (PathError "open" filename errno)), w')
    | None => (Returns ([], Some (PathError "open" filename (enoent w))), w')
    end.

(** [f, err := os.OpenFile(filename, O_WRONLY|O_CREATE|O_TRUNC, perm)]
    with the error returned at once; then [f.Write(data)] and [f.Close()],
    the error of the first of the two that fails being returned. *)
Definition WriteFile (filename : string) (data : list ascii) (perm : N)
  : M (option error) :=
  fun w =>
    let w' := log (EvWriteFile filename data perm) w in
    let stored (d : list ascii) : world :=
      set_files (<[filename := RegularFile d]> (files w)) w' in
    match files w !! filename with
    | Some (Inaccessible errno) =>
        (Returns (Some (PathError "open" filename errno)), w')
    | _ =>
        match write_faults w !! filename with
        | Some (OpenFault errno) =>
            (Returns (Some (PathError "open" filename errno)), w')
        | Some (WriteFault n errno) =>
            (Returns (Some (PathError "write" filename errno)), stored (take n data))
        | Some (CloseFault n errno) =>
            (Returns (Some (PathError "close" filename errno)), stored (take n data))
        | None => (Returns None, stored data)
        end
    end.

End ioutil.

Module time.

Definition Now_UnixNano : M nat := fun w => (Returns (now w), w).

End time.

Module rand.

Definition Seed (seed : nat) : M unit :=
  fun w => (Returns tt, set_rng seed 0 w).

Definition Intn (n : nat) : M nat :=
  fun w =>
    match n with
    | O => (Panics "invalid argument to Intn", w)
    | S _ => (Returns (prng w (rng_seed w) (rng_pos w) mod n)%nat,
              set_rng (rng_seed w) (S (rng_pos w)) w)
    end.

End rand.

(** ** Package [uggsec] *)

Definition bytes : list ascii :=
  map byte_of_N [35; 46; 57; 24; 85; 35; 24; 74; 87; 35; 88; 98; 66; 32; 14; 5]%N.

Definition keySize : nat := 32.

(** The runes are all below 128, so each is one byte of the string made
    from them. *)
Definition letterRunes : list ascii :=
  list_ascii_of_string
    "abcdefghijklmnopqrstuvwxyzABCDEFGHIJKLMNOPQRSTUVWXYZ123456789".

Record VaultInput : Type := mkVaultInput {
  Service : string;
  User : string;
  PasswordEnvVar : string;
  Filename : string
}.

Record Vault : Type := mkVault {
  service : string;
  user : string;
  filename : string;
  passwordEnvVar : string;
  keyring : bool
}.

Definition encode (b : list ascii) : string := base64.EncodeToString b.

Definition decode (s : string) : outcome (list ascii) :=
  let '(data, err) := base64.DecodeString s in
  match err with
  | Some e => Panics (Error e)
  | None => Returns data
  end.

Definition encrypt (text password : string) : outcome (string * option error) :=
  match aes.NewCipher (list_ascii_of_string password) with
  | inr err => Returns ("", Some err)
  | inl block =>
      let plainText := list_ascii_of_string text in
      try cfb <- cipher.NewCFBEncrypter block bytes;
      let cipherText := replicate (length plainText) zero in
      try (_, cipherText) <- cipher.XORKeyStream cfb cipherText plainText;
      Returns (encode cipherText, None)
  end.

Definition decrypt (encrypted password : string) : outcome (string * option error) :=
  match aes.NewCipher (list_ascii_of_string password) with
  | inr err => Returns ("", Some err)
  | inl block =>
      try cipherText <- decode encrypted;
      try cfb <- cipher.NewCFBDecrypter block bytes;
      let plainText := replicate (length cipherText) zero in
      try (_, plainText) <- cipher.XORKeyStream cfb plainText cipherText;
      Returns (string_of_list_ascii plainText, None)
  end.

Fixpoint randRunes (n : nat) : M (list ascii) :=
  match n with
  | O => ret []
  | S n' =>
      do k <- rand.Intn (length letterRunes);
      do rest <- randRunes n';
      ret (nth k letterRunes zero :: rest)
  end.

Definition randStringRunes (n : nat) : M string :=
  do b <- randRunes n;
  ret (string_of_list_ascii b).

Definition NewVaultPassword : M string :=
  do t <- time.Now_UnixNano;
  do _ <- rand.Seed t;
  randStringRunes keySize.

Definition initKeyring (service user : string) : M (option error) :=
  do password <- NewVaultPassword;
  keyring.Set_ service user password.

Definition getPasswordEnv (v : Vault) : M (string * option error) :=
  do password <- os.Getenv (passwordEnvVar v);
  if String.eqb password ""
  then ret (password,
            Some (ErrorString ("no password found in " +:+ passwordEnvVar v +:+ " env var")))
  else ret (password, None).

Definition getPasswordKeyring (v : Vault) : M (string * option error) :=
  keyring.Get (service v) (user v).

Definition getPassword (v : Vault) : M (string * option error) :=
  if keyring v then getPasswordKeyring v else getPasswordEnv v.

Definition loadFromDisk (v : Vault) : M (string * option error) :=
  do (data, err) <- ioutil.ReadFile (filename v);
  match err with
  | Some e => ret ("", Some e)
  | None =>
      do (password, err) <- getPassword v;
      match err with
      | Some e => ret ("", Some e)
      | None => lift (decrypt (string_of_list_ascii data) password)
      end
  end.

Definition Write (v : Vault) (contents : string) : M (option error) :=
  do (password, err) <- getPassword v;
  match err with
  | Some e => ret (Some e)
  | None =>
      do (encrypted, err) <- lift (encrypt contents password);
      match err with
      | Some e => ret (Some e)
      | None => ioutil.WriteFile (filename v) (list_ascii_of_string encrypted) 384
      end
  end.

Definition Read (v : Vault) : M (string * option error) := loadFromDisk v.

Definition with_keyring (v : Vault) (k : bool) : Vault :=
  mkVault (service v) (user v) (filename v) (passwordEnvVar v) k.

Definition InitKeyring (i : VaultInput) : M (Vault * option error) :=
  let v := mkVault (Service i) (User i) (Filename i) "" false in
  do (_, err) <- keyring.Get (service v) (user v);
  let continue (v : Vault) : M (Vault * option error) :=
    let v := with_keyring v true in
    do (_, err) <- loadFromDisk v;
    match err with
    | Some e =>
        if strings.Contains (Error e) "system cannot find the file specified"
        then do err <- Write v ""; ret (v, err)
        else ret (v, Some e)
    | None => ret (v, None)
    end in
  match err with
  | Some e =>
      if strings.Contains (Error e) "secret not found in keyring"
      then
        do err <- initKeyring (service v) (user v);
        match err with
        | Some e' => ret (v, Some e')
        | None => continue (with_keyring v true)
        end
      else ret (v, Some e)
  | None => continue v
  end.

Definition InitEnvVar (i : VaultInput) : M (Vault * option error) :=
  let v := mkVault "" "" (Filename i) (PasswordEnvVar i) false in
  do (_, err) <- getPassword v;
  ret (v, err).

Definition InitSmart (i : VaultInput) : M (Vault * option error) :=
  if negb (String.eqb (PasswordEnvVar i) "")
  then InitEnvVar i
  else InitKeyring i.

(* ================================================================= *)
(** * Definitions used in the statements *)

(** ** Known-answer tests of the collaborators' models *)

Definition bytes_of_N (l : list N) : list ascii := map byte_of_N l.

Definition N_of_bytes (l : list ascii) : list N := map N_of_ascii l.

(** FIPS 197, appendix C: key 00 01 .. 1f (and its prefixes of 16 and 24
    bytes), plaintext 00 11 .. ff. *)
Definition fips_key : list ascii := bytes_of_N (map N.of_nat (seq 0 32)).

Definition fips_plain : list ascii :=
  bytes_of_N [0; 17; 34; 51; 68; 85; 102; 119; 136; 153; 170; 187; 204; 221; 238; 255]%N.

Definition encrypt_block (key src : list ascii) : list N :=
  match aes.NewCipher key with
  | inl c => N_of_bytes (aes.Encrypt c src)
  | inr _ => []
  end.

(** NIST SP 800-38A, F.3.17 (CFB128-AES256.Encrypt), two blocks. *)
Definition sp800_key : list ascii :=
  bytes_of_N [96; 61; 235; 16; 21; 202; 113; 190; 43; 115; 174; 240; 133; 125; 119; 129;
              31; 53; 44; 7; 59; 97; 8; 215; 45; 152; 16; 163; 9; 20; 223; 244]%N.

Definition sp800_iv : list ascii := bytes_of_N (map N.of_nat (seq 0 16)).

Definition sp800_plain : list ascii :=
  bytes_of_N [107; 193; 190; 226; 46; 64; 159; 150; 233; 61; 126; 17; 115; 147; 23; 42;
              174; 45; 138; 87; 30; 3; 172; 156; 158; 183; 111; 172; 69; 175; 142; 81]%N.

Definition sp800_cipher : list N :=
  [220; 126; 132; 191; 218; 121; 22; 75; 126; 205; 132; 134; 152; 93; 56; 96;
   57; 255; 237; 20; 59; 40; 177; 200; 50; 17; 60; 99; 49; 229; 64; 123]%N.

Definition cfb_run (decrypt : bool) (key iv src : list ascii) : list N :=
  match aes.NewCipher key with
  | inl c =>
      match cipher.newCFB c iv decrypt with
      | Returns x =>
          match cipher.XORKeyStream x (replicate (length src) zero) src with
          | Returns (_, dst) => N_of_bytes dst
          | Panics _ => []
          end
      | Panics _ => []
      end
  | inr _ => []
  end.

(** The buffers of a stream keep the block size. *)
Definition cfb_ok (x : cipher.cfb) : Prop :=
  length (cipher.out x) = aes.BlockSize /\
  length (cipher.next x) = aes.BlockSize /\
  cipher.outUsed x <= aes.BlockSize.

(** One iteration, with the two branches on [decrypt] merged: the key
    stream is what is left of [out] (refreshed when spent), and [next]
    receives the ciphertext. *)
Definition keystream (x : cipher.cfb) : list ascii :=
  if (cipher.outUsed x =? length (cipher.out x))%nat
  then aes.Encrypt (cipher.b x) (cipher.next x)
  else drop (cipher.outUsed x) (cipher.out x).

Definition refreshed (x : cipher.cfb) : cipher.cfb :=
  if (cipher.outUsed x =? length (cipher.out x))%nat
  then cipher.mkCFB (cipher.b x) (cipher.next x)
                    (aes.Encrypt (cipher.b x) (cipher.next x)) 0 (cipher.decrypt x)
  else x.

Definition advance (x : cipher.cfb) (dst src : list ascii) : cipher.cfb :=
  let x1 := refreshed x in
  let d := XORBytes src (keystream x) in
  cipher.mkCFB (cipher.b x)
    (copy_at (cipher.next x) (cipher.outUsed x1)
             (if cipher.decrypt x then src else d ++ drop (length d) dst))
    (cipher.out x1) (cipher.outUsed x1 + length d) (cipher.decrypt x).

(** What [encrypt] returns for a key the cipher accepts. *)
Definition ciphertext (block : aes.Block) (plainText : list ascii) : list ascii :=
  (cipher.xorLoop (length plainText)
     (cipher.mkCFB block bytes (replicate 16 zero) 16 false)
     (replicate (length plainText) zero) plainText).2.

(** Cipher feedback mode with full-block feedback, as the standard
    states it (NIST SP 800-38A, 6.3), for comparison with the buffered
    loop of [XORKeyStream]: block [j] of the ciphertext is block [j] of
    the plaintext xor-ed with the encipherment of block [j - 1] of the
    ciphertext, the initialization vector standing for block 0; a last
    block of fewer than 16 bytes uses the first bytes of its key stream
    block.  [n] is the number of blocks. *)
Fixpoint cfb_spec_blocks (E : list ascii -> list ascii) (n : nat)
         (prev p : list ascii) : list ascii :=
  match n with
  | O => []
  | S n' =>
      let c := XORBytes (take 16 p) (E prev) in
      c ++ cfb_spec_blocks E n' c (drop 16 p)
  end.

Definition cfb_spec (E : list ascii -> list ascii) (iv p : list ascii)
  : list ascii :=
  cfb_spec_blocks E ((length p + 15) / 16) iv p.

Definition is_file_event (ev : event) : bool :=
  match ev with
  | EvReadFile _ | EvWriteFile _ _ _ => true
  | _ => false
  end.

Definition is_write_event (ev : event) : bool :=
  match ev with
  | EvWriteFile _ _ _ => true
  | _ => false
  end.

Definition is_set_event (ev : event) : bool :=
  match ev with
  | EvKeyringSet _ _ _ => true
  | _ => false
  end.

(** The calls made between world [w] and a later world [w']. *)
Definition emitted (w w' : world) : list event :=
  drop (length (trace w)) (trace w').

(** The one call by which a vault resolves its password. *)
Definition password_event (v : Vault) : event :=
  if keyring v then EvKeyringGet (service v) (user v)
  else EvGetenv (passwordEnvVar v).

Definition sample_prng (seed i : nat) : nat := seed + 7 * i.

Definition sample_world (secrets : gmap (string * string) string)
           (environ : gmap string string) (files : gmap string node)
           (enoent : string) : world :=
  mkWorld secrets None None environ files ∅ enoent 42 sample_prng 0 0 [].

Definition unix_enoent : string := "no such file or directory".

Definition windows_enoent : string := "The system cannot find the file specified.".

Definition key16 : string := "0123456789abcdef".

Definition key32 : string := "0123456789abcdef0123456789ABCDEF".

Definition env_vault : Vault := mkVault "" "" "cookies.txt" "UGGSECP" false.

Definition keyring_vault : Vault := mkVault "ugglyc" "browser" "cookies.txt" "" true.

(** Scenario C of the specification: the variable holds ten bytes. *)
Definition short_key_world : world :=
  sample_world ∅ {["UGGSECP" := "0123456789"]}
               {["cookies.txt" := RegularFile (list_ascii_of_string "lxVA5e4=")]}
               unix_enoent.

(** A vault file that is not base64. *)
Definition corrupt_file_world : world :=
  sample_world ∅ {["UGGSECP" := key32]}
               {["cookies.txt" := RegularFile (list_ascii_of_string "!")]}
               unix_enoent.

Definition good_env_world : world :=
  sample_world ∅ {["UGGSECP" := key32]} ∅ unix_enoent.

(** The variable holds a key and the vault file a ciphertext, but the
    device has no space left: the file can be opened and truncated, and
    the write of the first byte fails. *)
Definition full_disk_world : world :=
  mkWorld ∅ None None {["UGGSECP" := key32]}
          {["cookies.txt" := RegularFile (list_ascii_of_string "lxVA5e4=")]}
          {["cookies.txt" := WriteFault 0 "no space left on device"]}
          unix_enoent 42 sample_prng 0 0 [].

(** A character of the standard base64 alphabet, or the padding. *)
Definition base64_char (c : ascii) : Prop :=
  In c (list_ascii_of_string base64.encodeStd) \/ c = base64.StdPadding.

(** The character [h] does not occur in [s]. *)
Fixpoint lacks (h : ascii) (s : string) : bool :=
  match s with
  | EmptyString => true
  | String c s' => negb (Ascii.eqb h c) && lacks h s'
  end.

(** Scenario A of the specification on a Unix system: the keyring holds a
    secret, the vault file does not exist. *)
Definition unix_fresh_world : world :=
  sample_world {[("ugglyc", "browser") := key32]} ∅ ∅ unix_enoent.

Definition sample_input : VaultInput :=
  mkVaultInput "ugglyc" "browser" "" "cookies.txt".

Definition initialised_world : world :=
  sample_world {[("ugglyc", "browser") := key32]} ∅
               {["cookies.txt" := RegularFile (list_ascii_of_string "lxVA5e4=")]}
               unix_enoent.

(** A computation only ever appends to the trace. *)
Definition grows {A} (m : M A) : Prop :=
  forall w, trace w `prefix_of` trace (m w).2.

(** A computation that never calls [keyring.Set]: the calls it adds to
    the trace are of other kinds. *)
Definition never_sets {A} (m : M A) : Prop :=
  forall w, exists evs,
    trace (m w).2 = trace w ++ evs /\
    Forall (fun ev => is_set_event ev = false) evs.

(** The 62 symbols [a-zA-Z0-9]. *)
Definition is_alnum (c : ascii) : bool :=
  let n := N_of_ascii c in
  ((97 <=? n) && (n <=? 122) || (65 <=? n) && (n <=? 90)
   || (48 <=? n) && (n <=? 57))%N.

Definition mem (c : ascii) (l : list ascii) : bool := existsb (Ascii.eqb c) l.

(** A world whose random generator always yields [k]. *)
Definition constant_rng_world (k : nat) : world :=
  mkWorld ∅ None None ∅ ∅ ∅ unix_enoent 0 (fun _ _ => k) 0 0 [].

(** [w'] is [w] with more calls on its trace: no state was changed. *)
Definition only_logged (w w' : world) (evs : list event) : Prop :=
  w' = mkWorld (secrets w) (keyring_get_failure w) (keyring_set_failure w)
               (environ w) (files w) (write_faults w) (enoent w) (now w) (prng w)
               (rng_seed w) (rng_pos w) (trace w ++ evs).

(** A key size [aes.NewCipher] accepts. *)
Definition valid_key_size (n : nat) : Prop := n = 16 \/ n = 24 \/ n = 32.

(** The path can be written: it can be opened for writing, created if
    need be, and neither the write nor the close fails. *)
Definition writable (w : world) (name : string) : Prop :=
  (forall errno, files w !! name <> Some (Inaccessible errno)) /\
  write_faults w !! name = None.

(** What a failed write leaves behind: the files as they were, or the
    named file holding the first [n] bytes of the data. *)
Definition torn (name : string) (data : list ascii) (before after : gmap string node)
  : Prop :=
  after = before \/ exists n, after = <[name := RegularFile (take n data)]> before.

(** The keyring holds a key, the vault file does not exist, and the
    system's missing-file text is the Windows one. *)
Definition keyring_key_world : world :=
  sample_world {[("ugglyc", "browser") := key32]} ∅ ∅ windows_enoent.

(** The second half of [InitKeyring], once the keyring holds a password:
    load the file, and create it when the error says it is missing. *)
Definition open_or_create (v : Vault) : M (Vault * option error) :=
  do (_, err) <- loadFromDisk v;
  match err with
  | Some e =>
      if strings.Contains (Error e) "system cannot find the file specified"
      then do err <- Write v ""; ret (v, err)
      else ret (v, Some e)
  | None => ret (v, None)
  end.

(** The vault [InitKeyring] builds from its input. *)
Definition keyring_vault_of (i : VaultInput) (k : bool) : Vault :=
  mkVault (Service i) (User i) (Filename i) "" k.

(** Scenario A of the specification on Windows: a usable keyring without
    a secret, no vault file. *)
Definition windows_fresh_world : world :=
  sample_world ∅ ∅ ∅ windows_enoent.

Definition broken_keyring_world : world :=
  mkWorld ∅ (Some "The name org.freedesktop.secrets was not provided by any .service files")
          None ∅ ∅ ∅ unix_enoent 42 sample_prng 0 0 [].

Definition readonly_keyring_world : world :=
  mkWorld ∅ None (Some "keyring is locked") ∅ ∅ ∅ unix_enoent 42 sample_prng 0 0 [].

(** The message of [getPasswordEnv] for a variable without value. *)
Definition no_password_error (name : string) : error :=
  ErrorString ("no password found in " +:+ name +:+ " env var").

Definition unset_env_world : world :=
  sample_world ∅ ∅
               {["cookies.txt" := RegularFile (list_ascii_of_string "lxVA5e4=")]}
               unix_enoent.

(** Two worlds that agree on the clock and the generator only. *)
Definition clock_world_a : world :=
  mkWorld ∅ None None ∅ ∅ ∅ unix_enoent 42 sample_prng 7 100 [].

Definition clock_world_b : world :=
  mkWorld {[("ugglyc", "browser") := key32]} None None ∅ ∅ ∅ windows_enoent
          42 sample_prng 0 0 [EvGetenv "HOME"].

(** ** The sample program [sample/main.go]

    The command line is the record of its flags.  What the program prints
    is returned as a list: a line of standard output ([fmt.Println]) or a
    line of the logger ([log.Print], [log.Printf], [log.Fatal]; the
    logger's time stamp is left out), together with the exit status
    ([os.Exit(0)], [log.Fatal] exits with 1, returning from [main] with
    0). *)

Module sample.

Record Flags : Type := mkFlags {
  message : string;
  filename : string;
  passwordEnvVar : string;
  encryptFlag : bool;
  decryptFlag : bool;
  newPassword : bool
}.

(** The defaults of the flag declarations. *)
Definition defaults : Flags :=
  mkFlags "ovaltine" "cookies.txt" "UGGSECP" false false false.

Inductive output : Type :=
| Println (line : string)
| LogPrint (line : string).

Definition decryptStep (f : Flags) (vault : Vault) (out : list output)
  : M (list output * nat) :=
  if decryptFlag f then
    do (text, err) <- Read vault;
    match err with
    | Some e => ret (out ++ [LogPrint (Error e)], 1)
    | None =>
        ret (out ++ [LogPrint "successfully decrypted message"; Println text], 0)
    end
  else ret (out, 0).

Definition encryptStep (f : Flags) (vault : Vault) (out : list output)
  : M (list output * nat) :=
  if encryptFlag f then
    do err <- Write vault (message f);
    match err with
    | Some e => ret (out ++ [LogPrint (Error e)], 1)
    | None =>
        decryptStep f vault (out ++ [LogPrint "successfully encrypted message"])
    end
  else decryptStep f vault out.

Definition main (f : Flags) : M (list output * nat) :=
  if newPassword f then
    do p <- NewVaultPassword;
    ret ([Println p], 0)
  else
    let params := mkVaultInput "ugglyc" "browser" "" (filename f) in
    do (vault, err) <- InitSmart params;
    match err with
    | Some e =>
        let params := mkVaultInput "ugglyc" "browser" (passwordEnvVar f) (filename f) in
        do (vault, _) <- InitSmart params;
        encryptStep f vault
          [LogPrint ("error initiating keyring: " +:+ Error e);
           LogPrint "using ENV var instead"]
    | None => encryptStep f vault []
    end.

End sample.

Definition both_flags : sample.Flags :=
  sample.mkFlags "ovaltine" "cookies.txt" "UGGSECP" true true false.

Definition encrypt_flags : sample.Flags :=
  sample.mkFlags "ovaltine" "cookies.txt" "UGGSECP" true false false.

Definition password_flags : sample.Flags :=
  sample.mkFlags "ovaltine" "cookies.txt" "UGGSECP" true true true.

(** A Unix system with a usable keyring that holds a key, a different key
    in the environment variable, and no vault file. *)
Definition unix_keyring_and_env_world : world :=
  sample_world {[("ugglyc", "browser") := key32]}
               {["UGGSECP" := key16]} ∅ unix_enoent.

(** The keyring holds a key and the vault file a ciphertext that the
    process may read but not write. *)
Definition readonly_file_world : world :=
  mkWorld {[("ugglyc", "browser") := key32]} None None ∅
          {["cookies.txt" := RegularFile (list_ascii_of_string "lxVA5e4=")]}
          {["cookies.txt" := OpenFault "permission denied"]}
          unix_enoent 42 sample_prng 0 0 [].

(** The keyring holds a key, the vault file does not exist and cannot be
    created, on a system with the Windows missing-file text. *)
Definition readonly_directory_world : world :=
  mkWorld {[("ugglyc", "browser") := key32]} None None ∅ ∅
          {["cookies.txt" := OpenFault "Access is denied."]}
          windows_enoent 42 sample_prng 0 0 [].

(** No backend has a password. *)
Definition no_backend_world : world :=
  mkWorld ∅ (Some "keyring unavailable") None ∅ ∅ ∅ unix_enoent 42 sample_prng 0 0 [].

(* ================================================================= *)
(** * Properties *)

Example aes256_fips197 :
  encrypt_block fips_key fips_plain =
  [142; 162; 183; 202; 81; 103; 69; 191; 234; 252; 73; 144; 75; 73; 96; 137]%N.
Proof. vm_compute. reflexivity. Qed.

Example aes192_fips197 :
  encrypt_block (take 24 fips_key) fips_plain =
  [221; 169; 124; 164; 134; 76; 223; 224; 110; 175; 112; 160; 236; 13; 113; 145]%N.
Proof. vm_compute. reflexivity. Qed.

Example aes128_fips197 :
  encrypt_block (take 16 fips_key) fips_plain =
  [105; 196; 224; 216; 106; 123; 4; 48; 216; 205; 183; 128; 112; 180; 197; 90]%N.
Proof. vm_compute. reflexivity. Qed.

Example cfb128_aes256_encrypt :
  cfb_run false sp800_key sp800_iv sp800_plain = sp800_cipher.
Proof. vm_compute. reflexivity. Qed.

Example cfb128_aes256_decrypt :
  cfb_run true sp800_key sp800_iv (bytes_of_N sp800_cipher) = N_of_bytes sp800_plain.
Proof. vm_compute. reflexivity. Qed.

(** The statement of cipher feedback mode used for comparison gives the
    ciphertext of the same test vector. *)
Example cfb_spec_sp800_38a :
  N_of_bytes
    (cfb_spec (aes.Encrypt (aes.expandKey (map N_of_ascii sp800_key)))
              sp800_iv sp800_plain)
  = sp800_cipher.
Proof. vm_compute. reflexivity. Qed.

Example base64_rfc4648 :
  map (fun s => base64.EncodeToString (list_ascii_of_string s))
      [""; "f"; "fo"; "foo"; "foob"; "fooba"; "foobar"] =
  [""; "Zg=="; "Zm8="; "Zm9v"; "Zm9vYg=="; "Zm9vYmE="; "Zm9vYmFy"].
Proof. vm_compute. reflexivity. Qed.

#[global] Arguments aes.Encrypt : simpl never.
#[global] Arguments aes.expandKey : simpl never.
#[global] Arguments copy_at : simpl never.
#[global] Arguments XORBytes : simpl never.

(** ** Bytes and strings *)

Lemma xor_byte_cancel (a k : ascii) : xor_byte (xor_byte a k) k = a.
Proof.
  destruct a as [a0 a1 a2 a3 a4 a5 a6 a7], k as [k0 k1 k2 k3 k4 k5 k6 k7].
  simpl. f_equal; apply xorb_assoc_rev_cancel || (rewrite xorb_assoc, xorb_nilpotent, xorb_false_r; reflexivity).
Qed.

Lemma XORBytes_cancel (p ks : list ascii) :
  XORBytes (XORBytes p ks) ks = take (length ks) p.
Proof.
  unfold XORBytes.
  revert ks. induction p as [|a p IH]; intros [|k ks]; simpl; try reflexivity.
  by rewrite xor_byte_cancel, IH.
Qed.

Lemma length_XORBytes (x y : list ascii) :
  length (XORBytes x y) = Nat.min (length x) (length y).
Proof. apply length_zip_with. Qed.

Lemma length_list_ascii_of_string (s : string) :
  length (list_ascii_of_string s) = String.length s.
Proof. induction s; simpl; congruence. Qed.

Lemma length_copy_at (dst : list ascii) (off : nat) (src : list ascii) :
  off <= length dst -> length (copy_at dst off src) = length dst.
Proof.
  intros H. unfold copy_at.
  rewrite !length_app, !length_take, length_drop. lia.
Qed.

Lemma copy_at_app (dst : list ascii) (off : nat) (d r : list ascii) :
  length d = Nat.min (length dst - off) (length (d ++ r)) ->
  copy_at dst off (d ++ r) = take off dst ++ d ++ drop (off + length d) dst.
Proof.
  intros H. unfold copy_at. rewrite <- H.
  by rewrite take_app_length.
Qed.

(** ** The block cipher writes a full block *)

Lemma length_AddRoundKey (st rk : list N) :
  length (aes.AddRoundKey st rk) = Nat.min (length st) (length rk).
Proof. apply length_zip_with. Qed.

Lemma length_round_key (c : aes.Block) (r : nat) : length (aes.round_key c r) = 16.
Proof. unfold aes.round_key. rewrite length_map. reflexivity. Qed.

Lemma length_ShiftRows (st : list N) : length (aes.ShiftRows st) = 16.
Proof. reflexivity. Qed.

Lemma length_Encrypt (c : aes.Block) (src : list ascii) :
  length (aes.Encrypt c src) = aes.BlockSize.
Proof.
  unfold aes.Encrypt, aes.cipher_rounds.
  rewrite length_map, length_AddRoundKey, length_ShiftRows, length_round_key.
  reflexivity.
Qed.

(** ** Cipher feedback mode *)

Ltac cfb_simpl :=
  cbn [cipher.b cipher.next cipher.out cipher.outUsed cipher.decrypt fst snd].


Lemma xorLoop_nil (fuel : nat) (x : cipher.cfb) (dst : list ascii) :
  cipher.xorLoop fuel x dst [] = (x, dst).
Proof. destruct fuel; reflexivity. Qed.

Lemma xorLoop_step (fuel : nat) (x : cipher.cfb) (dst src : list ascii) :
  src <> [] ->
  cipher.xorLoop (S fuel) x dst src =
  let d := XORBytes src (keystream x) in
  let r := cipher.xorLoop fuel (advance x dst src)
                          (drop (length d) (d ++ drop (length d) dst))
                          (drop (length d) src) in
  (r.1, d ++ r.2).
Proof.
  intros Hsrc. destruct src as [|a src]; [done|].
  unfold advance, keystream, refreshed.
  cbn [cipher.xorLoop].
  destruct x as [bk nx ot used dec]; cbn [cipher.b cipher.next cipher.out cipher.outUsed cipher.decrypt].
  destruct (used =? length ot)%nat eqn:E;
    cbn [cipher.b cipher.next cipher.out cipher.outUsed cipher.decrypt];
    destruct dec;
    cbn [cipher.b cipher.next cipher.out cipher.outUsed cipher.decrypt];
    rewrite ?drop_0;
    match goal with |- (let '(_, _) := ?t in _) = _ => destruct t end; reflexivity.
Qed.

Lemma refreshed_spec (x : cipher.cfb) :
  cfb_ok x ->
  keystream x = drop (cipher.outUsed (refreshed x)) (cipher.out (refreshed x)) /\
  length (cipher.out (refreshed x)) = aes.BlockSize /\
  cipher.outUsed (refreshed x) < aes.BlockSize.
Proof.
  intros (Hout & Hnext & Hused). unfold keystream, refreshed.
  destruct (cipher.outUsed x =? length (cipher.out x))%nat eqn:E; cfb_simpl.
  - rewrite length_Encrypt. unfold aes.BlockSize. repeat split; lia.
  - apply Nat.eqb_neq in E. repeat split; [done|lia].
Qed.

Lemma length_keystream (x : cipher.cfb) :
  cfb_ok x ->
  length (keystream x) = aes.BlockSize - cipher.outUsed (refreshed x).
Proof.
  intros H. destruct (refreshed_spec x H) as (-> & Hout & _).
  by rewrite length_drop, Hout.
Qed.

Lemma cfb_ok_advance (x : cipher.cfb) (dst src : list ascii) :
  cfb_ok x -> cfb_ok (advance x dst src).
Proof.
  intros H. pose proof (length_keystream x H) as Hks.
  destruct (refreshed_spec x H) as (_ & Hout & Hused).
  destruct H as (_ & Hnext & _).
  unfold cfb_ok, advance; cfb_simpl.
  rewrite length_copy_at, length_XORBytes by lia. lia.
Qed.

Lemma length_xorLoop (fuel : nat) :
  forall (x : cipher.cfb) (dst src : list ascii),
    cfb_ok x -> length dst = length src -> length src <= fuel ->
    length (cipher.xorLoop fuel x dst src).2 = length src.
Proof.
  induction fuel as [|fuel IH]; intros x dst src Hx Hlen Hfuel.
  - destruct src; simpl in *; [by rewrite Hlen | lia].
  - destruct (decide (src = [])) as [->|Hsrc].
    { rewrite xorLoop_nil. done. }
    rewrite xorLoop_step by done. cbn zeta. cfb_simpl.
    pose proof (length_keystream x Hx) as Hks.
    destruct (refreshed_spec x Hx) as (_ & _ & Hused).
    assert (Hd : length (XORBytes src (keystream x)) <= length src)
      by (rewrite length_XORBytes; lia).
    assert (Hpos : 0 < length (XORBytes src (keystream x))).
    { rewrite length_XORBytes. destruct src; [done|]. rewrite length_cons. lia. }
    rewrite drop_app_length, length_app.
    rewrite IH.
    + rewrite length_drop. lia.
    + by apply cfb_ok_advance.
    + rewrite !length_drop. lia.
    + rewrite length_drop. lia.
Qed.

(** A decrypting stream that shares key, feedback block and key stream
    position with an encrypting stream undoes it. *)
Lemma xorLoop_roundtrip (fuel : nat) :
  forall (xe xd : cipher.cfb) (dst dst' p : list ascii),
    cfb_ok xe ->
    cipher.b xd = cipher.b xe -> cipher.next xd = cipher.next xe ->
    cipher.out xd = cipher.out xe -> cipher.outUsed xd = cipher.outUsed xe ->
    cipher.decrypt xe = false -> cipher.decrypt xd = true ->
    length dst = length p -> length dst' = length p -> length p <= fuel ->
    (cipher.xorLoop fuel xd dst' (cipher.xorLoop fuel xe dst p).2).2 = p.
Proof.
  induction fuel as [|fuel IH];
    intros xe xd dst dst' p Hxe Hb Hnext Hout Hused Hde Hdd Hlen Hlen' Hfuel.
  - destruct p; simpl in *; [|lia].
    destruct dst; [|done]. destruct dst'; done.
  - destruct (decide (p = [])) as [->|Hp].
    { rewrite xorLoop_nil. cfb_simpl. destruct dst; [|done].
      rewrite xorLoop_nil. destruct dst'; done. }
    assert (Hxd : cfb_ok xd).
    { destruct Hxe as (? & ? & ?). unfold cfb_ok. by rewrite Hout, Hnext, Hused. }
    assert (Hks : keystream xd = keystream xe).
    { unfold keystream. by rewrite Hb, Hnext, Hout, Hused. }
    assert (Hrf : cipher.outUsed (refreshed xd) = cipher.outUsed (refreshed xe) /\
                  cipher.out (refreshed xd) = cipher.out (refreshed xe)).
    { unfold refreshed. rewrite Hb, Hnext, Hout, Hused.
      by destruct (cipher.outUsed xe =? length (cipher.out xe))%nat. }
    destruct Hrf as [Hrf1 Hrf2].
    pose proof (length_keystream xe Hxe) as Hlks.
    destruct (refreshed_spec xe Hxe) as (_ & Hrout & Hrused).
    rewrite (xorLoop_step fuel xe) by done. cbn zeta. cfb_simpl.
    set (ks := keystream xe) in *.
    set (d := XORBytes p ks).
    assert (Hd : length d = Nat.min (length p) (length ks))
      by apply length_XORBytes.
    assert (Hdpos : 0 < length d).
    { rewrite Hd, Hlks. destruct p; [done|]. rewrite length_cons. lia. }
    rewrite drop_app_length.
    set (re := (cipher.xorLoop fuel (advance xe dst p) (drop (length d) dst)
                               (drop (length d) p)).2).
    assert (Hre : length re = length p - length d).
    { unfold re. rewrite length_xorLoop.
      - by rewrite length_drop.
      - by apply cfb_ok_advance.
      - rewrite !length_drop. lia.
      - rewrite length_drop. lia. }
    assert (Hc : d ++ re <> []) by (destruct d; [simpl in Hdpos; lia | done]).
    rewrite (xorLoop_step fuel xd) by done. cbn zeta. cfb_simpl.
    rewrite Hks.
    assert (Hd' : XORBytes (d ++ re) ks = take (length d) p).
    { unfold XORBytes. rewrite zip_with_app_l.
      assert (zip_with xor_byte re (drop (length d) ks) = []) as ->.
      { apply nil_length_inv. rewrite length_zip_with, length_drop. lia. }
      rewrite app_nil_r.
      rewrite zip_with_take_r.
      fold (XORBytes d ks). unfold d. rewrite XORBytes_cancel.
      fold d. rewrite Hd.
      destruct (Nat.min_spec (length p) (length ks)) as [[? ->]|[? ->]]; [|done].
      by rewrite !take_ge by lia. }
    rewrite Hd'.
    assert (Htl : length (take (length d) p) = length d)
      by (rewrite length_take; lia).
    rewrite !drop_app_length, !Htl, ?drop_app_length.
    transitivity (take (length d) p ++ drop (length d) p); [f_equal | apply take_drop].
    apply IH.
    + by apply cfb_ok_advance.
    + done.
    + unfold advance; cfb_simpl. rewrite Hrf1, Hnext, Hde, Hdd, ?Hks.
      fold ks. fold d.
      rewrite !copy_at_app; [done|..];
        rewrite length_app, ?Hre, ?length_drop; destruct Hxe as (_ & -> & _); lia.
    + unfold advance; cfb_simpl. by rewrite Hrf2.
    + unfold advance; cfb_simpl. rewrite Hrf1, Hks. fold ks. by rewrite Hd', Htl.
    + unfold advance; cfb_simpl. done.
    + unfold advance; cfb_simpl. done.
    + rewrite !length_drop. lia.
    + rewrite !length_drop. lia.
    + rewrite length_drop. lia.
Qed.

(** ** Base64 *)

Lemma land_shiftl_low (x y k : N) : (y < 2 ^ k)%N -> N.land (N.shiftl x k) y = 0%N.
Proof.
  intros Hy. apply N.bits_inj_iff. intros n.
  rewrite N.land_spec, N.bits_0.
  destruct (N.lt_ge_cases n k) as [Hn|Hn].
  - by rewrite N.shiftl_spec_low.
  - rewrite <- (N.mod_small y (2 ^ k)) by done.
    rewrite N.mod_pow2_bits_high by done. apply andb_false_r.
Qed.

Lemma lor_shiftl_add (x y k : N) :
  (y < 2 ^ k)%N -> N.lor (N.shiftl x k) y = (x * 2 ^ k + y)%N.
Proof.
  intros Hy.
  rewrite <- N.lxor_lor, <- N.add_nocarry_lxor by by apply land_shiftl_low.
  by rewrite N.shiftl_mul_pow2.
Qed.

Lemma sextet_lt (v : N) : (N.land v 63 < 64)%N.
Proof.
  change 63%N with (N.ones 6). rewrite N.land_ones.
  apply N.mod_lt. done.
Qed.

Lemma lor_add_low (x y k : N) :
  (x mod 2 ^ k = 0)%N -> (y < 2 ^ k)%N -> N.lor x y = (x + y)%N.
Proof.
  intros Hx Hy.
  assert (x = N.shiftl (x / 2 ^ k) k) as ->.
  { rewrite N.shiftl_mul_pow2.
    rewrite (N.div_mod x (2 ^ k)) at 1 by (apply N.pow_nonzero; done). lia. }
  rewrite lor_shiftl_add by done. by rewrite N.shiftl_mul_pow2.
Qed.

(** The six bits at position [k] of [v = (hi * 64 + s) * 2^k + lo]. *)
Lemma land_shiftr_63 (v k hi s lo : N) :
  (s < 64)%N -> (lo < 2 ^ k)%N -> v = ((hi * 64 + s) * 2 ^ k + lo)%N ->
  N.land (N.shiftr v k) 63 = s.
Proof.
  intros Hs Hlo ->.
  change 63%N with (N.ones 6). rewrite N.land_ones, N.shiftr_div_pow2.
  rewrite <- (N.div_unique _ (2 ^ k) (hi * 64 + s) lo) by (done || lia).
  symmetry. apply (N.mod_unique _ _ hi); [done | change (2 ^ 6)%N with 64%N; lia].
Qed.

(** The byte at position [k] of [v = (hi * 256 + x) * 2^k + lo]. *)
Lemma byte_shiftr (v k hi lo : N) (x : ascii) :
  (lo < 2 ^ k)%N -> v = ((hi * 256 + N_of_ascii x) * 2 ^ k + lo)%N ->
  byte_of_N (N.shiftr v k) = x.
Proof.
  intros Hlo ->. unfold byte_of_N. rewrite N.shiftr_div_pow2.
  rewrite <- (N.div_unique _ (2 ^ k) (hi * 256 + N_of_ascii x) lo) by (done || lia).
  rewrite <- (N.mod_unique _ 256 hi (N_of_ascii x)).
  - apply ascii_N_embedding.
  - apply N_ascii_bounded.
  - lia.
Qed.

Lemma decodeMap_encodeChar (i : N) :
  (i < 64)%N -> base64.decodeMap (base64.encodeChar i) = Some i.
Proof.
  intros Hi. rewrite <- (N2Nat.id i).
  assert (Hn : N.to_nat i < 64) by lia.
  generalize dependent (N.to_nat i). clear. intros n Hn.
  do 64 (destruct n as [|n]; [vm_compute; reflexivity|]). lia.
Qed.

Lemma decodeMap_sextet (val k : N) :
  base64.decodeMap (base64.sextet val k) = Some (N.land (N.shiftr val k) 63).
Proof. apply decodeMap_encodeChar, sextet_lt. Qed.

Lemma sextets_spec (v a b c : N) :
  (a < 256)%N -> (b < 256)%N -> (c < 256)%N ->
  v = (a * 65536 + b * 256 + c)%N ->
  let s k := N.land (N.shiftr v k) 63 in
  (s 18 = a / 4 /\ s 12 = (a mod 4) * 16 + b / 16 /\
   s 6 = (b mod 16) * 4 + c / 64 /\ s 0 = c mod 64 /\
   s 18 * 262144 + s 12 * 4096 + s 6 * 64 + s 0 = v)%N.
Proof.
  intros Ha Hb Hc Hv s.
  pose proof (N.div_mod a 4 ltac:(done)) as Ea.
  pose proof (N.mod_lt a 4 ltac:(done)) as La.
  pose proof (N.div_mod b 16 ltac:(done)) as Eb.
  pose proof (N.mod_lt b 16 ltac:(done)) as Lb.
  pose proof (N.div_mod c 64 ltac:(done)) as Ec.
  pose proof (N.mod_lt c 64 ltac:(done)) as Lc.
  set (a1 := (a / 4)%N) in *. set (a0 := (a mod 4)%N) in *.
  set (b1 := (b / 16)%N) in *. set (b0 := (b mod 16)%N) in *.
  set (c1 := (c / 64)%N) in *. set (c0 := (c mod 64)%N) in *.
  assert (E18 : s 18%N = a1).
  { apply (land_shiftr_63 v 18 0 a1 (a0 * 65536 + b * 256 + c));
      change (2 ^ 18)%N with 262144%N; lia. }
  assert (E12 : s 12%N = (a0 * 16 + b1)%N).
  { apply (land_shiftr_63 v 12 a1 _ (b0 * 256 + c));
      change (2 ^ 12)%N with 4096%N; lia. }
  assert (E6 : s 6%N = (b0 * 4 + c1)%N).
  { apply (land_shiftr_63 v 6 (a * 16 + b1) _ c0);
      change (2 ^ 6)%N with 64%N; lia. }
  assert (E0 : s 0%N = c0).
  { apply (land_shiftr_63 v 0 (a * 1024 + b * 4 + c1) _ 0);
      change (2 ^ 0)%N with 1%N; lia. }
  rewrite E18, E12, E6, E0. repeat split; lia.
Qed.

Lemma quantumBytes_spec (dbuf : list N) (dlen : nat) (x y z : ascii) :
  let s j := nth j dbuf 0%N in
  (s 0%nat < 64)%N -> (s 1%nat < 64)%N -> (s 2%nat < 64)%N -> (s 3%nat < 64)%N ->
  (s 0%nat * 262144 + s 1%nat * 4096 + s 2%nat * 64 + s 3%nat
   = N_of_ascii x * 65536 + N_of_ascii y * 256 + N_of_ascii z)%N ->
  base64.quantumBytes dbuf dlen = take (dlen - 1) [x; y; z].
Proof.
  intros s H0 H1 H2 H3 Hv. unfold base64.quantumBytes. cbv zeta.
  change (nth 0 dbuf 0%N) with (s 0%nat). change (nth 1 dbuf 0%N) with (s 1%nat).
  change (nth 2 dbuf 0%N) with (s 2%nat). change (nth 3 dbuf 0%N) with (s 3%nat).
  pose proof (N_ascii_bounded x). pose proof (N_ascii_bounded y).
  pose proof (N_ascii_bounded z).
  assert (Hval : N.lor (N.lor (N.lor (N.shiftl (s 0%nat) 18) (N.shiftl (s 1%nat) 12))
                              (N.shiftl (s 2%nat) 6)) (s 3%nat)
                 = (N_of_ascii x * 65536 + N_of_ascii y * 256 + N_of_ascii z)%N).
  { rewrite <- Hv.
    rewrite (lor_shiftl_add (s 0%nat) _ 18)
      by (rewrite N.shiftl_mul_pow2; change (2 ^ 12)%N with 4096%N;
          change (2 ^ 18)%N with 262144%N; lia).
    rewrite !N.shiftl_mul_pow2.
    change (2 ^ 18)%N with 262144%N. change (2 ^ 12)%N with 4096%N.
    change (2 ^ 6)%N with 64%N.
    rewrite (lor_add_low (_ + _) (s 2%nat * 64) 12).
    - rewrite (lor_add_low _ _ 6); [done| |done].
      change (2 ^ 6)%N with 64%N.
      symmetry. apply (N.mod_unique _ _ (s 0%nat * 4096 + s 1%nat * 64 + s 2%nat)); lia.
    - change (2 ^ 12)%N with 4096%N.
      symmetry. apply (N.mod_unique _ _ (s 0%nat * 64 + s 1%nat)); lia.
    - change (2 ^ 12)%N with 4096%N. lia. }
  rewrite Hval. f_equal. f_equal; [|f_equal; [|f_equal]].
  - apply (byte_shiftr _ 16 0 (N_of_ascii y * 256 + N_of_ascii z));
      change (2 ^ 16)%N with 65536%N; lia.
  - apply (byte_shiftr _ 8 (N_of_ascii x) (N_of_ascii z));
      change (2 ^ 8)%N with 256%N; lia.
  - rewrite <- (N.shiftr_0_r (_ + _)).
    apply (byte_shiftr _ 0 (N_of_ascii x * 256 + N_of_ascii y) 0);
      change (2 ^ 0)%N with 1%N; lia.
Qed.

Lemma decodeMap_pad : base64.decodeMap base64.StdPadding = None.
Proof. reflexivity. Qed.

Lemma isNewline_pad : base64.isNewline base64.StdPadding = false.
Proof. reflexivity. Qed.

Lemma eqb_pad : Ascii.eqb base64.StdPadding base64.StdPadding = true.
Proof. reflexivity. Qed.

Ltac decode_step :=
  cbn [base64.decodeLoop];
  rewrite ?decodeMap_sextet, ?decodeMap_pad, ?isNewline_pad;
  cbn [app length Nat.eqb base64.finishQuantum base64.skipNewlines negb];
  rewrite ?isNewline_pad, ?eqb_pad;
  cbn [length base64.finishQuantum base64.skipNewlines negb].

(** Decoding undoes encoding, at any offset in the input. *)
Lemma decodeLoop_Encode (n : nat) :
  forall (src : list ascii) (si : nat),
    length src <= n ->
    base64.decodeLoop (base64.Encode src) si [] = (src, None).
Proof.
  induction n as [|n IH]; intros src si Hn.
  { destruct src; [reflexivity | simpl in Hn; lia]. }
  destruct src as [|x [|y [|z rest]]].
  - reflexivity.
  - cbn [base64.Encode]. do 3 decode_step. f_equal.
    pose proof (N_ascii_bounded x).
    destruct (sextets_spec (N.shiftl (N_of_ascii x) 16) (N_of_ascii x) 0 0)
      as (_ & _ & E6 & E0 & Hsum); [done..| |].
    { rewrite N.shiftl_mul_pow2. change (2 ^ 16)%N with 65536%N. lia. }
    change (0 mod 16 * 4 + 0 / 64)%N with 0%N in E6.
    change (0 mod 64)%N with 0%N in E0.
    rewrite E6, E0 in Hsum.
    rewrite N.shiftl_mul_pow2 in Hsum at 3. change (2 ^ 16)%N with 65536%N in Hsum.
    rewrite (quantumBytes_spec _ _ x zero zero); cbn [nth];
      [reflexivity | apply sextet_lt | apply sextet_lt | done | done |].
    change (N_of_ascii zero) with 0%N. lia.
  - cbn [base64.Encode]. do 4 decode_step. f_equal.
    pose proof (N_ascii_bounded x). pose proof (N_ascii_bounded y).
    set (v := N.lor _ _).
    destruct (sextets_spec v (N_of_ascii x) (N_of_ascii y) 0)
      as (_ & _ & _ & E0 & Hsum); [done..| |].
    { unfold v. rewrite lor_shiftl_add;
        rewrite !N.shiftl_mul_pow2; change (2 ^ 16)%N with 65536%N;
        change (2 ^ 8)%N with 256%N; lia. }
    change (0 mod 64)%N with 0%N in E0. rewrite E0 in Hsum.
    assert (Hv : v = (N_of_ascii x * 65536 + N_of_ascii y * 256)%N).
    { unfold v. rewrite lor_shiftl_add;
        rewrite !N.shiftl_mul_pow2; change (2 ^ 16)%N with 65536%N;
        change (2 ^ 8)%N with 256%N; lia. }
    rewrite (quantumBytes_spec _ _ x y zero); cbn [nth];
      [reflexivity | apply sextet_lt | apply sextet_lt | apply sextet_lt | done |].
    change (N_of_ascii zero) with 0%N. lia.
  - cbn [base64.Encode]. do 4 decode_step.
    rewrite IH by (simpl in Hn; lia). f_equal.
    pose proof (N_ascii_bounded x). pose proof (N_ascii_bounded y).
    pose proof (N_ascii_bounded z).
    set (v := N.lor _ _).
    assert (Hv : v = (N_of_ascii x * 65536 + N_of_ascii y * 256 + N_of_ascii z)%N).
    { unfold v.
      rewrite (lor_shiftl_add (N_of_ascii x) _ 16)
        by (rewrite N.shiftl_mul_pow2; change (2 ^ 16)%N with 65536%N;
            change (2 ^ 8)%N with 256%N; lia).
      rewrite (lor_add_low _ _ 8).
      - rewrite N.shiftl_mul_pow2. change (2 ^ 16)%N with 65536%N.
        change (2 ^ 8)%N with 256%N. lia.
      - rewrite N.shiftl_mul_pow2. change (2 ^ 16)%N with 65536%N.
        change (2 ^ 8)%N with 256%N.
        symmetry. apply (N.mod_unique _ _ (N_of_ascii x * 256 + N_of_ascii y)); lia.
      - change (2 ^ 8)%N with 256%N. lia. }
    destruct (sextets_spec v (N_of_ascii x) (N_of_ascii y) (N_of_ascii z))
      as (_ & _ & _ & _ & Hsum); [done..|].
    rewrite (quantumBytes_spec _ _ x y z); cbn [nth];
      [reflexivity | apply sextet_lt.. |].
    lia.
Qed.

Lemma DecodeString_EncodeToString (b : list ascii) :
  base64.DecodeString (base64.EncodeToString b) = (b, None).
Proof.
  unfold base64.DecodeString, base64.EncodeToString.
  rewrite list_ascii_of_string_of_list_ascii.
  by apply (decodeLoop_Encode (length b)).
Qed.

(** ** The symmetric transform *)

Lemma NewCipher_valid (key : list ascii) :
  length key = 16 \/ length key = 24 \/ length key = 32 ->
  aes.NewCipher key = inl (aes.expandKey (map N_of_ascii key)).
Proof.
  intros H. unfold aes.NewCipher.
  by destruct H as [->|[->| ->]].
Qed.

Lemma NewCipher_invalid (key : list ascii) :
  length key <> 16 -> length key <> 24 -> length key <> 32 ->
  aes.NewCipher key = inr (KeySizeError (length key)).
Proof.
  intros H1 H2 H3. unfold aes.NewCipher.
  apply Nat.eqb_neq in H1, H2, H3. by rewrite H1, H2, H3.
Qed.

Lemma newCFB_bytes (block : aes.Block) (dec : bool) :
  cipher.newCFB block bytes dec =
  Returns (cipher.mkCFB block bytes (replicate 16 zero) 16 dec).
Proof. reflexivity. Qed.

Lemma cfb_ok_fresh (block : aes.Block) (dec : bool) :
  cfb_ok (cipher.mkCFB block bytes (replicate 16 zero) 16 dec).
Proof. unfold cfb_ok. cfb_simpl. repeat split; reflexivity || (unfold aes.BlockSize; lia). Qed.

Lemma XORKeyStream_fresh (x : cipher.cfb) (src : list ascii) :
  cipher.XORKeyStream x (replicate (length src) zero) src =
  Returns (cipher.xorLoop (length src) x (replicate (length src) zero) src).
Proof.
  unfold cipher.XORKeyStream. rewrite length_replicate.
  by rewrite Nat.ltb_irrefl.
Qed.

Lemma encrypt_valid (text password : string) :
  let key := list_ascii_of_string password in
  length key = 16 \/ length key = 24 \/ length key = 32 ->
  encrypt text password =
  Returns (encode (ciphertext (aes.expandKey (map N_of_ascii key))
                              (list_ascii_of_string text)), None).
Proof.
  intros key Hkey. unfold encrypt. fold key. rewrite NewCipher_valid by done.
  unfold cipher.NewCFBEncrypter. rewrite newCFB_bytes. cbn [obind].
  rewrite XORKeyStream_fresh. cbn [obind].
  unfold ciphertext. by destruct (cipher.xorLoop _ _ _ _).
Qed.

Lemma length_ciphertext (block : aes.Block) (plainText : list ascii) :
  length (ciphertext block plainText) = length plainText.
Proof.
  unfold ciphertext. apply length_xorLoop.
  - apply cfb_ok_fresh.
  - apply length_replicate.
  - done.
Qed.

Lemma decode_encode (b : list ascii) : decode (encode b) = Returns b.
Proof. unfold decode, encode. by rewrite DecodeString_EncodeToString. Qed.

Lemma decrypt_ciphertext (block : aes.Block) (p : list ascii) (password : string) :
  aes.NewCipher (list_ascii_of_string password) = inl block ->
  decrypt (encode (ciphertext block p)) password =
  Returns (string_of_list_ascii p, None).
Proof.
  intros Hc. unfold decrypt. rewrite Hc, decode_encode. cbn [obind].
  unfold cipher.NewCFBDecrypter. rewrite newCFB_bytes. cbn [obind].
  rewrite XORKeyStream_fresh. cbn [obind].
  pose proof (length_ciphertext block p) as Hlen.
  pose proof (xorLoop_roundtrip (length p)
                (cipher.mkCFB block bytes (replicate 16 zero) 16 false)
                (cipher.mkCFB block bytes (replicate 16 zero) 16 true)
                (replicate (length p) zero)
                (replicate (length (ciphertext block p)) zero) p
                (cfb_ok_fresh block false) eq_refl eq_refl eq_refl eq_refl
                eq_refl eq_refl) as Hrt.
  rewrite !length_replicate in Hrt. specialize (Hrt eq_refl Hlen (le_n _)).
  fold (ciphertext block p) in Hrt. rewrite <- Hlen in Hrt at 1.
  destruct (cipher.xorLoop _ _ _ _) as [x' plain]. simpl in Hrt. by subst.
Qed.

(** C1. For every key of 32 bytes and every plaintext, byte string of any
    content and length, [encrypt] returns a ciphertext without error, and
    [decrypt] of that ciphertext under the same key returns the plaintext
    without error. *)
Theorem decrypt_encrypt_roundtrip (P K : string) :
  String.length K = keySize ->
  exists C : string,
    encrypt P K = Returns (C, None) /\ decrypt C K = Returns (P, None).
Proof.
  intros HK.
  assert (Hkey : length (list_ascii_of_string K) = 32)
    by by rewrite length_list_ascii_of_string.
  eexists. split.
  - apply encrypt_valid. auto.
  - rewrite decrypt_ciphertext.
    + by rewrite string_of_list_ascii_of_string.
    + apply NewCipher_valid. auto.
Qed.

Lemma decrypt_encrypt_roundtrip_witness :
  exists C : string,
    encrypt "héllo, wörld" "0123456789abcdef0123456789ABCDEF" = Returns (C, None) /\
    decrypt C "0123456789abcdef0123456789ABCDEF" = Returns ("héllo, wörld", None).
Proof. apply decrypt_encrypt_roundtrip. reflexivity. Defined.

(** ** Password resolution *)

Lemma emitted_log (ev : event) (w : world) : emitted w (log ev w) = [ev].
Proof. unfold emitted, log; simpl. by rewrite drop_app_length. Qed.

Lemma emitted_log2 (ev1 ev2 : event) (w : world) :
  emitted w (log ev2 (log ev1 w)) = [ev1; ev2].
Proof.
  unfold emitted, log; simpl. by rewrite <- app_assoc, drop_app_length.
Qed.

Lemma getPassword_world (v : Vault) (w : world) :
  exists r, getPassword v w = (Returns r, log (password_event v) w).
Proof.
  unfold getPassword, password_event, getPasswordKeyring, getPasswordEnv,
    keyring.Get, os.Getenv, bind, ret.
  destruct (keyring v).
  - destruct (keyring_get_failure w); [eauto|].
    destruct (secrets w !! _); eauto.
  - destruct (String.eqb _ _); eauto.
Qed.

Lemma getPassword_log (v : Vault) (ev : event) (w : world) :
  (getPassword v (log ev w)).1 = (getPassword v w).1.
Proof.
  unfold getPassword, getPasswordKeyring, getPasswordEnv,
    keyring.Get, os.Getenv, bind, ret.
  destruct (keyring v); simpl.
  - destruct (keyring_get_failure w); [done|].
    by destruct (secrets w !! _).
  - by destruct (String.eqb _ _).
Qed.

Lemma getPassword_eq (v : Vault) (w : world) (r : string * option error) :
  (getPassword v w).1 = Returns r ->
  getPassword v w = (Returns r, log (password_event v) w).
Proof.
  intros H. destruct (getPassword_world v w) as [r' E].
  rewrite E in H |- *. simpl in H. by inversion H.
Qed.

Lemma encrypt_invalid (P K : string) :
  String.length K <> 16 -> String.length K <> 24 -> String.length K <> 32 ->
  encrypt P K = Returns ("", Some (KeySizeError (String.length K))).
Proof.
  intros H1 H2 H3. unfold encrypt.
  rewrite NewCipher_invalid by by rewrite length_list_ascii_of_string.
  by rewrite length_list_ascii_of_string.
Qed.

Lemma decrypt_invalid (C K : string) :
  String.length K <> 16 -> String.length K <> 24 -> String.length K <> 32 ->
  decrypt C K = Returns ("", Some (KeySizeError (String.length K))).
Proof.
  intros H1 H2 H3. unfold decrypt.
  rewrite NewCipher_invalid by by rewrite length_list_ascii_of_string.
  by rewrite length_list_ascii_of_string.
Qed.

(** [Write], step by step. *)
Lemma Write_password_error (v : Vault) (contents : string) (w : world)
      (p : string) (e : error) :
  (getPassword v w).1 = Returns (p, Some e) ->
  Write v contents w = (Returns (Some e), log (password_event v) w).
Proof.
  intros H. unfold Write, bind. by rewrite (getPassword_eq _ _ _ H).
Qed.

Lemma Write_encrypt_error (v : Vault) (contents : string) (w : world)
      (K s : string) (e : error) :
  (getPassword v w).1 = Returns (K, None) ->
  encrypt contents K = Returns (s, Some e) ->
  Write v contents w = (Returns (Some e), log (password_event v) w).
Proof.
  intros H He. unfold Write, bind, lift. by rewrite (getPassword_eq _ _ _ H), He.
Qed.

Lemma Write_encrypted (v : Vault) (contents : string) (w : world)
      (K s : string) :
  (getPassword v w).1 = Returns (K, None) ->
  encrypt contents K = Returns (s, None) ->
  Write v contents w =
  ioutil.WriteFile (filename v) (list_ascii_of_string s) 384
                   (log (password_event v) w).
Proof.
  intros H He. unfold Write, bind, lift. by rewrite (getPassword_eq _ _ _ H), He.
Qed.

Lemma Write_encrypt_panic (v : Vault) (contents : string) (w : world)
      (K msg : string) :
  (getPassword v w).1 = Returns (K, None) ->
  encrypt contents K = Panics msg ->
  Write v contents w = (Panics msg, log (password_event v) w).
Proof.
  intros H He. unfold Write, bind, lift. by rewrite (getPassword_eq _ _ _ H), He.
Qed.

Lemma is_file_password_event (v : Vault) : is_file_event (password_event v) = false.
Proof. unfold password_event. by destruct (keyring v). Qed.

(** [Read], step by step. *)
Lemma Read_file_error (v : Vault) (w : world) :
  (forall data, files w !! filename v <> Some (RegularFile data)) ->
  exists e, Read v w = (Returns ("", Some e), log (EvReadFile (filename v)) w).
Proof.
  intros H. unfold Read, loadFromDisk, bind, ioutil.ReadFile, ret.
  destruct (files w !! filename v) as [[data|errno]|] eqn:E; eauto.
  by destruct (H data).
Qed.

(** A file that cannot be read: the error of [ReadFile] is returned and
    the password is not asked for. *)
Lemma Read_unreadable (v : Vault) (w : world) (errno : string) :
  files w !! filename v = None /\ errno = enoent w \/
  (exists e, files w !! filename v = Some (Inaccessible e) /\ errno = e) ->
  Read v w = (Returns ("", Some (PathError "open" (filename v) errno)),
              log (EvReadFile (filename v)) w).
Proof.
  unfold Read, loadFromDisk, bind, ioutil.ReadFile, ret.
  intros [[-> ->]|[e [-> ->]]]; reflexivity.
Qed.

Lemma Read_file (v : Vault) (w : world) (data : list ascii) (K : string) :
  files w !! filename v = Some (RegularFile data) ->
  (getPassword v w).1 = Returns (K, None) ->
  Read v w = (decrypt (string_of_list_ascii data) K,
              log (password_event v) (log (EvReadFile (filename v)) w)).
Proof.
  intros Hf Hp. unfold Read, loadFromDisk, bind, ioutil.ReadFile, ret, lift.
  rewrite Hf.
  rewrite <- (getPassword_log v (EvReadFile (filename v)) w) in Hp.
  by rewrite (getPassword_eq _ _ _ Hp).
Qed.

Lemma files_log (ev : event) (w : world) : files (log ev w) = files w.
Proof. reflexivity. Qed.

(** [ioutil.WriteFile], case by case. *)
Lemma writable_log (ev : event) (w : world) (name : string) :
  writable (log ev w) name <-> writable w name.
Proof. reflexivity. Qed.

Lemma WriteFile_ok (f : string) (d : list ascii) (p : N) (w : world) :
  writable w f ->
  ioutil.WriteFile f d p w =
  (Returns None,
   set_files (<[f := RegularFile d]> (files w)) (log (EvWriteFile f d p) w)).
Proof.
  intros [Hf Hw]. unfold ioutil.WriteFile. rewrite Hw.
  destruct (files w !! f) as [[?|errno]|]; try reflexivity.
  by destruct (Hf errno).
Qed.

Lemma WriteFile_cases (f : string) (d : list ascii) (p : N) (w : world) :
  let w' := log (EvWriteFile f d p) w in
  (exists e, ioutil.WriteFile f d p w = (Returns (Some e), w')) \/
  (exists e n,
      ioutil.WriteFile f d p w =
      (Returns (Some e),
       set_files (<[f := RegularFile (take n d)]> (files w)) w')) \/
  (writable w f /\
   ioutil.WriteFile f d p w =
   (Returns None, set_files (<[f := RegularFile d]> (files w)) w')).
Proof.
  intros w'. unfold ioutil.WriteFile. fold w'.
  destruct (files w !! f) as [[data|errno]|] eqn:Hf;
    [|left; eauto|];
    (destruct (write_faults w !! f) as [[errno|n errno|n errno]|] eqn:Hw;
     [left; eauto | right; left; eauto | right; left; eauto |]);
    right; right; (split; [split; [intros errno; rewrite Hf; discriminate | exact Hw] | reflexivity]).
Qed.

(** ** Key sizes *)

(** C2 (as amended). The cipher accepts keys of 16, 24 and 32 bytes.  For
    every key of any other length, [encrypt] and [decrypt] return the
    cipher's key-size error; a [Write] with such key material returns that
    error, makes no file-system call and leaves all files as they were; a
    [Read] first calls [ReadFile]: when the file can be read it then
    resolves the password and returns the key-size error, otherwise it
    returns the error of [ReadFile] and makes no further call; it writes
    no file and leaves all files as they were. *)
Theorem invalid_key_size_rejected (K : string) :
  String.length K <> 16 -> String.length K <> 24 -> String.length K <> 32 ->
  let err := KeySizeError (String.length K) in
  (forall P, encrypt P K = Returns ("", Some err)) /\
  (forall C, decrypt C K = Returns ("", Some err)) /\
  (forall v w contents,
      (getPassword v w).1 = Returns (K, None) ->
      (Write v contents w).1 = Returns (Some err) /\
      files (Write v contents w).2 = files w /\
      Forall (fun ev => is_file_event ev = false)
             (emitted w (Write v contents w).2)) /\
  (forall v w,
      (getPassword v w).1 = Returns (K, None) ->
      match files w !! filename v with
      | Some (RegularFile _) =>
          (Read v w).1 = Returns ("", Some err) /\
          emitted w (Read v w).2 = [EvReadFile (filename v); password_event v]
      | _ =>
          (exists e, (ioutil.ReadFile (filename v) w).1 = Returns ([], Some e) /\
                     (Read v w).1 = Returns ("", Some e)) /\
          emitted w (Read v w).2 = [EvReadFile (filename v)]
      end /\
      files (Read v w).2 = files w /\
      Forall (fun ev => is_write_event ev = false) (emitted w (Read v w).2)).
Proof.
  intros H16 H24 H32 err. split; [|split; [|split]].
  - intros P. by apply encrypt_invalid.
  - intros C. by apply decrypt_invalid.
  - intros v w contents Hp.
    rewrite (Write_encrypt_error v contents w K "" err Hp)
      by by apply encrypt_invalid.
    simpl. rewrite emitted_log. repeat split.
    constructor; [apply is_file_password_event | constructor].
  - intros v w Hp.
    destruct (files w !! filename v) as [[data|errno]|] eqn:Hf.
    + rewrite (Read_file v w data K Hf Hp), decrypt_invalid by done.
      cbn [fst snd]. rewrite emitted_log2.
      split; [split; reflexivity|]. split; [reflexivity|].
      apply Forall_cons_2; [reflexivity|].
      apply Forall_cons_2; [|apply Forall_nil_2].
      unfold password_event. by destruct (keyring v).
    + rewrite (Read_unreadable v w _ (or_intror (ex_intro _ errno (conj Hf eq_refl)))).
      cbn [fst snd]. rewrite emitted_log.
      split; [split; [|reflexivity]|].
      { eexists. split; [|reflexivity]. unfold ioutil.ReadFile. by rewrite Hf. }
      split; [reflexivity|].
      apply Forall_cons_2; [reflexivity | apply Forall_nil_2].
    + rewrite (Read_unreadable v w _ (or_introl (conj Hf eq_refl))).
      cbn [fst snd]. rewrite emitted_log.
      split; [split; [|reflexivity]|].
      { eexists. split; [|reflexivity]. unfold ioutil.ReadFile. by rewrite Hf. }
      split; [reflexivity|].
      apply Forall_cons_2; [reflexivity | apply Forall_nil_2].
Qed.

Lemma invalid_key_size_rejected_witness :
  let err := KeySizeError 10 in
  (forall P, encrypt P "0123456789" = Returns ("", Some err)) /\
  (forall C, decrypt C "0123456789" = Returns ("", Some err)) /\
  (forall v w contents,
      (getPassword v w).1 = Returns ("0123456789", None) ->
      (Write v contents w).1 = Returns (Some err) /\
      files (Write v contents w).2 = files w /\
      Forall (fun ev => is_file_event ev = false)
             (emitted w (Write v contents w).2)) /\
  (forall v w,
      (getPassword v w).1 = Returns ("0123456789", None) ->
      match files w !! filename v with
      | Some (RegularFile _) =>
          (Read v w).1 = Returns ("", Some err) /\
          emitted w (Read v w).2 = [EvReadFile (filename v); password_event v]
      | _ =>
          (exists e, (ioutil.ReadFile (filename v) w).1 = Returns ([], Some e) /\
                     (Read v w).1 = Returns ("", Some e)) /\
          emitted w (Read v w).2 = [EvReadFile (filename v)]
      end /\
      files (Read v w).2 = files w /\
      Forall (fun ev => is_write_event ev = false) (emitted w (Read v w).2)).
Proof.
  apply (invalid_key_size_rejected "0123456789"); simpl; lia.
Defined.

(** C2, the claim as stated fails: a key of 16 bytes is not of 32 bytes,
    yet [encrypt] and [decrypt] succeed with it; and a [Read] with a
    ten-byte key does read the file before it fails. *)
Lemma key_size_counterexample :
  String.length key16 <> 32 /\
  encrypt "hello" key16 = Returns ("jm8Cg8g=", None) /\
  decrypt "jm8Cg8g=" key16 = Returns ("hello", None) /\
  (getPassword env_vault short_key_world).1 = Returns ("0123456789", None) /\
  (Read env_vault short_key_world).1 = Returns ("", Some (KeySizeError 10)) /\
  emitted short_key_world (Read env_vault short_key_world).2
  = [EvReadFile "cookies.txt"; EvGetenv "UGGSECP"].
Proof.
  split; [simpl; lia|]. repeat split; vm_compute; reflexivity.
Qed.

(** ** Malformed base64 *)

(** C3 (as amended). For every input on which the base64 decoder fails and
    every key the cipher accepts, [decrypt] panics with the decoder's
    error instead of returning it, and so does a [Read] of a file with
    such contents. *)
Theorem decrypt_malformed_panics (s K : string) (e : error) :
  (base64.DecodeString s).2 = Some e ->
  String.length K = 16 \/ String.length K = 24 \/ String.length K = 32 ->
  decrypt s K = Panics (Error e) /\
  forall v w data,
    files w !! filename v = Some (RegularFile data) ->
    string_of_list_ascii data = s ->
    (getPassword v w).1 = Returns (K, None) ->
    (Read v w).1 = Panics (Error e).
Proof.
  intros Hs HK.
  assert (Hd : decrypt s K = Panics (Error e)).
  { unfold decrypt. rewrite NewCipher_valid
      by by rewrite length_list_ascii_of_string.
    unfold decode. destruct (base64.DecodeString s) as [d o].
    simpl in Hs. by subst o. }
  split; [done|].
  intros v w data Hf <- Hp. by rewrite (Read_file v w data K Hf Hp), Hd.
Qed.

Lemma decrypt_malformed_panics_witness :
  decrypt "!" key32 = Panics (Error (CorruptInputError 0)) /\
  forall v w data,
    files w !! filename v = Some (RegularFile data) ->
    string_of_list_ascii data = "!" ->
    (getPassword v w).1 = Returns (key32, None) ->
    (Read v w).1 = Panics (Error (CorruptInputError 0)).
Proof.
  apply decrypt_malformed_panics; [reflexivity | right; right; reflexivity].
Defined.

(** C3, the claim as stated fails: ["!"] is not base64, and [decrypt] and
    [Read] panic on it; they do not return. *)
Lemma decrypt_malformed_counterexample :
  (base64.DecodeString "!").2 = Some (CorruptInputError 0) /\
  decrypt "!" key32 = Panics "illegal base64 data at input byte 0" /\
  (Read env_vault corrupt_file_world).1
  = Panics "illegal base64 data at input byte 0".
Proof. repeat split; vm_compute; reflexivity. Qed.

(** ** The shape of base64 text *)

Lemma encodeChar_In (v k : N) :
  In (base64.sextet v k) (list_ascii_of_string base64.encodeStd).
Proof.
  unfold base64.sextet, base64.encodeChar.
  apply nth_In. pose proof (sextet_lt (N.shiftr v k)).
  change (length (list_ascii_of_string base64.encodeStd)) with 64%nat. lia.
Qed.

Lemma Encode_shape (n : nat) :
  forall src : list ascii,
    length src <= n ->
    length (base64.Encode src) = 4 * ((length src + 2) / 3) /\
    Forall base64_char (base64.Encode src).
Proof.
  induction n as [|n IH]; intros src Hn.
  { destruct src; [split; [reflexivity|constructor] | simpl in Hn; lia]. }
  destruct src as [|x [|y [|z rest]]]; cbn [base64.Encode].
  - split; [reflexivity|constructor].
  - split; [reflexivity|].
    repeat (apply Forall_cons_2; [(left; apply encodeChar_In) || (right; reflexivity)|]).
    apply Forall_nil_2.
  - split; [reflexivity|].
    repeat (apply Forall_cons_2; [(left; apply encodeChar_In) || (right; reflexivity)|]).
    apply Forall_nil_2.
  - destruct (IH rest) as [Hl Hf]; [simpl in Hn; lia|].
    split.
    + cbn [length]. rewrite Hl.
      replace (S (S (S (length rest))) + 2) with (length rest + 2 + 1 * 3) by lia.
      rewrite Nat.div_add by done. lia.
    + repeat (apply Forall_cons_2; [left; apply encodeChar_In|]). exact Hf.
Qed.

(** ** The file written by [Write] *)

(** C9. For every plaintext and every 32-byte key the vault resolves,
    [Write] succeeds on a writable path and the file then holds exactly
    the padded standard base64 text of the raw CFB ciphertext; the
    ciphertext is as long as the plaintext; the empty plaintext gives the
    empty ciphertext and the empty file. *)
Theorem Write_file_format (v : Vault) (P K : string) (w : world) :
  (getPassword v w).1 = Returns (K, None) ->
  String.length K = keySize ->
  writable w (filename v) ->
  let block := aes.expandKey (map N_of_ascii (list_ascii_of_string K)) in
  let ct := ciphertext block (list_ascii_of_string P) in
  encrypt P K = Returns (base64.EncodeToString ct, None) /\
  (Write v P w).1 = Returns None /\
  files (Write v P w).2 !! filename v = Some (RegularFile (base64.Encode ct)) /\
  length ct = String.length P /\
  length (base64.Encode ct) = 4 * ((String.length P + 2) / 3) /\
  Forall base64_char (base64.Encode ct) /\
  (P = "" -> ct = [] /\ base64.Encode ct = []).
Proof.
  intros Hp HK Hf block ct.
  assert (Hkey : length (list_ascii_of_string K) = 32)
    by by rewrite length_list_ascii_of_string.
  assert (He : encrypt P K = Returns (base64.EncodeToString ct, None)).
  { apply encrypt_valid. auto. }
  assert (Hct : length ct = String.length P).
  { unfold ct. by rewrite length_ciphertext, length_list_ascii_of_string. }
  split; [done|].
  rewrite (Write_encrypted v P w K _ Hp He).
  rewrite WriteFile_ok by by apply writable_log.
  unfold base64.EncodeToString. rewrite list_ascii_of_string_of_list_ascii.
  cbn [fst snd].
  destruct (Encode_shape (length ct) ct (le_n _)) as [Hl Hc].
  repeat split.
  - unfold set_files. cbn [files]. apply lookup_insert_eq.
  - done.
  - by rewrite Hl, Hct.
  - done.
  - subst P. by apply nil_length_inv.
  - subst P. by rewrite (nil_length_inv ct Hct).
Qed.

Lemma Write_file_format_witness :
  let block := aes.expandKey (map N_of_ascii (list_ascii_of_string key32)) in
  let ct := ciphertext block (list_ascii_of_string "hello") in
  encrypt "hello" key32 = Returns (base64.EncodeToString ct, None) /\
  (Write env_vault "hello" good_env_world).1 = Returns None /\
  files (Write env_vault "hello" good_env_world).2 !! filename env_vault
  = Some (RegularFile (base64.Encode ct)) /\
  length ct = String.length "hello" /\
  length (base64.Encode ct) = 4 * ((String.length "hello" + 2) / 3) /\
  Forall base64_char (base64.Encode ct) /\
  ("hello" = "" -> ct = [] /\ base64.Encode ct = []).
Proof.
  apply (Write_file_format env_vault "hello" key32 good_env_world).
  - vm_compute. reflexivity.
  - reflexivity.
  - split; [intros errno; vm_compute; discriminate | vm_compute; reflexivity].
Defined.

(** ** Errors of [Write] *)

(** C10 (as amended). When password resolution or encryption fails,
    [Write] returns that error without any file-system call and the files
    are as they were.  A file write is attempted only after both steps
    have succeeded, and then with the vault's file name and the encrypted
    text.  Every error [Write] returns is of one of these kinds or is the
    error of that file write; in the last case the files are as they were
    or the vault's file has been created or truncated and holds the first
    bytes of the encrypted text. *)
Theorem Write_error_atomic (v : Vault) (contents : string) (w : world) :
  let w' := (Write v contents w).2 in
  (forall e,
      (Write v contents w).1 = Returns (Some e) ->
      (files w' = files w /\
       Forall (fun ev => is_file_event ev = false) (emitted w w') /\
       ((exists p, (getPassword v w).1 = Returns (p, Some e)) \/
        (exists K s, (getPassword v w).1 = Returns (K, None) /\
                     encrypt contents K = Returns (s, Some e)))) \/
      (exists K s,
          (getPassword v w).1 = Returns (K, None) /\
          encrypt contents K = Returns (s, None) /\
          (ioutil.WriteFile (filename v) (list_ascii_of_string s) 384
                            (log (password_event v) w)).1 = Returns (Some e) /\
          emitted w w' = [password_event v;
                          EvWriteFile (filename v) (list_ascii_of_string s) 384] /\
          torn (filename v) (list_ascii_of_string s) (files w) (files w'))) /\
  (forall p e,
      (getPassword v w).1 = Returns (p, Some e) ->
      (Write v contents w).1 = Returns (Some e) /\
      files w' = files w /\
      Forall (fun ev => is_file_event ev = false) (emitted w w')) /\
  (forall K s e,
      (getPassword v w).1 = Returns (K, None) ->
      encrypt contents K = Returns (s, Some e) ->
      (Write v contents w).1 = Returns (Some e) /\
      files w' = files w /\
      Forall (fun ev => is_file_event ev = false) (emitted w w')) /\
  (forall f d p,
      In (EvWriteFile f d p) (emitted w w') ->
      exists K s,
        (getPassword v w).1 = Returns (K, None) /\
        encrypt contents K = Returns (s, None) /\
        f = filename v /\ d = list_ascii_of_string s).
Proof.
  intros w'. subst w'.
  assert (Hquiet : forall w0,
             w0 = log (password_event v) w ->
             files w0 = files w /\
             Forall (fun ev => is_file_event ev = false) (emitted w w0) /\
             forall f d p, ~ In (EvWriteFile f d p) (emitted w w0)).
  { intros w0 ->. rewrite emitted_log. split; [done|]. split.
    - apply Forall_cons_2; [apply is_file_password_event | apply Forall_nil_2].
    - intros f d p [Hin|[]]. unfold password_event in Hin.
      by destruct (keyring v). }
  destruct (getPassword_world v w) as [[K [e|]] Hg].
  - (* password resolution fails *)
    assert (Hp : (getPassword v w).1 = Returns (K, Some e)) by by rewrite Hg.
    rewrite (Write_password_error v contents w K e Hp). cbn [fst snd].
    destruct (Hquiet _ eq_refl) as (Hf & Hev & Hno).
    split; [|split; [|split]].
    + intros e' He'. left. split; [exact Hf|]. split; [exact Hev|].
      left. exists K. by inversion He'; subst e'.
    + intros p e' Hp'. rewrite Hp in Hp'. by inversion Hp'.
    + intros K' s e' Hp'. rewrite Hp in Hp'. by inversion Hp'.
    + intros f d p Hin. by destruct (Hno f d p).
  - assert (Hp : (getPassword v w).1 = Returns (K, None)) by by rewrite Hg.
    destruct (encrypt contents K) as [[s [e|]]|msg] eqn:He.
    + (* encryption fails *)
      rewrite (Write_encrypt_error v contents w K s e Hp He). cbn [fst snd].
      destruct (Hquiet _ eq_refl) as (Hf & Hev & Hno).
      split; [|split; [|split]].
      * intros e' He'. left. split; [exact Hf|]. split; [exact Hev|].
        right. exists K, s. by inversion He'; subst e'.
      * intros p e' Hp'. rewrite Hp in Hp'. by inversion Hp'.
      * intros K' s' e' Hp' He'. rewrite Hp in Hp'. inversion Hp'; subst K'.
        rewrite He in He'. by inversion He'.
      * intros f d p Hin. by destruct (Hno f d p).
    + (* both succeed: the file write is attempted *)
      rewrite (Write_encrypted v contents w K s Hp He).
      set (w1 := log (password_event v) w).
      set (d0 := list_ascii_of_string s).
      assert (Hem : emitted w (ioutil.WriteFile (filename v) d0 384 w1).2
                    = [password_event v; EvWriteFile (filename v) d0 384]).
      { destruct (WriteFile_cases (filename v) d0 384 w1)
          as [[e ->]|[[e [n ->]]|[_ ->]]]; apply emitted_log2. }
      assert (Htorn : forall e,
                 (ioutil.WriteFile (filename v) d0 384 w1).1 = Returns (Some e) ->
                 torn (filename v) d0 (files w)
                      (files (ioutil.WriteFile (filename v) d0 384 w1).2)).
      { intros e. destruct (WriteFile_cases (filename v) d0 384 w1)
          as [[e' ->]|[[e' [n ->]]|[_ ->]]]; intros Hr.
        - left. reflexivity.
        - right. exists n. reflexivity.
        - discriminate Hr. }
      split; [|split; [|split]].
      * intros e Hr. right. exists K, s.
        split; [exact Hp|]. split; [exact He|]. split; [exact Hr|].
        split; [exact Hem | exact (Htorn e Hr)].
      * intros p e' Hp'. rewrite Hp in Hp'. by inversion Hp'.
      * intros K' s' e' Hp' He'. rewrite Hp in Hp'. inversion Hp'; subst K'.
        rewrite He in He'. by inversion He'.
      * intros f d p Hin. exists K, s. split; [done|]. split; [done|].
        rewrite Hem in Hin. destruct Hin as [Hin|[Hin|[]]].
        -- unfold password_event in Hin. by destruct (keyring v).
        -- by inversion Hin.
    + (* encryption panics: nothing is written *)
      rewrite (Write_encrypt_panic v contents w K msg Hp He). cbn [fst snd].
      destruct (Hquiet _ eq_refl) as (Hf & Hev & Hno).
      split; [|split; [|split]].
      * intros e' He'. discriminate He'.
      * intros p e' Hp'. rewrite Hp in Hp'. by inversion Hp'.
      * intros K' s' e' Hp' He'. rewrite Hp in Hp'. inversion Hp'; subst K'.
        rewrite He in He'. by inversion He'.
      * intros f d p Hin. by destruct (Hno f d p).
Qed.

(** C10, the claim as stated fails: on a device without space left,
    password resolution and encryption succeed, [Write] returns the error
    of the file write, and the vault's file, which held a ciphertext, has
    been truncated. *)
Lemma Write_error_counterexample :
  (getPassword env_vault full_disk_world).1 = Returns (key32, None) /\
  encrypt "hello" key32 = Returns ("kSH6JnE=", None) /\
  (Write env_vault "hello" full_disk_world).1
  = Returns (Some (PathError "write" "cookies.txt" "no space left on device")) /\
  files full_disk_world !! "cookies.txt"
  = Some (RegularFile (list_ascii_of_string "lxVA5e4=")) /\
  files (Write env_vault "hello" full_disk_world).2 !! "cookies.txt"
  = Some (RegularFile []).
Proof. repeat split; vm_compute; reflexivity. Qed.

(** ** Determinism *)

Lemma cfb_spec_blocks_nil (E : list ascii -> list ascii) (n : nat) :
  forall prev, cfb_spec_blocks E n prev [] = [].
Proof. induction n as [|n IH]; intros prev; [reflexivity|]. simpl. apply IH. Qed.

(** The buffered loop of [XORKeyStream], started at a block boundary of
    an encrypting stream, computes cipher feedback mode. *)
Lemma xorLoop_cfb_spec (n : nat) :
  forall (fuel : nat) (x : cipher.cfb) (dst p : list ascii),
    cfb_ok x -> cipher.outUsed x = length (cipher.out x) ->
    cipher.decrypt x = false ->
    length dst = length p -> length p <= fuel -> length p <= 16 * n ->
    (cipher.xorLoop fuel x dst p).2
    = cfb_spec_blocks (aes.Encrypt (cipher.b x)) n (cipher.next x) p.
Proof.
  induction n as [|n IH]; intros fuel x dst p Hx Hused Hdec Hlen Hfuel Hn.
  { assert (p = []) as -> by (apply nil_length_inv; lia).
    rewrite xorLoop_nil. cbn [snd cfb_spec_blocks].
    apply nil_length_inv. exact Hlen. }
  destruct (decide (p = [])) as [->|Hp].
  { rewrite xorLoop_nil, cfb_spec_blocks_nil. cbn [snd].
    apply nil_length_inv. exact Hlen. }
  destruct fuel as [|fuel]; [destruct p; [done | simpl in Hfuel; lia]|].
  rewrite xorLoop_step by done. cbn zeta. cfb_simpl.
  cbn [cfb_spec_blocks].
  assert (Hks : keystream x = aes.Encrypt (cipher.b x) (cipher.next x)).
  { unfold keystream. by rewrite Hused, Nat.eqb_refl. }
  rewrite Hks. set (ks := aes.Encrypt (cipher.b x) (cipher.next x)).
  assert (Hlks : length ks = 16) by apply length_Encrypt.
  assert (Hd : XORBytes (take 16 p) ks = XORBytes p ks).
  { unfold XORBytes. rewrite <- Hlks. apply zip_with_take_l. }
  rewrite Hd. set (d := XORBytes p ks).
  assert (Hld : length d = Nat.min (length p) 16).
  { unfold d. by rewrite length_XORBytes, Hlks. }
  f_equal. rewrite drop_app_length.
  destruct (le_lt_dec (length p) 16) as [Hshort|Hlong].
  - (* the last block *)
    assert (Hrest : drop (length d) p = []).
    { apply nil_length_inv. rewrite length_drop. lia. }
    rewrite Hrest, xorLoop_nil. cbn [snd].
    replace (drop 16 p) with (@nil ascii)
      by (symmetry; apply nil_length_inv; rewrite length_drop; lia).
    rewrite cfb_spec_blocks_nil.
    apply nil_length_inv. rewrite length_drop. lia.
  - assert (Hl16 : length d = 16) by lia.
    rewrite Hl16.
    assert (Hrf : refreshed x
                  = cipher.mkCFB (cipher.b x) (cipher.next x) ks 0 (cipher.decrypt x)).
    { unfold refreshed. by rewrite Hused, Nat.eqb_refl. }
    assert (Hnext : cipher.next (advance x dst p) = d).
    { unfold advance. cfb_simpl. rewrite Hrf, Hdec, Hks. cfb_simpl.
      fold ks. fold d. unfold copy_at.
      destruct Hx as (_ & Hnx & _). unfold aes.BlockSize in Hnx.
      rewrite length_app, length_drop, Hlen, Hl16, Hnx.
      replace (Nat.min (16 - 0) (16 + (length p - 16))) with (length d) by lia.
      rewrite take_app_length, take_0.
      rewrite drop_ge by lia. by rewrite app_nil_r. }
    rewrite (IH fuel (advance x dst p)).
    + by rewrite Hnext.
    + by apply cfb_ok_advance.
    + unfold advance. cfb_simpl. rewrite Hrf, Hks. cfb_simpl.
      fold ks. fold d. lia.
    + unfold advance. cfb_simpl. exact Hdec.
    + by rewrite !length_drop, Hlen.
    + rewrite length_drop. simpl in Hfuel. lia.
    + rewrite length_drop. lia.
Qed.

Lemma ciphertext_cfb_spec (block : aes.Block) (p : list ascii) :
  ciphertext block p = cfb_spec (aes.Encrypt block) bytes p.
Proof.
  unfold ciphertext, cfb_spec.
  apply (xorLoop_cfb_spec _ _ (cipher.mkCFB block bytes (replicate 16 zero) 16 false)).
  - apply cfb_ok_fresh.
  - reflexivity.
  - reflexivity.
  - apply length_replicate.
  - done.
  - pose proof (Nat.div_mod_eq (length p + 15) 16) as Hdm.
    pose proof (Nat.mod_upper_bound (length p + 15) 16). lia.
Qed.

(** C4. What [encrypt] returns is a function of the plaintext, the key
    and the 16 constant bytes [bytes] alone, with no random or other
    input: for a key the cipher accepts it is the base64 text of the
    cipher feedback encryption of the plaintext under AES with that key,
    started from [bytes]; for any other key it is the key-size error.
    Hence a call with the same plaintext and key returns the same text
    whenever it is made, and two successful writes of the same contents
    under the same key, by any vaults and in any states of clock, random
    generator, keyring, environment and files, store that same text. *)
Theorem encrypt_deterministic (P K : string) :
  let E := aes.Encrypt (aes.expandKey (map N_of_ascii (list_ascii_of_string K))) in
  let C := encode (cfb_spec E bytes (list_ascii_of_string P)) in
  (valid_key_size (String.length K) -> encrypt P K = Returns (C, None)) /\
  (~ valid_key_size (String.length K) ->
   encrypt P K = Returns ("", Some (KeySizeError (String.length K)))) /\
  (forall (v1 v2 : Vault) (w1 w2 : world),
      (getPassword v1 w1).1 = Returns (K, None) ->
      (getPassword v2 w2).1 = Returns (K, None) ->
      (Write v1 P w1).1 = Returns None ->
      (Write v2 P w2).1 = Returns None ->
      files (Write v1 P w1).2 !! filename v1
      = Some (RegularFile (list_ascii_of_string C)) /\
      files (Write v2 P w2).2 !! filename v2
      = Some (RegularFile (list_ascii_of_string C))).
Proof.
  intros E C.
  assert (Hvalid : valid_key_size (String.length K) ->
                   encrypt P K = Returns (C, None)).
  { intros HK. unfold C, E. rewrite <- ciphertext_cfb_spec.
    apply encrypt_valid. by rewrite length_list_ascii_of_string. }
  assert (Hinvalid : ~ valid_key_size (String.length K) ->
                     encrypt P K = Returns ("", Some (KeySizeError (String.length K)))).
  { intros HK. apply encrypt_invalid; intros Hn; apply HK; unfold valid_key_size; auto. }
  split; [exact Hvalid|]. split; [exact Hinvalid|].
  assert (Hstore : forall v w,
             (getPassword v w).1 = Returns (K, None) ->
             (Write v P w).1 = Returns None ->
             files (Write v P w).2 !! filename v
             = Some (RegularFile (list_ascii_of_string C))).
  { intros v w Hp.
    destruct (decide (String.length K = 16 \/ String.length K = 24
                      \/ String.length K = 32)) as [HK|HK].
    - rewrite (Write_encrypted v P w K C Hp (Hvalid HK)).
      destruct (WriteFile_cases (filename v) (list_ascii_of_string C) 384
                                (log (password_event v) w))
        as [[e ->]|[[e [n ->]]|[_ ->]]]; cbn [fst snd]; intros Hr;
        try discriminate Hr.
      unfold set_files. cbn [files]. apply lookup_insert_eq.
    - rewrite (Write_encrypt_error v P w K "" _ Hp (Hinvalid HK)).
      intros Hr. discriminate Hr. }
  intros v1 v2 w1 w2 Hp1 Hp2 H1 H2. split; by apply Hstore.
Qed.

(** ** Searching error texts *)

Lemma Contains_cons (c : ascii) (s pat : string) :
  strings.Contains (String c s) pat =
  String.prefix pat (String c s) || strings.Contains s pat.
Proof. reflexivity. Qed.

Lemma prefix_head_ne (h c : ascii) (p s : string) :
  h <> c -> String.prefix (String h p) (String c s) = false.
Proof. intros H. simpl. by destruct (ascii_dec h c). Qed.

Lemma prefix_head_eq (h : ascii) (p s : string) :
  String.prefix (String h p) (String h s) = String.prefix p s.
Proof. simpl. by destruct (ascii_dec h h). Qed.

Lemma Contains_lacks (h : ascii) (p s : string) :
  lacks h s = true -> strings.Contains s (String h p) = false.
Proof.
  induction s as [|c s IH]; simpl; [done|].
  intros [Hc Hs]%andb_prop. rewrite IH by done.
  destruct (ascii_dec h c) as [->|]; [|done].
  by rewrite Ascii.eqb_refl in Hc.
Qed.

Lemma lacks_pretty_N_char (x : N) : Ascii.eqb "s" (pretty_N_char x) = false.
Proof.
  destruct x as [|p]; [done|].
  do 4 (destruct p as [p|p|]; try done).
Qed.

Lemma lacks_pretty_N_go (x : N) :
  forall s, lacks "s" s = true -> lacks "s" (pretty_N_go x s) = true.
Proof.
  induction (N.lt_wf_0 x) as [x _ IH]. intros s Hs.
  destruct (decide (0 < x)%N) as [Hx|Hx].
  - rewrite pretty_N_go_step by done. apply IH.
    + by apply N.div_lt.
    + cbn [lacks]. by rewrite lacks_pretty_N_char.
  - assert (x = 0%N) as -> by lia. by rewrite pretty_N_go_0.
Qed.

Lemma lacks_pretty_nat (k : nat) : lacks "s" (pretty k) = true.
Proof.
  unfold pretty, pretty_nat, pretty, pretty_N.
  destruct (decide (N.of_nat k = 0%N)); [done|].
  by apply lacks_pretty_N_go.
Qed.

Lemma append_cons (c : ascii) (s t : string) :
  String c s +:+ t = String c (s +:+ t).
Proof. reflexivity. Qed.

Lemma append_nil (t : string) : "" +:+ t = t.
Proof. reflexivity. Qed.

Ltac skip_char :=
  rewrite Contains_cons;
  rewrite ?prefix_head_eq;
  rewrite prefix_head_ne by (intros ?; discriminate);
  cbn [orb].

(** A key-size error never looks like a missing file. *)
Lemma Contains_KeySizeError (k : nat) :
  strings.Contains (Error (KeySizeError k))
                   "system cannot find the file specified" = false.
Proof.
  cbn [Error]. rewrite !append_cons, append_nil. do 29 skip_char.
  apply Contains_lacks, lacks_pretty_nat.
Qed.

Lemma decrypt_error_kind (c K s : string) (e : error) :
  decrypt c K = Returns (s, Some e) -> exists k, e = KeySizeError k.
Proof.
  unfold decrypt, aes.NewCipher.
  destruct (_ || _).
  - destruct (decode c) as [ct|msg]; cbn [obind]; [|done].
    unfold cipher.NewCFBDecrypter. rewrite newCFB_bytes. cbn [obind].
    rewrite XORKeyStream_fresh. cbn [obind].
    by destruct (cipher.xorLoop _ _ _ _).
  - intros H. inversion H. eauto.
Qed.

(** ** Initialisation *)

Lemma keyring_Get_eq (s u : string) (w : world) (r : string * option error) :
  (keyring.Get s u w).1 = Returns r ->
  keyring.Get s u w = (Returns r, log (EvKeyringGet s u) w).
Proof.
  unfold keyring.Get. destruct (keyring_get_failure w).
  - simpl. by intros [= <-].
  - destruct (secrets w !! (s, u)); simpl; by intros [= <-].
Qed.

(** C5. In every state where the keyring returns a secret for (service,
    user) and the configured file exists with non-empty content,
    [InitKeyring] calls [keyring.Get], reads the file and calls
    [keyring.Get] again, and nothing else: [keyring.Set] is not called, no
    file is written, and the keyring's items and all files are as they
    were, whether the call returns or panics. *)
Theorem InitKeyring_idempotent (i : VaultInput) (w : world)
        (secret : string) (data : list ascii) :
  (keyring.Get (Service i) (User i) w).1 = Returns (secret, None) ->
  files w !! Filename i = Some (RegularFile data) ->
  data <> [] ->
  let w' := (InitKeyring i w).2 in
  secrets w' = secrets w /\
  files w' = files w /\
  emitted w w' = [EvKeyringGet (Service i) (User i);
                  EvReadFile (Filename i);
                  EvKeyringGet (Service i) (User i)].
Proof.
  intros Hget Hfile _ w'. subst w'.
  set (v := mkVault (Service i) (User i) (Filename i) "" true).
  set (w1 := log (EvKeyringGet (Service i) (User i)) w).
  assert (Hp : (getPassword v w1).1 = Returns (secret, None)).
  { unfold w1. by rewrite getPassword_log. }
  assert (Hr : Read v w1 =
               (decrypt (string_of_list_ascii data) secret,
                log (EvKeyringGet (Service i) (User i))
                    (log (EvReadFile (Filename i)) w1)))
    by by apply Read_file.
  set (w2 := log (EvKeyringGet (Service i) (User i))
                 (log (EvReadFile (Filename i)) w1)) in *.
  assert (Hfin : secrets w2 = secrets w /\ files w2 = files w /\
                 emitted w w2 = [EvKeyringGet (Service i) (User i);
                                 EvReadFile (Filename i);
                                 EvKeyringGet (Service i) (User i)]).
  { split; [done|]. split; [done|].
    unfold emitted, w2, w1, log; simpl.
    by rewrite <- !app_assoc, drop_app_length. }
  enough (Hinit : (InitKeyring i w).2 = w2) by (rewrite Hinit; exact Hfin).
  clear Hfin.
  unfold InitKeyring, with_keyring. cbv zeta.
  cbn [service user filename passwordEnvVar keyring].
  unfold bind at 1. rewrite (keyring_Get_eq _ _ _ _ Hget).
  fold v. fold w1. unfold bind at 1.
  change (loadFromDisk v w1) with (Read v w1). rewrite Hr. fold w2.
  destruct (decrypt (string_of_list_ascii data) secret)
    as [[s [e|]]|msg] eqn:Hd.
  - destruct (decrypt_error_kind _ _ _ _ Hd) as [k ->].
    by rewrite Contains_KeySizeError.
  - done.
  - done.
Qed.

Lemma InitKeyring_idempotent_witness :
  let w' := (InitKeyring sample_input initialised_world).2 in
  secrets w' = secrets initialised_world /\
  files w' = files initialised_world /\
  emitted initialised_world w'
  = [EvKeyringGet "ugglyc" "browser"; EvReadFile "cookies.txt";
     EvKeyringGet "ugglyc" "browser"].
Proof.
  apply (InitKeyring_idempotent sample_input initialised_world key32
           (list_ascii_of_string "lxVA5e4=")).
  - vm_compute. reflexivity.
  - vm_compute. reflexivity.
  - discriminate.
Defined.

(** C6, the code at the failing input: on a system whose text for a
    missing file is "no such file or directory", with a usable keyring
    that holds a secret and no vault file, [InitKeyring] returns the
    file-not-found error and does not create the file. *)
Theorem InitKeyring_missing_file_unix :
  (InitKeyring sample_input unix_fresh_world).1
  = Returns (keyring_vault,
             Some (PathError "open" "cookies.txt" "no such file or directory")) /\
  files (InitKeyring sample_input unix_fresh_world).2 !! "cookies.txt" = None /\
  emitted unix_fresh_world (InitKeyring sample_input unix_fresh_world).2
  = [EvKeyringGet "ugglyc" "browser"; EvReadFile "cookies.txt"].
Proof. repeat split; vm_compute; reflexivity. Qed.

(** ** The trace only grows *)

Lemma grows_ret {A} (a : A) : grows (ret a).
Proof. intros w. done. Qed.

Lemma grows_lift {A} (o : outcome A) : grows (lift o).
Proof. intros w. done. Qed.

Lemma grows_bind {A B} (m : M A) (k : A -> M B) :
  grows m -> (forall a, grows (k a)) -> grows (bind m k).
Proof.
  intros Hm Hk w. unfold bind. specialize (Hm w).
  destruct (m w) as [[a|e] w1]; [|done].
  etrans; [exact Hm|]. apply Hk.
Qed.

Lemma prefix_log (ev : event) (w : world) : trace w `prefix_of` trace (log ev w).
Proof. by exists [ev]. Qed.

Lemma grows_Get (s u : string) : grows (keyring.Get s u).
Proof.
  intros w. unfold keyring.Get.
  destruct (keyring_get_failure w); [apply prefix_log|].
  destruct (secrets w !! _); apply prefix_log.
Qed.

Lemma grows_Set (s u p : string) : grows (keyring.Set_ s u p).
Proof.
  intros w. unfold keyring.Set_.
  destruct (keyring_set_failure w); apply prefix_log.
Qed.

Lemma grows_Getenv (k : string) : grows (os.Getenv k).
Proof. intros w. apply prefix_log. Qed.

Lemma grows_ReadFile (f : string) : grows (ioutil.ReadFile f).
Proof.
  intros w. unfold ioutil.ReadFile.
  destruct (files w !! f) as [[?|?]|]; apply prefix_log.
Qed.

Lemma grows_WriteFile (f : string) (d : list ascii) (p : N) :
  grows (ioutil.WriteFile f d p).
Proof.
  intros w.
  destruct (WriteFile_cases f d p w) as [[e ->]|[[e [n ->]]|[_ ->]]];
    apply prefix_log.
Qed.

Lemma grows_Now : grows time.Now_UnixNano.
Proof. intros w. done. Qed.

Lemma grows_Seed (n : nat) : grows (rand.Seed n).
Proof. intros w. done. Qed.

Lemma grows_Intn (n : nat) : grows (rand.Intn n).
Proof. intros w. by destruct n. Qed.

Lemma grows_randRunes (n : nat) : grows (randRunes n).
Proof.
  induction n as [|n IH]; cbn [randRunes]; [apply grows_ret|].
  apply grows_bind; [apply grows_Intn|]. intros k.
  apply grows_bind; [apply IH|]. intros r. apply grows_ret.
Qed.

Lemma grows_NewVaultPassword : grows NewVaultPassword.
Proof.
  unfold NewVaultPassword, randStringRunes.
  apply grows_bind; [apply grows_Now|]. intros t.
  apply grows_bind; [apply grows_Seed|]. intros _.
  apply grows_bind; [apply grows_randRunes|]. intros b. apply grows_ret.
Qed.

Lemma grows_initKeyring (s u : string) : grows (initKeyring s u).
Proof.
  unfold initKeyring.
  apply grows_bind; [apply grows_NewVaultPassword|]. intros p. apply grows_Set.
Qed.

Lemma grows_getPassword (v : Vault) : grows (getPassword v).
Proof.
  unfold getPassword, getPasswordKeyring, getPasswordEnv.
  destruct (keyring v); [apply grows_Get|].
  apply grows_bind; [apply grows_Getenv|]. intros p.
  destruct (String.eqb p ""); apply grows_ret.
Qed.

Lemma grows_loadFromDisk (v : Vault) : grows (loadFromDisk v).
Proof.
  unfold loadFromDisk.
  apply grows_bind; [apply grows_ReadFile|]. intros [data [e|]]; [apply grows_ret|].
  apply grows_bind; [apply grows_getPassword|]. intros [p [e|]]; [apply grows_ret|].
  apply grows_lift.
Qed.

Lemma grows_Write (v : Vault) (contents : string) : grows (Write v contents).
Proof.
  unfold Write.
  apply grows_bind; [apply grows_getPassword|]. intros [p [e|]]; [apply grows_ret|].
  apply grows_bind; [apply grows_lift|]. intros [s [e|]]; [apply grows_ret|].
  apply grows_WriteFile.
Qed.

Lemma grows_load_or_create (v : Vault) :
  grows (bind (loadFromDisk v)
              (fun '(_, err) =>
                 match err with
                 | Some e =>
                     if strings.Contains (Error e) "system cannot find the file specified"
                     then bind (Write v "") (fun err => ret (v, err))
                     else ret (v, Some e)
                 | None => ret (v, None)
                 end)).
Proof.
  apply grows_bind; [apply grows_loadFromDisk|]. intros [s [e|]]; [|apply grows_ret].
  destruct (strings.Contains _ _); [|apply grows_ret].
  apply grows_bind; [apply grows_Write|]. intros err. apply grows_ret.
Qed.

Lemma keyring_Get_world (s u : string) (w : world) :
  exists r, keyring.Get s u w = (Returns r, log (EvKeyringGet s u) w).
Proof.
  unfold keyring.Get. destruct (keyring_get_failure w); [eauto|].
  destruct (secrets w !! _); eauto.
Qed.

(** [InitKeyring] begins by asking the keyring. *)
Lemma InitKeyring_first_event (i : VaultInput) (w : world) :
  exists rest,
    trace (InitKeyring i w).2
    = trace w ++ EvKeyringGet (Service i) (User i) :: rest.
Proof.
  unfold InitKeyring, with_keyring. cbv zeta.
  cbn [service user filename passwordEnvVar keyring].
  unfold bind at 1.
  destruct (keyring_Get_world (Service i) (User i) w) as [[s err] ->].
  set (w1 := log (EvKeyringGet (Service i) (User i)) w).
  enough (H : trace w1 `prefix_of`
              trace (match err with
                     | Some e =>
                         if strings.Contains (Error e) "secret not found in keyring"
                         then
                           bind (initKeyring (Service i) (User i))
                             (fun err0 =>
                                match err0 with
                                | Some e' =>
                                    ret (mkVault (Service i) (User i) (Filename i) "" false,
                                         Some e')
                                | None =>
                                    bind (loadFromDisk
                                            (mkVault (Service i) (User i) (Filename i) "" true))
                                      (fun '(_, err) =>
                                         match err with
                                         | Some e =>
                                             if strings.Contains (Error e)
                                                  "system cannot find the file specified"
                                             then bind (Write (mkVault (Service i) (User i)
                                                                  (Filename i) "" true) "")
                                                    (fun err =>
                                                       ret (mkVault (Service i) (User i)
                                                              (Filename i) "" true, err))
                                             else ret (mkVault (Service i) (User i)
                                                         (Filename i) "" true, Some e)
                                         | None => ret (mkVault (Service i) (User i)
                                                          (Filename i) "" true, None)
                                         end)
                                end)
                         else ret (mkVault (Service i) (User i) (Filename i) "" false,
                                   Some e)
                     | None =>
                         bind (loadFromDisk
                                 (mkVault (Service i) (User i) (Filename i) "" true))
                           (fun '(_, err) =>
                              match err with
                              | Some e =>
                                  if strings.Contains (Error e)
                                       "system cannot find the file specified"
                                  then bind (Write (mkVault (Service i) (User i)
                                                       (Filename i) "" true) "")
                                         (fun err =>
                                            ret (mkVault (Service i) (User i)
                                                   (Filename i) "" true, err))
                                  else ret (mkVault (Service i) (User i)
                                              (Filename i) "" true, Some e)
                              | None => ret (mkVault (Service i) (User i)
                                               (Filename i) "" true, None)
                              end)
                     end w1).2).
  { destruct H as [k Hk]. exists k. rewrite Hk. unfold w1, log; simpl.
    by rewrite <- app_assoc. }
  destruct err as [e|].
  - destruct (strings.Contains _ _); [|apply grows_ret].
    apply grows_bind; [apply grows_initKeyring|]. intros [e'|]; [apply grows_ret|].
    apply grows_load_or_create.
  - apply grows_load_or_create.
Qed.

Lemma InitEnvVar_world (i : VaultInput) (w : world) :
  (InitEnvVar i w).2 = log (EvGetenv (PasswordEnvVar i)) w.
Proof.
  unfold InitEnvVar, bind.
  destruct (getPassword_world (mkVault "" "" (Filename i) (PasswordEnvVar i) false) w)
    as [[p e] ->].
  reflexivity.
Qed.

Lemma InitEnvVar_ne_InitKeyring (i : VaultInput) (w : world) :
  InitEnvVar i w <> InitKeyring i w.
Proof.
  intros H. apply (f_equal (fun r => trace r.2)) in H.
  rewrite InitEnvVar_world in H.
  destruct (InitKeyring_first_event i w) as [rest Hr].
  rewrite Hr in H. unfold log in H; simpl in H.
  apply app_inv_head in H. discriminate.
Qed.

(** ** Backend selection *)

(** C7. For every configuration and in every world, [InitSmart] runs the
    env-var initializer exactly when [PasswordEnvVar] is not empty,
    whatever [Service] and [User] are, and the keyring initializer exactly
    when it is empty. *)
Theorem InitSmart_backend_selection (i : VaultInput) (w : world) :
  (PasswordEnvVar i <> "" <-> InitSmart i w = InitEnvVar i w) /\
  (PasswordEnvVar i = "" <-> InitSmart i w = InitKeyring i w).
Proof.
  unfold InitSmart.
  destruct (String.eqb_spec (PasswordEnvVar i) "") as [E|E]; cbn [negb].
  - split; split; try done.
    intros H. symmetry in H. by apply InitEnvVar_ne_InitKeyring in H.
  - split; split; try done.
    intros H. by apply InitEnvVar_ne_InitKeyring in H.
Qed.

(** ** Generated passwords *)

Lemma length_letterRunes : length letterRunes = 61.
Proof. reflexivity. Qed.

Lemma randRunes_spec (n : nat) :
  forall w, exists l,
    randRunes n w = (Returns l, set_rng (rng_seed w) (rng_pos w + n) w) /\
    length l = n /\
    Forall (fun c => In c letterRunes) l.
Proof.
  induction n as [|n IH]; intros w.
  - exists []. cbn [randRunes]. unfold ret, set_rng. rewrite Nat.add_0_r.
    destruct w; simpl. repeat split. constructor.
  - cbn [randRunes]. unfold bind at 1. rewrite length_letterRunes.
    cbn [rand.Intn].
    set (k := prng w (rng_seed w) (rng_pos w) mod 61).
    set (w1 := set_rng (rng_seed w) (S (rng_pos w)) w).
    destruct (IH w1) as (l & Hl & Hlen & Hall).
    unfold bind at 1. rewrite Hl. unfold ret.
    exists (nth k letterRunes zero :: l). split; [|split].
    + f_equal. unfold w1, set_rng; simpl. f_equal. lia.
    + simpl. by rewrite Hlen.
    + constructor; [|done]. apply nth_In. rewrite length_letterRunes.
      unfold k. apply Nat.mod_upper_bound. done.
Qed.

Lemma NewVaultPassword_spec (w : world) :
  exists l,
    (NewVaultPassword w).1 = Returns (string_of_list_ascii l) /\
    length l = keySize /\
    Forall (fun c => In c letterRunes) l.
Proof.
  unfold NewVaultPassword, randStringRunes, time.Now_UnixNano, rand.Seed.
  unfold bind at 1. unfold bind at 1. unfold bind at 1.
  destruct (randRunes_spec keySize (set_rng (now w) 0 w)) as (l & -> & Hlen & Hall).
  exists l. done.
Qed.

Lemma randRunes_constant (k n : nat) :
  forall w,
    (forall s i, prng w s i = k) -> k < 61 ->
    (randRunes n w).1 = Returns (replicate n (nth k letterRunes zero)).
Proof.
  induction n as [|n IH]; intros w Hw Hk; [done|].
  cbn [randRunes]. unfold bind at 1. rewrite length_letterRunes.
  cbn [rand.Intn]. rewrite Hw, Nat.mod_small by done.
  unfold bind at 1.
  specialize (IH (set_rng (rng_seed w) (S (rng_pos w)) w) Hw Hk).
  destruct (randRunes n _) as [[l|e] w']; simpl in IH; [|done].
  inversion IH; subst. done.
Qed.

Lemma mem_In (c : ascii) (l : list ascii) : mem c l = true <-> In c l.
Proof.
  unfold mem. rewrite existsb_exists. split.
  - intros (x & Hx & E). apply Ascii.eqb_eq in E. by subst.
  - intros H. exists c. split; [done|apply Ascii.eqb_refl].
Qed.

Lemma letterRunes_alnum (c : ascii) :
  mem c letterRunes = is_alnum c && negb (Ascii.eqb c "0").
Proof.
  destruct c as [[] [] [] [] [] [] [] []]; vm_compute; reflexivity.
Qed.

Lemma In_letterRunes (c : ascii) :
  In c letterRunes <-> is_alnum c = true /\ c <> "0"%char.
Proof.
  rewrite <- mem_In, letterRunes_alnum, andb_true_iff, negb_true_iff.
  by rewrite Ascii.eqb_neq.
Qed.

Lemma NoDup_letterRunes : NoDup letterRunes.
Proof. apply (bool_decide_unpack _). vm_compute. exact I. Qed.

(** C8 (as amended). Every string the password generator returns has
    exactly 32 characters, each drawn from [letterRunes]; [letterRunes]
    consists of the 61 distinct symbols [a-zA-Z1-9], the digit 0 is not
    among them; and every symbol of [letterRunes] is a possible output
    character. *)
Theorem NewVaultPassword_alphabet :
  (forall w, exists s,
      (NewVaultPassword w).1 = Returns s /\
      String.length s = 32 /\
      Forall (fun c => In c letterRunes) (list_ascii_of_string s)) /\
  length letterRunes = 61 /\
  NoDup letterRunes /\
  (forall c, In c letterRunes <-> is_alnum c = true /\ c <> "0"%char) /\
  (forall c, In c letterRunes ->
             exists w s, (NewVaultPassword w).1 = Returns s /\
                         In c (list_ascii_of_string s)).
Proof.
  split; [|split; [|split; [|split]]].
  - intros w. destruct (NewVaultPassword_spec w) as (l & Hr & Hlen & Hall).
    exists (string_of_list_ascii l). split; [exact Hr|].
    rewrite <- length_list_ascii_of_string, list_ascii_of_string_of_list_ascii.
    split; [exact Hlen | exact Hall].
  - reflexivity.
  - apply NoDup_letterRunes.
  - apply In_letterRunes.
  - intros c Hc. destruct (In_nth _ _ zero Hc) as (k & Hk & Hnth).
    rewrite length_letterRunes in Hk.
    exists (constant_rng_world k), (string_of_list_ascii (replicate 32 c)).
    split.
    + unfold NewVaultPassword, randStringRunes, time.Now_UnixNano, rand.Seed.
      unfold bind at 1. unfold bind at 1. unfold bind at 1.
      pose proof (randRunes_constant k keySize
                    (set_rng (now (constant_rng_world k)) 0 (constant_rng_world k))
                    (fun _ _ => eq_refl) Hk) as Hc'.
      destruct (randRunes keySize _) as [[l|e] w']; simpl in Hc'; [|done].
      inversion Hc'; subst. done.
    + rewrite list_ascii_of_string_of_list_ascii. by left.
Qed.

(** C8, the claim as stated fails: the digit 0 is one of the 62 symbols
    [a-zA-Z0-9], and no password the generator returns contains it. *)
Lemma password_alphabet_counterexample :
  is_alnum "0" = true /\
  forall w s, (NewVaultPassword w).1 = Returns s ->
              ~ In "0"%char (list_ascii_of_string s).
Proof.
  split; [reflexivity|]. intros w s Hs Hin.
  destruct (NewVaultPassword_spec w) as (l & Hr & _ & Hall).
  rewrite Hr in Hs. inversion Hs; subst s.
  rewrite list_ascii_of_string_of_list_ascii in Hin.
  rewrite Forall_forall in Hall. apply list_elem_of_In, Hall in Hin.
  apply In_letterRunes in Hin as [_ Hne]. by apply Hne.
Qed.

(** ** Frame properties *)

Lemma only_logged_log1 (w : world) (ev : event) : only_logged w (log ev w) [ev].
Proof. reflexivity. Qed.

Lemma only_logged_log2 (w : world) (ev1 ev2 : event) :
  only_logged w (log ev2 (log ev1 w)) [ev1; ev2].
Proof. unfold only_logged, log; simpl. by rewrite <- app_assoc. Qed.

Lemma emitted_set_files (m : gmap string node) (w w0 : world) :
  emitted w (set_files m w0) = emitted w w0.
Proof. reflexivity. Qed.

Lemma getPassword_frame (v : Vault) (w w' : world) :
  secrets w' = secrets w -> environ w' = environ w ->
  keyring_get_failure w' = keyring_get_failure w ->
  (getPassword v w').1 = (getPassword v w).1.
Proof.
  intros Hs He Hf.
  unfold getPassword, getPasswordKeyring, getPasswordEnv,
    keyring.Get, os.Getenv, bind, ret.
  destruct (keyring v); simpl.
  - rewrite Hs, Hf. destruct (keyring_get_failure w); [done|].
    by destruct (secrets w !! _).
  - rewrite He. by destruct (String.eqb _ _).
Qed.

Lemma Read_password_error (v : Vault) (w : world) (data : list ascii)
      (p : string) (e : error) :
  files w !! filename v = Some (RegularFile data) ->
  (getPassword v w).1 = Returns (p, Some e) ->
  Read v w = (Returns ("", Some e),
              log (password_event v) (log (EvReadFile (filename v)) w)).
Proof.
  intros Hf Hp. unfold Read, loadFromDisk, bind, ioutil.ReadFile, ret.
  rewrite Hf.
  rewrite <- (getPassword_log v (EvReadFile (filename v)) w) in Hp.
  by rewrite (getPassword_eq _ _ _ Hp).
Qed.

Lemma Read_missing_file (v : Vault) (w : world) :
  files w !! filename v = None ->
  Read v w = (Returns ("", Some (PathError "open" (filename v) (enoent w))),
              log (EvReadFile (filename v)) w).
Proof.
  intros Hf. unfold Read, loadFromDisk, bind, ioutil.ReadFile, ret.
  by rewrite Hf.
Qed.

Lemma getPassword_cases (v : Vault) (w : world) :
  exists p oe, (getPassword v w).1 = Returns (p, oe).
Proof.
  destruct (getPassword_world v w) as [[p oe] H]. exists p, oe. by rewrite H.
Qed.

Lemma Read_logs (v : Vault) (w : world) :
  exists evs, only_logged w (Read v w).2 evs.
Proof.
  destruct (files w !! filename v) as [[data|errno]|] eqn:Hf.
  - destruct (getPassword_cases v w) as (p & [e|] & Hp).
    + rewrite (Read_password_error v w data p e Hf Hp). eexists. apply only_logged_log2.
    + rewrite (Read_file v w data p Hf Hp). eexists. apply only_logged_log2.
  - destruct (Read_file_error v w) as [e ->]; [by rewrite Hf|].
    eexists. apply only_logged_log1.
  - rewrite (Read_missing_file v w Hf). eexists. apply only_logged_log1.
Qed.

(** X2. [Read] only reads: whatever it returns, and also when it panics,
    it leaves keyring, environment, files and random generator as they
    were.  It calls [ReadFile] first; when the file could be read it then
    resolves the password, by one call, and makes no other call; when the
    file could not be read it makes no call but that [ReadFile]. *)
Theorem Read_only_reads (v : Vault) (w : world) :
  match files w !! filename v with
  | Some (RegularFile _) =>
      only_logged w (Read v w).2 [EvReadFile (filename v); password_event v]
  | _ => only_logged w (Read v w).2 [EvReadFile (filename v)]
  end.
Proof.
  destruct (files w !! filename v) as [[data|errno]|] eqn:Hf.
  - destruct (getPassword_cases v w) as (p & [e|] & Hp).
    + rewrite (Read_password_error v w data p e Hf Hp). apply only_logged_log2.
    + rewrite (Read_file v w data p Hf Hp). apply only_logged_log2.
  - rewrite (Read_unreadable v w _ (or_intror (ex_intro _ errno (conj Hf eq_refl)))).
    apply only_logged_log1.
  - rewrite (Read_missing_file v w Hf). apply only_logged_log1.
Qed.

(** X3. When the file is missing, [Read] returns the file system's error
    for the vault's file name and does not consult the password backend:
    a missing file is reported even when the password is missing too. *)
Theorem Read_missing_file_first (v : Vault) (w : world) :
  files w !! filename v = None ->
  (Read v w).1 = Returns ("", Some (PathError "open" (filename v) (enoent w))) /\
  emitted w (Read v w).2 = [EvReadFile (filename v)].
Proof.
  intros Hf. rewrite (Read_missing_file v w Hf). split; [done|].
  apply emitted_log.
Qed.

Lemma Read_missing_file_first_witness :
  (Read env_vault good_env_world).1
  = Returns ("", Some (PathError "open" "cookies.txt" (enoent good_env_world))) /\
  emitted good_env_world (Read env_vault good_env_world).2
  = [EvReadFile "cookies.txt"].
Proof. apply (Read_missing_file_first env_vault good_env_world). reflexivity. Defined.

(** ** Writing, then reading *)

Lemma Write_success (v : Vault) (contents K : string) (w : world) :
  (getPassword v w).1 = Returns (K, None) ->
  valid_key_size (String.length K) ->
  writable w (filename v) ->
  let ct := ciphertext (aes.expandKey (map N_of_ascii (list_ascii_of_string K)))
                       (list_ascii_of_string contents) in
  Write v contents w =
  (Returns None,
   set_files (<[filename v := RegularFile (base64.Encode ct)]> (files w))
     (log (EvWriteFile (filename v) (base64.Encode ct) 384)
          (log (password_event v) w))).
Proof.
  intros Hp HK Hf ct.
  assert (He : encrypt contents K = Returns (encode ct, None)).
  { apply encrypt_valid. by rewrite length_list_ascii_of_string. }
  rewrite (Write_encrypted v contents w K _ Hp He).
  rewrite WriteFile_ok by by apply writable_log.
  unfold encode, base64.EncodeToString.
  by rewrite list_ascii_of_string_of_list_ascii.
Qed.

(** X1. Round trip through the file: when the vault's password resolves
    to a key of an accepted size and the path can be written, [Write]
    returns no error and a [Read] that follows returns the contents
    written, without error, for every contents string. *)
Theorem Read_after_Write (v : Vault) (contents K : string) (w : world) :
  (getPassword v w).1 = Returns (K, None) ->
  valid_key_size (String.length K) ->
  writable w (filename v) ->
  (Write v contents w).1 = Returns None /\
  (Read v (Write v contents w).2).1 = Returns (contents, None).
Proof.
  intros Hp HK Hf. rewrite (Write_success v contents K w Hp HK Hf).
  cbn [fst snd]. split; [done|].
  set (ct := ciphertext _ _).
  set (w' := set_files _ _).
  assert (Hf' : files w' !! filename v = Some (RegularFile (base64.Encode ct))).
  { unfold w', set_files. cbn [files]. apply lookup_insert_eq. }
  assert (Hp' : (getPassword v w').1 = Returns (K, None)).
  { rewrite <- Hp. by apply getPassword_frame. }
  rewrite (Read_file v w' _ K Hf' Hp'). cbn [fst].
  change (string_of_list_ascii (base64.Encode ct)) with (encode ct).
  unfold ct. rewrite decrypt_ciphertext.
  - by rewrite string_of_list_ascii_of_string.
  - apply NewCipher_valid. by rewrite length_list_ascii_of_string.
Qed.

Lemma Read_after_Write_witness :
  (Write env_vault "hello" good_env_world).1 = Returns None /\
  (Read env_vault (Write env_vault "hello" good_env_world).2).1
  = Returns ("hello", None).
Proof.
  apply (Read_after_Write env_vault "hello" key32 good_env_world).
  - vm_compute. reflexivity.
  - right; right. reflexivity.
  - split; [intros errno; vm_compute; discriminate | vm_compute; reflexivity].
Defined.

Lemma Write_keeps (v : Vault) (contents : string) (w : world) :
  secrets (Write v contents w).2 = secrets w /\
  keyring_get_failure (Write v contents w).2 = keyring_get_failure w /\
  environ (Write v contents w).2 = environ w.
Proof.
  destruct (getPassword_cases v w) as (K & [e|] & Hp).
  - by rewrite (Write_password_error v contents w K e Hp).
  - destruct (encrypt contents K) as [[s [e|]]|msg] eqn:He.
    + by rewrite (Write_encrypt_error v contents w K s e Hp He).
    + rewrite (Write_encrypted v contents w K s Hp He).
      by destruct (WriteFile_cases (filename v) (list_ascii_of_string s) 384
                                   (log (password_event v) w))
        as [[e ->]|[[e [n ->]]|[_ ->]]].
    + by rewrite (Write_encrypt_panic v contents w K msg Hp He).
Qed.

(** X4. [Write] changes nothing but the vault's own file: keyring,
    environment and random generator are as they were, and so is every
    other file, whether [Write] succeeds, fails or panics. *)
Theorem Write_frame (v : Vault) (contents : string) (w : world) :
  let w' := (Write v contents w).2 in
  secrets w' = secrets w /\ environ w' = environ w /\
  rng_seed w' = rng_seed w /\ rng_pos w' = rng_pos w /\
  (forall f, f <> filename v -> files w' !! f = files w !! f) /\
  Forall (fun ev => is_set_event ev = false) (emitted w w').
Proof.
  intros w'. subst w'.
  assert (Hq : forall o : outcome (option error),
             let w' := (o, log (password_event v) w).2 in
             secrets w' = secrets w /\ environ w' = environ w /\
             rng_seed w' = rng_seed w /\ rng_pos w' = rng_pos w /\
             (forall f, f <> filename v -> files w' !! f = files w !! f) /\
             Forall (fun ev => is_set_event ev = false) (emitted w w')).
  { intros o. cbn [snd]. rewrite emitted_log. repeat split; try done.
    apply Forall_cons_2; [|apply Forall_nil_2].
    unfold password_event. by destruct (keyring v). }
  destruct (getPassword_cases v w) as (K & [e|] & Hp).
  - rewrite (Write_password_error v contents w K e Hp). apply Hq.
  - destruct (encrypt contents K) as [[s [e|]]|msg] eqn:He.
    + rewrite (Write_encrypt_error v contents w K s e Hp He). apply Hq.
    + rewrite (Write_encrypted v contents w K s Hp He).
      assert (Hpw : is_set_event (password_event v) = false)
        by (unfold password_event; by destruct (keyring v)).
      destruct (WriteFile_cases (filename v) (list_ascii_of_string s) 384
                                (log (password_event v) w))
        as [[e ->]|[[e [n ->]]|[_ ->]]]; cbn [fst snd];
        rewrite ?emitted_set_files, emitted_log2; repeat split; try done;
        try (intros f Hne; unfold set_files; cbn [files];
             by apply lookup_insert_ne);
        by repeat (apply Forall_cons_2; [done|]).
    + rewrite (Write_encrypt_panic v contents w K msg Hp He). apply Hq.
Qed.

(** X5. The last write wins: after two successful writes a [Read] returns
    the contents of the second one; nothing of the first remains. *)
Theorem Read_after_Write_Write (v : Vault) (c1 c2 K : string) (w : world) :
  (getPassword v w).1 = Returns (K, None) ->
  valid_key_size (String.length K) ->
  writable w (filename v) ->
  let w1 := (Write v c1 w).2 in
  let w2 := (Write v c2 w1).2 in
  (Write v c1 w).1 = Returns None /\
  (Write v c2 w1).1 = Returns None /\
  (Read v w2).1 = Returns (c2, None) /\
  files w2 = files (Write v c2 w).2.
Proof.
  intros Hp HK Hf w1 w2.
  assert (Hw1 : Write v c1 w = _) by exact (Write_success v c1 K w Hp HK Hf).
  cbv zeta in Hw1.
  assert (Hp1 : (getPassword v w1).1 = Returns (K, None)).
  { rewrite <- Hp. unfold w1. rewrite Hw1. by apply getPassword_frame. }
  assert (Hf1 : writable w1 (filename v)).
  { unfold w1. rewrite Hw1. split; [|exact (proj2 Hf)].
    intros errno. unfold set_files. cbn [snd files].
    by rewrite lookup_insert_eq. }
  destruct (Read_after_Write v c2 K w1 Hp1 HK Hf1) as [Hw2 Hr].
  split; [by rewrite Hw1|]. split; [exact Hw2|]. split; [exact Hr|].
  unfold w2. rewrite (Write_success v c2 K w1 Hp1 HK Hf1),
    (Write_success v c2 K w Hp HK Hf).
  unfold w1. rewrite Hw1. unfold set_files. cbn [snd files log].
  apply insert_insert_eq.
Qed.

Lemma Read_after_Write_Write_witness :
  let w1 := (Write env_vault "first" good_env_world).2 in
  let w2 := (Write env_vault "second" w1).2 in
  (Write env_vault "first" good_env_world).1 = Returns None /\
  (Write env_vault "second" w1).1 = Returns None /\
  (Read env_vault w2).1 = Returns ("second", None) /\
  files w2 = files (Write env_vault "second" good_env_world).2.
Proof.
  apply (Read_after_Write_Write env_vault "first" "second" key32 good_env_world).
  - vm_compute. reflexivity.
  - right; right. reflexivity.
  - split; [intros errno; vm_compute; discriminate | vm_compute; reflexivity].
Defined.

(** ** The env-var initializer *)

(** X6. [InitEnvVar] always returns an env-var vault for the given file
    and variable; it returns no error exactly when the variable has a
    non-empty value, whatever its length; it makes one call, [Getenv],
    and neither reads nor creates the file. *)
Theorem InitEnvVar_spec (i : VaultInput) (w : world) :
  let value := default "" (environ w !! PasswordEnvVar i) in
  exists err,
    (InitEnvVar i w).1
    = Returns (mkVault "" "" (Filename i) (PasswordEnvVar i) false, err) /\
    (err = None <-> value <> "") /\
    (value = "" ->
     err = Some (ErrorString ("no password found in " +:+ PasswordEnvVar i
                              +:+ " env var"))) /\
    only_logged w (InitEnvVar i w).2 [EvGetenv (PasswordEnvVar i)].
Proof.
  intros value. unfold InitEnvVar, getPassword, getPasswordEnv, bind, os.Getenv, ret.
  cbn [keyring passwordEnvVar]. fold value.
  destruct (String.eqb_spec value "") as [E|E]; eexists; (split; [reflexivity|]);
    cbn [snd]; (split; [|split]); done.
Qed.

(** ** The keyring initializer *)

Lemma InitKeyring_found (i : VaultInput) (w : world) (K : string) :
  (keyring.Get (Service i) (User i) w).1 = Returns (K, None) ->
  InitKeyring i w
  = open_or_create (keyring_vault_of i true)
                   (log (EvKeyringGet (Service i) (User i)) w).
Proof.
  intros H. unfold InitKeyring, with_keyring. cbv zeta.
  cbn [service user filename passwordEnvVar keyring].
  unfold bind at 1. by rewrite (keyring_Get_eq _ _ _ _ H).
Qed.

Lemma InitKeyring_error (i : VaultInput) (w : world) (p : string) (e : error) :
  (keyring.Get (Service i) (User i) w).1 = Returns (p, Some e) ->
  InitKeyring i w
  = (if strings.Contains (Error e) "secret not found in keyring"
     then
       do err <- initKeyring (Service i) (User i);
       match err with
       | Some e' => ret (keyring_vault_of i false, Some e')
       | None => open_or_create (keyring_vault_of i true)
       end
     else ret (keyring_vault_of i false, Some e))
      (log (EvKeyringGet (Service i) (User i)) w).
Proof.
  intros H. unfold InitKeyring, with_keyring. cbv zeta.
  cbn [service user filename passwordEnvVar keyring].
  unfold bind at 1. by rewrite (keyring_Get_eq _ _ _ _ H).
Qed.

(** X7. When the keyring backend fails with an error other than "secret
    not found", [InitKeyring] returns that error at once, with a handle
    whose keyring flag is off: [keyring.Set] is not called, no password is
    generated and the file is neither read nor created. *)
Theorem InitKeyring_backend_failure (i : VaultInput) (w : world) (msg : string) :
  keyring_get_failure w = Some msg ->
  strings.Contains msg "secret not found in keyring" = false ->
  (InitKeyring i w).1
  = Returns (keyring_vault_of i false, Some (KeyringError msg)) /\
  only_logged w (InitKeyring i w).2 [EvKeyringGet (Service i) (User i)].
Proof.
  intros Hf Hc.
  assert (Hg : (keyring.Get (Service i) (User i) w).1
               = Returns ("", Some (KeyringError msg))).
  { unfold keyring.Get. by rewrite Hf. }
  rewrite (InitKeyring_error i w _ _ Hg). cbn [Error]. rewrite Hc.
  split; [done|]. apply only_logged_log1.
Qed.

Lemma InitKeyring_backend_failure_witness :
  (InitKeyring sample_input broken_keyring_world).1
  = Returns (keyring_vault_of sample_input false,
             Some (KeyringError
                     "The name org.freedesktop.secrets was not provided by any .service files")) /\
  only_logged broken_keyring_world (InitKeyring sample_input broken_keyring_world).2
              [EvKeyringGet (Service sample_input) (User sample_input)].
Proof.
  apply InitKeyring_backend_failure; vm_compute; reflexivity.
Defined.

Lemma open_or_create_keeps (v : Vault) (w : world) :
  secrets (open_or_create v w).2 = secrets w /\
  keyring_get_failure (open_or_create v w).2 = keyring_get_failure w /\
  environ (open_or_create v w).2 = environ w.
Proof.
  enough (H : forall w', w' = (open_or_create v w).2 ->
                         secrets w' = secrets w /\
                         keyring_get_failure w' = keyring_get_failure w /\
                         environ w' = environ w) by by apply H.
  intros w' Hw'. unfold open_or_create, bind in Hw'.
  change (loadFromDisk v w) with (Read v w) in Hw'.
  destruct (Read_logs v w) as (evs & Hr).
  destruct (Read v w) as [[[s [e|]]|msg] w1]; cbn [snd] in Hr;
    unfold only_logged in Hr; subst w1;
    try (subst w'; repeat split; reflexivity).
  destruct (strings.Contains _ _); [|subst w'; repeat split; reflexivity].
  match type of Hw' with context [Write v "" ?w1] =>
    pose proof (Write_keeps v "" w1) as Hw;
    destruct (Write v "" w1) as [[err|msg] w2] end;
    cbn [snd] in *; subst w'; exact Hw.
Qed.

Lemma NewVaultPassword_run (w : world) :
  exists l,
    NewVaultPassword w
    = (Returns (string_of_list_ascii l), set_rng (now w) keySize w) /\
    length l = keySize /\
    Forall (fun c => In c letterRunes) l.
Proof.
  unfold NewVaultPassword, randStringRunes, time.Now_UnixNano, rand.Seed.
  unfold bind at 1. unfold bind at 1. unfold bind at 1.
  destruct (randRunes_spec keySize (set_rng (now w) 0 w)) as (l & -> & Hlen & Hall).
  exists l. split; [reflexivity|]. split; [exact Hlen | exact Hall].
Qed.

Lemma initKeyring_run (s u : string) (w : world) :
  exists pw,
    String.length pw = keySize /\
    Forall (fun c => In c letterRunes) (list_ascii_of_string pw) /\
    initKeyring s u w
    = match keyring_set_failure w with
      | Some msg =>
          (Returns (Some (KeyringError msg)),
           log (EvKeyringSet s u pw) (set_rng (now w) keySize w))
      | None =>
          (Returns None,
           set_secrets (<[(s, u) := pw]> (secrets w))
             (log (EvKeyringSet s u pw) (set_rng (now w) keySize w)))
      end.
Proof.
  destruct (NewVaultPassword_run w) as (l & Hn & Hlen & Hall).
  exists (string_of_list_ascii l).
  rewrite <- length_list_ascii_of_string, list_ascii_of_string_of_list_ascii.
  split; [exact Hlen|]. split; [exact Hall|].
  unfold initKeyring, bind. rewrite Hn. reflexivity.
Qed.

Lemma Contains_ErrNotFound :
  strings.Contains (Error ErrNotFound) "secret not found in keyring" = true.
Proof. reflexivity. Qed.

Lemma keyring_Get_missing (s u : string) (w : world) :
  keyring_get_failure w = None -> secrets w !! (s, u) = None ->
  (keyring.Get s u w).1 = Returns ("", Some ErrNotFound).
Proof. intros Hf Hs. unfold keyring.Get. by rewrite Hf, Hs. Qed.

Lemma ciphertext_nil (block : aes.Block) : ciphertext block [] = [].
Proof. apply nil_length_inv. by rewrite length_ciphertext. Qed.

Lemma open_or_create_creates (v : Vault) (w : world) (K : string) :
  (getPassword v w).1 = Returns (K, None) ->
  valid_key_size (String.length K) ->
  files w !! filename v = None ->
  writable w (filename v) ->
  strings.Contains (Error (PathError "open" (filename v) (enoent w)))
                   "system cannot find the file specified" = true ->
  open_or_create v w
  = (Returns (v, None),
     set_files (<[filename v := RegularFile []]> (files w))
       (log (EvWriteFile (filename v) [] 384)
            (log (password_event v) (log (EvReadFile (filename v)) w)))).
Proof.
  intros Hp HK Hf Hw Hc. unfold open_or_create. unfold bind at 1.
  change (loadFromDisk v w) with (Read v w).
  rewrite (Read_missing_file v w Hf), Hc. unfold bind.
  set (w1 := log (EvReadFile (filename v)) w).
  assert (Hp1 : (getPassword v w1).1 = Returns (K, None))
    by (unfold w1; by rewrite getPassword_log).
  assert (Hf1 : writable w1 (filename v)) by by apply writable_log.
  rewrite (Write_success v "" K w1 Hp1 HK Hf1).
  cbn [list_ascii_of_string]. by rewrite ciphertext_nil.
Qed.

(** X8. By design the vault file is bootstrapped on the missing-file
    text the code looks for: when the keyring returns a key of an accepted
    size, the file does not exist, the path can be written (the file can
    be created and the write does not fail) and the file system's error
    text contains "system cannot find the file specified", [InitKeyring]
    creates the file with empty content and returns a keyring vault
    without error. *)
Theorem InitKeyring_creates_file (i : VaultInput) (w : world) (K : string) :
  (keyring.Get (Service i) (User i) w).1 = Returns (K, None) ->
  valid_key_size (String.length K) ->
  files w !! Filename i = None ->
  writable w (Filename i) ->
  strings.Contains (Error (PathError "open" (Filename i) (enoent w)))
                   "system cannot find the file specified" = true ->
  (InitKeyring i w).1 = Returns (keyring_vault_of i true, None) /\
  files (InitKeyring i w).2 = <[Filename i := RegularFile []]> (files w) /\
  emitted w (InitKeyring i w).2
  = [EvKeyringGet (Service i) (User i); EvReadFile (Filename i);
     EvKeyringGet (Service i) (User i); EvWriteFile (Filename i) [] 384].
Proof.
  intros Hg HK Hf Hw Hc. rewrite (InitKeyring_found i w K Hg).
  set (v := keyring_vault_of i true).
  set (w1 := log (EvKeyringGet (Service i) (User i)) w).
  assert (Hp : (getPassword v w1).1 = Returns (K, None))
    by (unfold w1; by rewrite getPassword_log).
  rewrite (open_or_create_creates v w1 K Hp HK Hf Hw Hc).
  split; [done|]. split; [done|].
  unfold emitted, set_files, w1, log; simpl.
  by rewrite <- !app_assoc, drop_app_length.
Qed.

Lemma InitKeyring_creates_file_witness :
  (InitKeyring sample_input keyring_key_world).1
  = Returns (keyring_vault_of sample_input true, None) /\
  files (InitKeyring sample_input keyring_key_world).2
  = <[Filename sample_input := RegularFile []]> (files keyring_key_world) /\
  emitted keyring_key_world (InitKeyring sample_input keyring_key_world).2
  = [EvKeyringGet (Service sample_input) (User sample_input);
     EvReadFile (Filename sample_input);
     EvKeyringGet (Service sample_input) (User sample_input);
     EvWriteFile (Filename sample_input) [] 384].
Proof.
  apply (InitKeyring_creates_file sample_input keyring_key_world key32).
  - vm_compute. reflexivity.
  - right; right. reflexivity.
  - vm_compute. reflexivity.
  - split; [intros errno; vm_compute; discriminate | vm_compute; reflexivity].
  - vm_compute. reflexivity.
Defined.

Lemma never_sets_ret {A} (a : A) : never_sets (ret a).
Proof. intros w. exists []. by rewrite app_nil_r. Qed.

Lemma never_sets_lift {A} (o : outcome A) : never_sets (lift o).
Proof. intros w. exists []. by rewrite app_nil_r. Qed.

Lemma never_sets_bind {A B} (m : M A) (k : A -> M B) :
  never_sets m -> (forall a, never_sets (k a)) -> never_sets (bind m k).
Proof.
  intros Hm Hk w. unfold bind. destruct (Hm w) as (evs & Ht & Hevs).
  destruct (m w) as [[a|e] w1]; [|by exists evs].
  destruct (Hk a w1) as (evs' & Ht' & Hevs'). cbn [snd] in Ht.
  exists (evs ++ evs'). split; [by rewrite Ht', Ht, app_assoc|].
  by apply Forall_app_2.
Qed.

Lemma never_sets_log (ev : event) (w : world) :
  is_set_event ev = false ->
  exists evs, trace (log ev w) = trace w ++ evs /\
              Forall (fun ev => is_set_event ev = false) evs.
Proof.
  intros Hev. exists [ev]. split; [reflexivity|].
  apply Forall_cons_2; [exact Hev | apply Forall_nil_2].
Qed.

Lemma never_sets_getPassword (v : Vault) : never_sets (getPassword v).
Proof.
  intros w. destruct (getPassword_world v w) as [r ->].
  apply never_sets_log. unfold password_event. by destruct (keyring v).
Qed.

Lemma never_sets_ReadFile (f : string) : never_sets (ioutil.ReadFile f).
Proof.
  intros w. unfold ioutil.ReadFile.
  destruct (files w !! f) as [[?|?]|]; by apply never_sets_log.
Qed.

Lemma never_sets_WriteFile (f : string) (d : list ascii) (p : N) :
  never_sets (ioutil.WriteFile f d p).
Proof.
  intros w.
  destruct (WriteFile_cases f d p w) as [[e ->]|[[e [n ->]]|[_ ->]]];
    by apply never_sets_log.
Qed.

Lemma never_sets_loadFromDisk (v : Vault) : never_sets (loadFromDisk v).
Proof.
  unfold loadFromDisk.
  apply never_sets_bind; [apply never_sets_ReadFile|].
  intros [data [e|]]; [apply never_sets_ret|].
  apply never_sets_bind; [apply never_sets_getPassword|].
  intros [p [e|]]; [apply never_sets_ret|].
  apply never_sets_lift.
Qed.

Lemma never_sets_Write (v : Vault) (contents : string) :
  never_sets (Write v contents).
Proof.
  unfold Write.
  apply never_sets_bind; [apply never_sets_getPassword|].
  intros [p [e|]]; [apply never_sets_ret|].
  apply never_sets_bind; [apply never_sets_lift|].
  intros [s [e|]]; [apply never_sets_ret|].
  apply never_sets_WriteFile.
Qed.

Lemma never_sets_open_or_create (v : Vault) : never_sets (open_or_create v).
Proof.
  unfold open_or_create.
  apply never_sets_bind; [apply never_sets_loadFromDisk|].
  intros [s [e|]]; [|apply never_sets_ret].
  destruct (strings.Contains _ _); [|apply never_sets_ret].
  apply never_sets_bind; [apply never_sets_Write|].
  intros err. apply never_sets_ret.
Qed.

(** X9. First use of a keyring: when the keyring works and holds no
    secret for (service, user), [InitKeyring] generates a password of 32
    characters of [letterRunes] and stores it under (service, user) with
    one [keyring.Set] call, its second call after the [keyring.Get];
    none of the calls that follow is a [keyring.Set], and nothing it
    does afterwards changes the keyring. *)
Theorem InitKeyring_creates_secret (i : VaultInput) (w : world) :
  keyring_get_failure w = None ->
  secrets w !! (Service i, User i) = None ->
  keyring_set_failure w = None ->
  exists pw rest,
    String.length pw = keySize /\
    Forall (fun c => In c letterRunes) (list_ascii_of_string pw) /\
    secrets (InitKeyring i w).2 = <[(Service i, User i) := pw]> (secrets w) /\
    emitted w (InitKeyring i w).2
    = EvKeyringGet (Service i) (User i)
      :: EvKeyringSet (Service i) (User i) pw :: rest /\
    Forall (fun ev => is_set_event ev = false) rest.
Proof.
  intros Hgf Hs Hsf.
  set (w1 := log (EvKeyringGet (Service i) (User i)) w).
  destruct (initKeyring_run (Service i) (User i) w1) as (pw & Hlen & Hall & Hik).
  change (keyring_set_failure w1) with (keyring_set_failure w) in Hik.
  rewrite Hsf in Hik.
  set (w3 := set_secrets _ _) in Hik.
  assert (Hrun : InitKeyring i w = open_or_create (keyring_vault_of i true) w3).
  { rewrite (InitKeyring_error i w _ _ (keyring_Get_missing _ _ w Hgf Hs)).
    rewrite Contains_ErrNotFound. unfold bind at 1. fold w1. by rewrite Hik. }
  rewrite Hrun.
  destruct (open_or_create_keeps (keyring_vault_of i true) w3) as (Hsec & _ & _).
  destruct (never_sets_open_or_create (keyring_vault_of i true) w3)
    as (rest & Hrest & Hquiet).
  exists pw, rest. split; [exact Hlen|]. split; [exact Hall|].
  split; [by rewrite Hsec|]. split; [|exact Hquiet].
  unfold emitted. rewrite Hrest. unfold w3, w1, set_secrets, log, set_rng; simpl.
  by rewrite <- !app_assoc, drop_app_length.
Qed.

Lemma InitKeyring_creates_secret_witness :
  exists pw rest,
    String.length pw = keySize /\
    Forall (fun c => In c letterRunes) (list_ascii_of_string pw) /\
    secrets (InitKeyring sample_input windows_fresh_world).2
    = <[(Service sample_input, User sample_input) := pw]>
        (secrets windows_fresh_world) /\
    emitted windows_fresh_world (InitKeyring sample_input windows_fresh_world).2
    = EvKeyringGet (Service sample_input) (User sample_input)
      :: EvKeyringSet (Service sample_input) (User sample_input) pw :: rest /\
    Forall (fun ev => is_set_event ev = false) rest.
Proof.
  apply (InitKeyring_creates_secret sample_input windows_fresh_world);
    reflexivity.
Defined.

(** X10. When the keyring has no secret and storing the new one fails,
    [InitKeyring] returns the error of [keyring.Set] with a handle whose
    keyring flag is off; the keyring's items are as they were and the file
    is neither read nor created. *)
Theorem InitKeyring_set_failure (i : VaultInput) (w : world) (msg : string) :
  keyring_get_failure w = None ->
  secrets w !! (Service i, User i) = None ->
  keyring_set_failure w = Some msg ->
  (InitKeyring i w).1
  = Returns (keyring_vault_of i false, Some (KeyringError msg)) /\
  secrets (InitKeyring i w).2 = secrets w /\
  files (InitKeyring i w).2 = files w /\
  Forall (fun ev => is_file_event ev = false) (emitted w (InitKeyring i w).2).
Proof.
  intros Hgf Hs Hsf.
  set (w1 := log (EvKeyringGet (Service i) (User i)) w).
  destruct (initKeyring_run (Service i) (User i) w1) as (pw & Hlen & Hall & Hik).
  change (keyring_set_failure w1) with (keyring_set_failure w) in Hik.
  rewrite Hsf in Hik.
  assert (Hrun : InitKeyring i w
                 = (Returns (keyring_vault_of i false, Some (KeyringError msg)),
                    log (EvKeyringSet (Service i) (User i) pw)
                        (set_rng (now w1) keySize w1))).
  { rewrite (InitKeyring_error i w _ _ (keyring_Get_missing _ _ w Hgf Hs)).
    rewrite Contains_ErrNotFound. unfold bind at 1. fold w1. by rewrite Hik. }
  rewrite Hrun.
  split; [done|]. split; [done|]. split; [done|].
  unfold emitted, w1, log, set_rng; simpl.
  rewrite <- !app_assoc, drop_app_length.
  by repeat (apply Forall_cons_2; [done|]).
Qed.

Lemma InitKeyring_set_failure_witness :
  (InitKeyring sample_input readonly_keyring_world).1
  = Returns (keyring_vault_of sample_input false,
             Some (KeyringError "keyring is locked")) /\
  secrets (InitKeyring sample_input readonly_keyring_world).2
  = secrets readonly_keyring_world /\
  files (InitKeyring sample_input readonly_keyring_world).2
  = files readonly_keyring_world /\
  Forall (fun ev => is_file_event ev = false)
         (emitted readonly_keyring_world
                  (InitKeyring sample_input readonly_keyring_world).2).
Proof.
  apply (InitKeyring_set_failure sample_input readonly_keyring_world);
    reflexivity.
Defined.

(** ** First use, end to end *)

(** X11. First use of a vault where the missing-file text is the one the
    code looks for: with a working keyring that has no secret, no vault
    file and a path that can be written (the file can be created and
    writes to it do not fail), [InitKeyring] returns a handle without
    error, the file exists and is empty, and any contents written through
    the handle are read back unchanged. *)
Theorem first_use_roundtrip (i : VaultInput) (w : world) (contents : string) :
  keyring_get_failure w = None ->
  keyring_set_failure w = None ->
  secrets w !! (Service i, User i) = None ->
  files w !! Filename i = None ->
  writable w (Filename i) ->
  strings.Contains (Error (PathError "open" (Filename i) (enoent w)))
                   "system cannot find the file specified" = true ->
  let v := keyring_vault_of i true in
  let w1 := (InitKeyring i w).2 in
  (InitKeyring i w).1 = Returns (v, None) /\
  files w1 !! Filename i = Some (RegularFile []) /\
  (Write v contents w1).1 = Returns None /\
  (Read v (Write v contents w1).2).1 = Returns (contents, None).
Proof.
  intros Hgf Hsf Hs Hf Hw Hc v w1. subst w1.
  set (wg := log (EvKeyringGet (Service i) (User i)) w).
  destruct (initKeyring_run (Service i) (User i) wg) as (pw & Hlen & Hall & Hik).
  change (keyring_set_failure wg) with (keyring_set_failure w) in Hik.
  rewrite Hsf in Hik.
  set (w3 := set_secrets _ _) in Hik.
  assert (Hrun : InitKeyring i w = open_or_create v w3).
  { rewrite (InitKeyring_error i w _ _ (keyring_Get_missing _ _ w Hgf Hs)).
    rewrite Contains_ErrNotFound. unfold bind at 1. fold wg. by rewrite Hik. }
  assert (Hp3 : (getPassword v w3).1 = Returns (pw, None)).
  { unfold getPassword, getPasswordKeyring, keyring.Get, v, keyring_vault_of.
    cbn [keyring service user].
    change (keyring_get_failure w3) with (keyring_get_failure w). rewrite Hgf.
    unfold w3, set_secrets. cbn [secrets]. by rewrite lookup_insert_eq. }
  assert (HK : valid_key_size (String.length pw)).
  { right; right. exact Hlen. }
  rewrite Hrun.
  rewrite (open_or_create_creates v w3 pw Hp3 HK Hf Hw Hc).
  cbn [fst snd]. set (w4 := set_files _ _).
  assert (Hf4 : files w4 !! Filename i = Some (RegularFile [])).
  { unfold w4, set_files. cbn [files]. apply lookup_insert_eq. }
  split; [done|]. split; [exact Hf4|].
  apply (Read_after_Write v contents pw w4).
  - rewrite <- Hp3. by apply getPassword_frame.
  - exact HK.
  - split; [|exact (proj2 Hw)].
    intros errno. change (filename v) with (Filename i). by rewrite Hf4.
Qed.

Lemma first_use_roundtrip_witness :
  let v := keyring_vault_of sample_input true in
  let w1 := (InitKeyring sample_input windows_fresh_world).2 in
  (InitKeyring sample_input windows_fresh_world).1 = Returns (v, None) /\
  files w1 !! Filename sample_input = Some (RegularFile []) /\
  (Write v "hello" w1).1 = Returns None /\
  (Read v (Write v "hello" w1).2).1 = Returns ("hello", None).
Proof.
  apply (first_use_roundtrip sample_input windows_fresh_world "hello").
  - vm_compute. reflexivity.
  - vm_compute. reflexivity.
  - vm_compute. reflexivity.
  - vm_compute. reflexivity.
  - split; [intros errno; vm_compute; discriminate | vm_compute; reflexivity].
  - vm_compute. reflexivity.
Defined.

(** ** What the ciphertext gives away *)

Lemma XORBytes_same_key (a b k : list ascii) :
  XORBytes (XORBytes a k) (XORBytes b k) = take (length k) (XORBytes a b).
Proof.
  unfold XORBytes. revert b k.
  induction a as [|x a IH]; intros [|y b] [|z k]; simpl; try reflexivity.
  f_equal; [|apply IH].
  destruct x, y, z; simpl; f_equal;
    match goal with |- xorb (xorb ?p ?r) (xorb ?q ?r) = _ =>
      by destruct p, q, r end.
Qed.

Lemma ciphertext_first_block (block : aes.Block) (p : list ascii) :
  take aes.BlockSize (ciphertext block p) = XORBytes p (aes.Encrypt block bytes).
Proof.
  unfold ciphertext.
  destruct (decide (p = [])) as [->|Hp]; [reflexivity|].
  destruct (length p) as [|n] eqn:Hn; [by destruct p|].
  rewrite xorLoop_step by done. cbn zeta. cfb_simpl.
  set (x0 := cipher.mkCFB block bytes (replicate 16 zero) 16 false).
  assert (Hks : keystream x0 = aes.Encrypt block bytes) by reflexivity.
  rewrite Hks. set (ks := aes.Encrypt block bytes).
  set (d := XORBytes p ks).
  assert (Hd : length d = Nat.min (length p) 16).
  { unfold d. rewrite length_XORBytes. unfold ks. by rewrite length_Encrypt. }
  rewrite drop_app_length.
  set (r := (cipher.xorLoop n _ _ _).2).
  assert (Hr : length r = length p - length d).
  { unfold r. rewrite length_xorLoop.
    - by rewrite length_drop.
    - apply cfb_ok_advance, cfb_ok_fresh.
    - rewrite !length_drop, length_replicate. lia.
    - rewrite length_drop. lia. }
  unfold aes.BlockSize.
  destruct (Nat.min_spec (length p) 16) as [[Hlt E]|[Hge E]]; rewrite E in Hd.
  - assert (r = []) as -> by (apply nil_length_inv; lia).
    rewrite app_nil_r. apply take_ge. lia.
  - rewrite <- Hd. by rewrite take_app_length.
Qed.

(** X12. Key stream reuse: the initialization vector is fixed, so two
    plaintexts encrypted under the same key are masked by the same first
    key stream block; the exclusive-or of the first 16 ciphertext bytes
    equals the exclusive-or of the first 16 plaintext bytes, whatever the
    key. *)
Theorem keystream_reuse (P1 P2 K : string) :
  valid_key_size (String.length K) ->
  exists ct1 ct2,
    encrypt P1 K = Returns (encode ct1, None) /\
    encrypt P2 K = Returns (encode ct2, None) /\
    XORBytes (take 16 ct1) (take 16 ct2)
    = take 16 (XORBytes (list_ascii_of_string P1) (list_ascii_of_string P2)).
Proof.
  intros HK.
  assert (Hkey : valid_key_size (length (list_ascii_of_string K)))
    by by rewrite length_list_ascii_of_string.
  eexists _, _. split; [by apply encrypt_valid|]. split; [by apply encrypt_valid|].
  change 16 with aes.BlockSize.
  rewrite !ciphertext_first_block, XORBytes_same_key.
  by rewrite length_Encrypt.
Qed.

Lemma keystream_reuse_witness :
  exists ct1 ct2,
    encrypt "attack at dawn" key32 = Returns (encode ct1, None) /\
    encrypt "attack at dusk" key32 = Returns (encode ct2, None) /\
    XORBytes (take 16 ct1) (take 16 ct2)
    = take 16 (XORBytes (list_ascii_of_string "attack at dawn")
                        (list_ascii_of_string "attack at dusk")).
Proof. apply keystream_reuse. right; right. reflexivity. Defined.

Lemma length_string_of_list_ascii (l : list ascii) :
  String.length (string_of_list_ascii l) = length l.
Proof. induction l; simpl; congruence. Qed.

(** X13. No integrity check: for every key of an accepted size and every
    input the base64 decoder accepts, [decrypt] returns a text as long as
    the decoded input and no error; a wrong key or a modified file is not
    detected. *)
Theorem decrypt_never_rejects (s K : string) (ct : list ascii) :
  base64.DecodeString s = (ct, None) ->
  valid_key_size (String.length K) ->
  exists p, decrypt s K = Returns (p, None) /\ String.length p = length ct.
Proof.
  intros Hs HK. unfold decrypt.
  rewrite NewCipher_valid by by rewrite length_list_ascii_of_string.
  unfold decode. rewrite Hs. cbn [obind].
  unfold cipher.NewCFBDecrypter. rewrite newCFB_bytes. cbn [obind].
  rewrite XORKeyStream_fresh. cbn [obind].
  pose proof (length_xorLoop (length ct)
                (cipher.mkCFB (aes.expandKey (map N_of_ascii (list_ascii_of_string K)))
                              bytes (replicate 16 zero) 16 true)
                (replicate (length ct) zero) ct
                (cfb_ok_fresh _ true) (length_replicate _ _) (le_n _)) as Hl.
  destruct (cipher.xorLoop _ _ _ _) as [x' plain]. cbn [snd] in Hl.
  eexists. split; [reflexivity|]. by rewrite length_string_of_list_ascii.
Qed.

Lemma decrypt_never_rejects_witness :
  exists p, decrypt "lxVA5e4=" key16 = Returns (p, None) /\
            String.length p = length (base64.DecodeString "lxVA5e4=").1.
Proof.
  apply (decrypt_never_rejects "lxVA5e4=" key16).
  - vm_compute. reflexivity.
  - left. reflexivity.
Defined.

(** X14. The package's [decode] undoes its [encode] and does not panic on
    anything [encode] produces, for every byte slice. *)
Theorem decode_encode_roundtrip (b : list ascii) :
  decode (encode b) = Returns b.
Proof. unfold decode, encode. by rewrite DecodeString_EncodeToString. Qed.

(** X15. Under one key of an accepted size, two contents have the same
    encrypted text exactly when they are equal: [encrypt] is injective in
    the plaintext, so equal files reveal equal contents and different
    contents always give different files. *)
Theorem encrypt_injective (P1 P2 K C1 C2 : string) :
  valid_key_size (String.length K) ->
  encrypt P1 K = Returns (C1, None) ->
  encrypt P2 K = Returns (C2, None) ->
  (C1 = C2 <-> P1 = P2).
Proof.
  intros HK H1 H2.
  assert (Hkey : valid_key_size (length (list_ascii_of_string K)))
    by by rewrite length_list_ascii_of_string.
  split.
  - intros <-.
    rewrite (encrypt_valid P1 K Hkey) in H1.
    rewrite (encrypt_valid P2 K Hkey) in H2.
    inversion H1 as [E1]. inversion H2 as [E2].
    pose proof (decrypt_ciphertext _ (list_ascii_of_string P1) K
                  (NewCipher_valid _ Hkey)) as D1.
    pose proof (decrypt_ciphertext _ (list_ascii_of_string P2) K
                  (NewCipher_valid _ Hkey)) as D2.
    rewrite E1 in D1. rewrite E2 in D2. rewrite D1 in D2.
    rewrite !string_of_list_ascii_of_string in D2. by inversion D2.
  - intros <-. rewrite H1 in H2. by inversion H2.
Qed.

Lemma encrypt_injective_witness :
  "kSH6JnE=" = "kSH6Jm4=" <-> "hello" = "hellp".
Proof.
  apply (encrypt_injective "hello" "hellp" key32).
  - right; right. reflexivity.
  - vm_compute. reflexivity.
  - vm_compute. reflexivity.
Defined.

(** ** The password generator *)

(** X16. For every length [n], zero included, [randStringRunes n] returns
    a string of exactly [n] characters of [letterRunes] and does not
    panic; it draws exactly [n] numbers from the generator and changes
    nothing else. *)
Theorem randStringRunes_spec (n : nat) (w : world) :
  exists s,
    randStringRunes n w
    = (Returns s, set_rng (rng_seed w) (rng_pos w + n) w) /\
    String.length s = n /\
    Forall (fun c => In c letterRunes) (list_ascii_of_string s).
Proof.
  destruct (randRunes_spec n w) as (l & Hl & Hlen & Hall).
  exists (string_of_list_ascii l).
  unfold randStringRunes, bind. rewrite Hl.
  rewrite length_string_of_list_ascii, list_ascii_of_string_of_list_ascii.
  split; [reflexivity|]. split; [exact Hlen | exact Hall].
Qed.

Lemma randRunes_ext (n : nat) :
  forall w1 w2,
    prng w1 = prng w2 -> rng_seed w1 = rng_seed w2 -> rng_pos w1 = rng_pos w2 ->
    (randRunes n w1).1 = (randRunes n w2).1.
Proof.
  induction n as [|n IH]; intros w1 w2 Hg Hs Hp; [reflexivity|].
  cbn [randRunes]. unfold bind at 1 3. rewrite length_letterRunes.
  cbn [rand.Intn]. unfold bind.
  specialize (IH (set_rng (rng_seed w1) (S (rng_pos w1)) w1)
                 (set_rng (rng_seed w2) (S (rng_pos w2)) w2) Hg Hs
                 (f_equal S Hp)).
  destruct (randRunes n (set_rng (rng_seed w1) _ w1)) as [[l1|e1] w1'];
    destruct (randRunes n (set_rng (rng_seed w2) _ w2)) as [[l2|e2] w2'];
    cbn [fst] in IH |- *; inversion IH; subst; rewrite ?Hg, ?Hs, ?Hp;
    reflexivity.
Qed.

(** X17. [NewVaultPassword] reseeds the generator from the clock on every
    call, so the password it returns is determined by the clock reading
    alone: two calls that see the same time return the same password,
    whatever was drawn from the generator before. *)
Theorem NewVaultPassword_clock (w1 w2 : world) :
  now w1 = now w2 -> prng w1 = prng w2 ->
  (NewVaultPassword w1).1 = (NewVaultPassword w2).1.
Proof.
  intros Hn Hg.
  unfold NewVaultPassword, randStringRunes, time.Now_UnixNano, rand.Seed.
  unfold bind at 1 2 5 6. unfold bind.
  pose proof (randRunes_ext keySize (set_rng (now w1) 0 w1)
                (set_rng (now w2) 0 w2) Hg Hn eq_refl) as H.
  destruct (randRunes keySize (set_rng (now w1) 0 w1)) as [[l1|e1] w1'];
    destruct (randRunes keySize (set_rng (now w2) 0 w2)) as [[l2|e2] w2'];
    cbn [fst] in H |- *; inversion H; subst; reflexivity.
Qed.

Lemma NewVaultPassword_clock_witness :
  (NewVaultPassword clock_world_a).1 = (NewVaultPassword clock_world_b).1.
Proof. apply NewVaultPassword_clock; reflexivity. Defined.

(** ** A vault without password *)

(** X18. An env-var vault whose variable is unset or empty: [Write]
    returns the error "no password found in NAME env var" after the one
    [Getenv] call and creates no file, and [Read] of an existing file
    returns the same error with empty contents. *)
Theorem env_vault_without_password (v : Vault) (w : world) (contents : string) :
  keyring v = false ->
  default "" (environ w !! passwordEnvVar v) = "" ->
  Write v contents w
  = (Returns (Some (no_password_error (passwordEnvVar v))),
     log (EvGetenv (passwordEnvVar v)) w) /\
  forall data,
    files w !! filename v = Some (RegularFile data) ->
    (Read v w).1 = Returns ("", Some (no_password_error (passwordEnvVar v))).
Proof.
  intros Hk He.
  assert (Hp : (getPassword v w).1
               = Returns ("", Some (no_password_error (passwordEnvVar v)))).
  { unfold getPassword, getPasswordEnv, os.Getenv, bind, ret.
    rewrite Hk, He. reflexivity. }
  split.
  - rewrite (Write_password_error v contents w _ _ Hp).
    unfold password_event. by rewrite Hk.
  - intros data Hf. by rewrite (Read_password_error v w data _ _ Hf Hp).
Qed.

Lemma env_vault_without_password_witness :
  Write env_vault "hello" unset_env_world
  = (Returns (Some (no_password_error "UGGSECP")),
     log (EvGetenv "UGGSECP") unset_env_world) /\
  forall data,
    files unset_env_world !! filename env_vault = Some (RegularFile data) ->
    (Read env_vault unset_env_world).1
    = Returns ("", Some (no_password_error "UGGSECP")).
Proof.
  apply (env_vault_without_password env_vault unset_env_world "hello");
    reflexivity.
Defined.

Example main_first_use_windows :
  (sample.main both_flags windows_fresh_world).1
  = Returns ([sample.LogPrint "successfully encrypted message";
              sample.LogPrint "successfully decrypted message";
              sample.Println "ovaltine"], 0).
Proof. vm_compute. reflexivity. Qed.

(** ** The sample program *)

(** X19. With [-new-password] the program prints one line, a password of
    32 characters of [letterRunes], and exits with status 0, whatever the
    other flags are; it calls neither keyring nor environment nor file
    system and changes none of them. *)
Theorem main_new_password (f : sample.Flags) (w : world) :
  sample.newPassword f = true ->
  exists p,
    (sample.main f w).1 = Returns ([sample.Println p], 0) /\
    String.length p = keySize /\
    Forall (fun c => In c letterRunes) (list_ascii_of_string p) /\
    emitted w (sample.main f w).2 = [] /\
    secrets (sample.main f w).2 = secrets w /\
    files (sample.main f w).2 = files w.
Proof.
  intros Hn. unfold sample.main. rewrite Hn. cbv iota.
  destruct (NewVaultPassword_run w) as (l & Hr & Hlen & Hall).
  exists (string_of_list_ascii l). unfold bind. rewrite Hr.
  rewrite length_string_of_list_ascii, list_ascii_of_string_of_list_ascii.
  split; [reflexivity|]. split; [exact Hlen|]. split; [exact Hall|].
  unfold ret. cbn [snd].
  split; [|split; reflexivity]. unfold emitted, set_rng. cbn [trace].
  apply drop_all.
Qed.

Lemma main_new_password_witness :
  exists p,
    (sample.main password_flags unix_fresh_world).1
    = Returns ([sample.Println p], 0) /\
    String.length p = keySize /\
    Forall (fun c => In c letterRunes) (list_ascii_of_string p) /\
    emitted unix_fresh_world (sample.main password_flags unix_fresh_world).2 = [] /\
    secrets (sample.main password_flags unix_fresh_world).2
    = secrets unix_fresh_world /\
    files (sample.main password_flags unix_fresh_world).2 = files unix_fresh_world.
Proof. apply main_new_password. reflexivity. Defined.

Lemma Read_written (v : Vault) (contents K : string) (w : world) :
  (getPassword v w).1 = Returns (K, None) ->
  valid_key_size (String.length K) ->
  let ct := ciphertext (aes.expandKey (map N_of_ascii (list_ascii_of_string K)))
                       (list_ascii_of_string contents) in
  files w !! filename v = Some (RegularFile (base64.Encode ct)) ->
  Read v w = (Returns (contents, None),
              log (password_event v) (log (EvReadFile (filename v)) w)).
Proof.
  intros Hp HK ct Hf. rewrite (Read_file v w _ K Hf Hp).
  change (string_of_list_ascii (base64.Encode ct)) with (encode ct).
  unfold ct. rewrite decrypt_ciphertext.
  - by rewrite string_of_list_ascii_of_string.
  - apply NewCipher_valid. by rewrite length_list_ascii_of_string.
Qed.

(** Writing and reading back with both flags set. *)
Lemma encryptStep_roundtrip (f : sample.Flags) (v : Vault) (K : string)
      (out : list sample.output) (w : world) :
  sample.encryptFlag f = true -> sample.decryptFlag f = true ->
  (getPassword v w).1 = Returns (K, None) ->
  valid_key_size (String.length K) ->
  writable w (filename v) ->
  let ct := ciphertext (aes.expandKey (map N_of_ascii (list_ascii_of_string K)))
                       (list_ascii_of_string (sample.message f)) in
  exists w',
    sample.encryptStep f v out w
    = (Returns (out ++ [sample.LogPrint "successfully encrypted message";
                        sample.LogPrint "successfully decrypted message";
                        sample.Println (sample.message f)], 0), w') /\
    files w' = <[filename v := RegularFile (base64.Encode ct)]> (files w) /\
    secrets w' = secrets w.
Proof.
  intros He Hd Hp HK Hf ct.
  unfold sample.encryptStep, sample.decryptStep. rewrite He, Hd.
  unfold bind at 1. rewrite (Write_success v _ K w Hp HK Hf). fold ct.
  set (w1 := set_files _ _).
  assert (Hp1 : (getPassword v w1).1 = Returns (K, None))
    by (rewrite <- Hp; by apply getPassword_frame).
  assert (Hf1 : files w1 !! filename v = Some (RegularFile (base64.Encode ct)))
    by (unfold w1, set_files; cbn [files]; apply lookup_insert_eq).
  unfold bind. rewrite (Read_written v _ K w1 Hp1 HK Hf1).
  eexists. split; [unfold ret; by rewrite <- app_assoc|].
  split; reflexivity.
Qed.

Lemma Write_faults (v : Vault) (contents : string) (w : world) :
  write_faults (Write v contents w).2 = write_faults w.
Proof.
  destruct (getPassword_cases v w) as (K & [e|] & Hp).
  - by rewrite (Write_password_error v contents w K e Hp).
  - destruct (encrypt contents K) as [[s [e|]]|msg] eqn:He.
    + by rewrite (Write_encrypt_error v contents w K s e Hp He).
    + rewrite (Write_encrypted v contents w K s Hp He).
      by destruct (WriteFile_cases (filename v) (list_ascii_of_string s) 384
                                   (log (password_event v) w))
        as [[e ->]|[[e [n ->]]|[_ ->]]].
    + by rewrite (Write_encrypt_panic v contents w K msg Hp He).
Qed.

Lemma open_or_create_faults (v : Vault) (w : world) :
  write_faults (open_or_create v w).2 = write_faults w.
Proof.
  enough (H : forall w', w' = (open_or_create v w).2 ->
                         write_faults w' = write_faults w) by by apply H.
  intros w' Hw'. unfold open_or_create, bind in Hw'.
  change (loadFromDisk v w) with (Read v w) in Hw'.
  destruct (Read_logs v w) as (evs & Hr).
  destruct (Read v w) as [[[s [e|]]|msg] w1]; cbn [snd] in Hr;
    unfold only_logged in Hr; subst w1;
    try (subst w'; reflexivity).
  destruct (strings.Contains _ _); [|subst w'; reflexivity].
  match type of Hw' with context [Write v "" ?w1] =>
    pose proof (Write_faults v "" w1) as Hw;
    destruct (Write v "" w1) as [[err|msg] w2] end;
    cbn [snd] in *; subst w'; exact Hw.
Qed.

(** [encrypt] never panics. *)
Lemma encrypt_returns (P K msg : string) : encrypt P K <> Panics msg.
Proof.
  unfold encrypt. destruct (aes.NewCipher _); [|done].
  unfold cipher.NewCFBEncrypter. rewrite newCFB_bytes.
  cbn [obind]. rewrite XORKeyStream_fresh.
  cbn [obind]. by destruct (cipher.xorLoop _ _ _ _).
Qed.

Lemma open_or_create_loaded (v : Vault) (w : world) (K : string) :
  (getPassword v w).1 = Returns (K, None) ->
  (open_or_create v w).1 = Returns (v, None) ->
  secrets (open_or_create v w).2 = secrets w /\
  environ (open_or_create v w).2 = environ w /\
  keyring_get_failure (open_or_create v w).2 = keyring_get_failure w /\
  exists data, files (open_or_create v w).2 !! filename v = Some (RegularFile data).
Proof.
  intros Hp.
  destruct (open_or_create_keeps v w) as (Hs & Hg & He).
  intros Hr. split; [done|]. split; [done|]. split; [done|]. clear Hs Hg He.
  revert Hr.
  enough (H : forall r, r = open_or_create v w ->
                        r.1 = Returns (v, None) ->
                        exists data, files r.2 !! filename v = Some (RegularFile data))
    by by apply H.
  intros r Hr. unfold open_or_create, bind in Hr.
  change (loadFromDisk v w) with (Read v w) in Hr.
  assert (Hcreate : forall r0 w1,
             (getPassword v w1).1 = Returns (K, None) ->
             r0 = (let (o, w') := Write v "" w1 in
                   match o with
                   | Returns a => ret (v, a) w'
                   | Panics e => (Panics e, w')
                   end) ->
             r0.1 = Returns (v, None) ->
             exists data, files r0.2 !! filename v = Some (RegularFile data)).
  { intros r0 w1 Hp1 Hr0.
    destruct (encrypt "" K) as [[s [e'|]]|msg] eqn:Hen.
    - rewrite (Write_encrypt_error v "" w1 K s e' Hp1 Hen) in Hr0. by subst r0.
    - rewrite (Write_encrypted v "" w1 K s Hp1 Hen) in Hr0.
      destruct (WriteFile_cases (filename v) (list_ascii_of_string s) 384
                                (log (password_event v) w1))
        as [[e HW]|[[e [n HW]]|[_ HW]]]; rewrite HW in Hr0; subst r0;
        intros Hx; try discriminate Hx.
      eexists. unfold set_files. cbn [snd ret files]. apply lookup_insert_eq.
    - by destruct (encrypt_returns _ _ _ Hen). }
  destruct (files w !! filename v) as [[data|errno]|] eqn:Hf.
  - rewrite (Read_file v w data K Hf Hp) in Hr.
    destruct (decrypt (string_of_list_ascii data) K) as [[s [e|]]|msg] eqn:Hd.
    + destruct (decrypt_error_kind _ _ _ _ Hd) as [k ->].
      rewrite Contains_KeySizeError in Hr. by subst r.
    + subst r. intros _. exists data. exact Hf.
    + by subst r.
  - destruct (Read_file_error v w) as [e He]; [by rewrite Hf|].
    rewrite He in Hr. destruct (strings.Contains _ _); [|by subst r].
    set (w1 := log (EvReadFile (filename v)) w) in Hr.
    apply (Hcreate r w1); [|exact Hr].
    unfold w1. by rewrite getPassword_log.
  - rewrite (Read_missing_file v w Hf) in Hr.
    destruct (strings.Contains _ _); [|by subst r].
    set (w1 := log (EvReadFile (filename v)) w) in Hr.
    apply (Hcreate r w1); [|exact Hr].
    unfold w1. by rewrite getPassword_log.
Qed.

(** X20. With [-encrypt -decrypt], a keyring initialisation that
    succeeds with a key of an accepted size and a vault file that can be
    written, the program writes the message, reads it back and prints it:
    its output is the two success lines of the logger and the message,
    its exit status 0. *)
Theorem main_roundtrip (f : sample.Flags) (w : world) (K : string) :
  sample.newPassword f = false ->
  sample.encryptFlag f = true ->
  sample.decryptFlag f = true ->
  let params := mkVaultInput "ugglyc" "browser" "" (sample.filename f) in
  (keyring.Get "ugglyc" "browser" w).1 = Returns (K, None) ->
  valid_key_size (String.length K) ->
  (InitKeyring params w).1 = Returns (keyring_vault_of params true, None) ->
  writable w (sample.filename f) ->
  (sample.main f w).1
  = Returns ([sample.LogPrint "successfully encrypted message";
              sample.LogPrint "successfully decrypted message";
              sample.Println (sample.message f)], 0).
Proof.
  intros Hn He Hd params Hg HK Hi Hw.
  unfold sample.main. rewrite Hn. cbv zeta. fold params.
  change (InitSmart params) with (InitKeyring params).
  unfold bind at 1.
  set (v := keyring_vault_of params true) in *.
  rewrite (InitKeyring_found params w K Hg) in Hi |- *. fold v in Hi |- *.
  set (w1 := log (EvKeyringGet (Service params) (User params)) w) in *.
  assert (Hp1 : (getPassword v w1).1 = Returns (K, None)).
  { unfold w1. rewrite getPassword_log. exact Hg. }
  destruct (open_or_create_loaded v w1 K Hp1 Hi) as (Hs & Hen & Hgf & data & Hf).
  pose proof (open_or_create_faults v w1) as Hwf.
  destruct (open_or_create v w1) as [o w2]. cbn [fst snd] in *. subst o.
  assert (Hp2 : (getPassword v w2).1 = Returns (K, None))
    by (rewrite <- Hp1; by apply getPassword_frame).
  assert (Hf2 : writable w2 (filename v)).
  { split; [intros errno; by rewrite Hf|].
    rewrite Hwf. exact (proj2 Hw). }
  destruct (encryptStep_roundtrip f v K [] w2 He Hd Hp2 HK Hf2) as (w' & -> & _).
  reflexivity.
Qed.

Lemma main_roundtrip_witness :
  (sample.main both_flags initialised_world).1
  = Returns ([sample.LogPrint "successfully encrypted message";
              sample.LogPrint "successfully decrypted message";
              sample.Println (sample.message both_flags)], 0).
Proof.
  apply (main_roundtrip both_flags initialised_world key32).
  - reflexivity.
  - reflexivity.
  - reflexivity.
  - vm_compute. reflexivity.
  - right; right. reflexivity.
  - vm_compute. reflexivity.
  - split; [intros errno; vm_compute; discriminate | vm_compute; reflexivity].
Defined.

Lemma open_or_create_missing (v : Vault) (w : world) :
  files w !! filename v = None ->
  strings.Contains (Error (PathError "open" (filename v) (enoent w)))
                   "system cannot find the file specified" = false ->
  open_or_create v w
  = (Returns (v, Some (PathError "open" (filename v) (enoent w))),
     log (EvReadFile (filename v)) w).
Proof.
  intros Hf Hc. unfold open_or_create. unfold bind at 1.
  change (loadFromDisk v w) with (Read v w).
  by rewrite (Read_missing_file v w Hf), Hc.
Qed.

Lemma InitSmart_env (i : VaultInput) :
  PasswordEnvVar i <> "" -> InitSmart i = InitEnvVar i.
Proof.
  intros H. unfold InitSmart.
  by destruct (String.eqb_spec (PasswordEnvVar i) "").
Qed.

Lemma InitEnvVar_run (i : VaultInput) (w : world) :
  exists err,
    InitEnvVar i w
    = (Returns (mkVault "" "" (Filename i) (PasswordEnvVar i) false, err),
       log (EvGetenv (PasswordEnvVar i)) w).
Proof.
  unfold InitEnvVar, bind.
  destruct (getPassword_world (mkVault "" "" (Filename i) (PasswordEnvVar i) false) w)
    as [[p e] ->].
  eexists. reflexivity.
Qed.

Lemma getPassword_env (v : Vault) (w : world) (K : string) :
  keyring v = false -> environ w !! passwordEnvVar v = Some K -> K <> "" ->
  (getPassword v w).1 = Returns (K, None).
Proof.
  intros Hk He HK. unfold getPassword, getPasswordEnv, os.Getenv, bind, ret.
  rewrite Hk, He. simpl.
  by destruct (String.eqb_spec K "").
Qed.

(** X21. The fallback of the sample program on a system whose
    missing-file text is not the one [InitKeyring] looks for: with a
    working keyring that holds a key, no vault file, a path that can be
    written (the file can be created and the write does not fail), and a
    key of an accepted size in the environment variable, the program
    reports the file error as a keyring failure, switches to the env-var
    backend, and the file it writes is encrypted under the environment's
    key, not the keyring's. *)
Theorem main_fallback_on_missing_file (f : sample.Flags) (w : world)
        (K K2 : string) :
  sample.newPassword f = false ->
  sample.encryptFlag f = true ->
  sample.decryptFlag f = true ->
  (keyring.Get "ugglyc" "browser" w).1 = Returns (K, None) ->
  files w !! sample.filename f = None ->
  writable w (sample.filename f) ->
  strings.Contains (Error (PathError "open" (sample.filename f) (enoent w)))
                   "system cannot find the file specified" = false ->
  sample.passwordEnvVar f <> "" ->
  environ w !! sample.passwordEnvVar f = Some K2 ->
  valid_key_size (String.length K2) ->
  let ct := ciphertext (aes.expandKey (map N_of_ascii (list_ascii_of_string K2)))
                       (list_ascii_of_string (sample.message f)) in
  (sample.main f w).1
  = Returns ([sample.LogPrint
                ("error initiating keyring: "
                 +:+ Error (PathError "open" (sample.filename f) (enoent w)));
              sample.LogPrint "using ENV var instead";
              sample.LogPrint "successfully encrypted message";
              sample.LogPrint "successfully decrypted message";
              sample.Println (sample.message f)], 0) /\
  files (sample.main f w).2 !! sample.filename f
  = Some (RegularFile (base64.Encode ct)).
Proof.
  intros Hn He Hd Hg Hf Hw Hc Hv He2 HK ct.
  set (params := mkVaultInput "ugglyc" "browser" "" (sample.filename f)).
  set (params2 := mkVaultInput "ugglyc" "browser" (sample.passwordEnvVar f)
                               (sample.filename f)).
  set (v := mkVault "" "" (sample.filename f) (sample.passwordEnvVar f) false).
  set (w1 := log (EvKeyringGet "ugglyc" "browser") w).
  set (w2 := log (EvReadFile (sample.filename f)) w1).
  set (w3 := log (EvGetenv (sample.passwordEnvVar f)) w2).
  assert (HK2 : K2 <> "").
  { intros ->. destruct HK as [H|[H|H]]; discriminate H. }
  assert (Hp3 : (getPassword v w3).1 = Returns (K2, None))
    by by apply getPassword_env.
  assert (Hf3 : writable w3 (filename v)) by exact Hw.
  destruct (encryptStep_roundtrip f v K2
              [sample.LogPrint
                 ("error initiating keyring: "
                  +:+ Error (PathError "open" (sample.filename f) (enoent w)));
               sample.LogPrint "using ENV var instead"]
              w3 He Hd Hp3 HK Hf3) as (w' & Hrun & Hfiles & _).
  assert (Hmain : sample.main f w
                  = sample.encryptStep f v
                      [sample.LogPrint
                         ("error initiating keyring: "
                          +:+ Error (PathError "open" (sample.filename f) (enoent w)));
                       sample.LogPrint "using ENV var instead"] w3).
  { unfold sample.main. rewrite Hn. cbv zeta iota. fold params params2.
    change (InitSmart params) with (InitKeyring params).
    unfold bind at 1.
    rewrite (InitKeyring_found params w K Hg).
    change (log (EvKeyringGet (Service params) (User params)) w) with w1.
    rewrite (open_or_create_missing (keyring_vault_of params true) w1 Hf Hc).
    rewrite (InitSmart_env params2 Hv).
    change (log (EvReadFile (filename (keyring_vault_of params true))) w1) with w2.
    unfold bind at 1.
    destruct (InitEnvVar_run params2 w2) as [err ->]. reflexivity. }
  rewrite Hmain, Hrun. cbn [fst snd]. split; [reflexivity|].
  rewrite Hfiles. apply lookup_insert_eq.
Qed.

Lemma main_fallback_on_missing_file_witness :
  let ct := ciphertext (aes.expandKey (map N_of_ascii (list_ascii_of_string key16)))
                       (list_ascii_of_string (sample.message both_flags)) in
  (sample.main both_flags unix_keyring_and_env_world).1
  = Returns ([sample.LogPrint
                ("error initiating keyring: "
                 +:+ Error (PathError "open" (sample.filename both_flags)
                                      (enoent unix_keyring_and_env_world)));
              sample.LogPrint "using ENV var instead";
              sample.LogPrint "successfully encrypted message";
              sample.LogPrint "successfully decrypted message";
              sample.Println (sample.message both_flags)], 0) /\
  files (sample.main both_flags unix_keyring_and_env_world).2
    !! sample.filename both_flags
  = Some (RegularFile (base64.Encode ct)).
Proof.
  apply (main_fallback_on_missing_file both_flags unix_keyring_and_env_world
           key32 key16).
  - reflexivity.
  - reflexivity.
  - reflexivity.
  - vm_compute. reflexivity.
  - vm_compute. reflexivity.
  - split; [intros errno; vm_compute; discriminate | vm_compute; reflexivity].
  - vm_compute. reflexivity.
  - discriminate.
  - vm_compute. reflexivity.
  - left. reflexivity.
Defined.

(** X22. When no backend has a password (the keyring fails with an error
    other than "secret not found" and the environment variable is unset
    or empty), the sample program with [-encrypt] logs the keyring error,
    the switch to the env var and the missing-password error, exits with
    status 1 and writes no file. *)
Theorem main_no_backend (f : sample.Flags) (w : world) (msg : string) :
  sample.newPassword f = false ->
  sample.encryptFlag f = true ->
  keyring_get_failure w = Some msg ->
  strings.Contains msg "secret not found in keyring" = false ->
  sample.passwordEnvVar f <> "" ->
  default "" (environ w !! sample.passwordEnvVar f) = "" ->
  (sample.main f w).1
  = Returns ([sample.LogPrint ("error initiating keyring: " +:+ msg);
              sample.LogPrint "using ENV var instead";
              sample.LogPrint
                (Error (no_password_error (sample.passwordEnvVar f)))], 1) /\
  files (sample.main f w).2 = files w /\
  Forall (fun ev => is_file_event ev = false) (emitted w (sample.main f w).2).
Proof.
  intros Hn He Hgf Hc Hv Hval.
  set (params := mkVaultInput "ugglyc" "browser" "" (sample.filename f)).
  set (params2 := mkVaultInput "ugglyc" "browser" (sample.passwordEnvVar f)
                               (sample.filename f)).
  set (v := mkVault "" "" (sample.filename f) (sample.passwordEnvVar f) false).
  set (w1 := log (EvKeyringGet "ugglyc" "browser") w).
  set (w2 := log (EvGetenv (sample.passwordEnvVar f)) w1).
  set (w3 := log (EvGetenv (sample.passwordEnvVar f)) w2).
  assert (Hg : (keyring.Get (Service params) (User params) w).1
               = Returns ("", Some (KeyringError msg))).
  { unfold keyring.Get. by rewrite Hgf. }
  assert (Hmain : sample.main f w
                  = (Returns ([sample.LogPrint ("error initiating keyring: " +:+ msg);
                               sample.LogPrint "using ENV var instead";
                               sample.LogPrint
                                 (Error (no_password_error (sample.passwordEnvVar f)))],
                              1), w3)).
  { unfold sample.main. rewrite Hn. cbv zeta iota. fold params params2.
    change (InitSmart params) with (InitKeyring params).
    unfold bind at 1.
    rewrite (InitKeyring_error params w _ _ Hg). cbn [Error]. rewrite Hc.
    unfold ret at 1.
    change (log (EvKeyringGet (Service params) (User params)) w) with w1.
    rewrite (InitSmart_env params2 Hv). unfold bind at 1.
    destruct (InitEnvVar_run params2 w1) as [err ->].
    unfold params2. cbn [Filename PasswordEnvVar]. fold v. fold w2.
    unfold sample.encryptStep. rewrite He. unfold bind.
    assert (Hp : (getPassword v w2).1
                 = Returns ("", Some (no_password_error (sample.passwordEnvVar f)))).
    { unfold getPassword, getPasswordEnv, os.Getenv, bind, ret, v.
      cbn [keyring passwordEnvVar].
      change (environ w2) with (environ w). rewrite Hval. reflexivity. }
    rewrite (Write_password_error v (sample.message f) w2 _ _ Hp).
    reflexivity. }
  rewrite Hmain. cbn [fst snd]. split; [reflexivity|]. split; [reflexivity|].
  unfold emitted, w3, w2, w1, log; simpl.
  rewrite <- !app_assoc, drop_app_length.
  by repeat (apply Forall_cons_2; [done|]).
Qed.

Lemma main_no_backend_witness :
  (sample.main encrypt_flags no_backend_world).1
  = Returns ([sample.LogPrint ("error initiating keyring: " +:+ "keyring unavailable");
              sample.LogPrint "using ENV var instead";
              sample.LogPrint
                (Error (no_password_error (sample.passwordEnvVar encrypt_flags)))], 1) /\
  files (sample.main encrypt_flags no_backend_world).2 = files no_backend_world /\
  Forall (fun ev => is_file_event ev = false)
         (emitted no_backend_world (sample.main encrypt_flags no_backend_world).2).
Proof.
  apply (main_no_backend encrypt_flags no_backend_world "keyring unavailable").
  - reflexivity.
  - reflexivity.
  - reflexivity.
  - vm_compute. reflexivity.
  - discriminate.
  - reflexivity.
Defined.

(** ** Initialising twice *)

Ltac absurd_run r :=
  subst r; let Hx := fresh in
  intros Hx; cbn [fst snd ret] in Hx; discriminate Hx.

Lemma encrypt_success_valid (P K C : string) :
  encrypt P K = Returns (C, None) ->
  valid_key_size (String.length K) /\
  C = encode (ciphertext (aes.expandKey (map N_of_ascii (list_ascii_of_string K)))
                         (list_ascii_of_string P)).
Proof.
  intros H.
  assert (HK : valid_key_size (length (list_ascii_of_string K))).
  { unfold encrypt, aes.NewCipher in H.
    destruct (Nat.eqb_spec (length (list_ascii_of_string K)) 16) as [E|_];
      [by left|].
    destruct (Nat.eqb_spec (length (list_ascii_of_string K)) 24) as [E|_];
      [by right; left|].
    destruct (Nat.eqb_spec (length (list_ascii_of_string K)) 32) as [E|_];
      [by right; right|].
    cbn [orb] in H. by inversion H. }
  rewrite (encrypt_valid P K HK) in H. inversion H.
  split; [by rewrite <- length_list_ascii_of_string | reflexivity].
Qed.

Lemma decrypt_empty (K : string) :
  valid_key_size (String.length K) -> decrypt "" K = Returns ("", None).
Proof.
  intros HK.
  assert (Hkey : valid_key_size (length (list_ascii_of_string K)))
    by by rewrite length_list_ascii_of_string.
  pose proof (decrypt_ciphertext _ [] K (NewCipher_valid _ Hkey)) as H.
  by rewrite ciphertext_nil in H.
Qed.

Lemma open_or_create_success_inv (v v' : Vault) (w : world) (K : string) :
  (getPassword v w).1 = Returns (K, None) ->
  (open_or_create v w).1 = Returns (v', None) ->
  v' = v /\
  secrets (open_or_create v w).2 = secrets w /\
  keyring_get_failure (open_or_create v w).2 = keyring_get_failure w /\
  exists data s,
    files (open_or_create v w).2 !! filename v = Some (RegularFile data) /\
    decrypt (string_of_list_ascii data) K = Returns (s, None).
Proof.
  intros Hp.
  destruct (open_or_create_keeps v w) as (Hs & Hg & _).
  intros Hr.
  enough (H : forall r, r = open_or_create v w ->
                        r.1 = Returns (v', None) ->
                        v' = v /\
                        exists data s,
                          files r.2 !! filename v = Some (RegularFile data) /\
                          decrypt (string_of_list_ascii data) K = Returns (s, None)).
  { destruct (H _ eq_refl Hr) as [-> Hd]. done. }
  clear Hr Hs Hg. intros r Hr. unfold open_or_create, bind in Hr.
  change (loadFromDisk v w) with (Read v w) in Hr.
  set (w1 := log (EvReadFile (filename v)) w) in *.
  assert (Hp1 : (getPassword v w1).1 = Returns (K, None))
    by (unfold w1; by rewrite getPassword_log).
  assert (Hcreate :
            forall r0,
              r0 = (let (o, w') := Write v "" w1 in
                    match o with
                    | Returns a => ret (v, a) w'
                    | Panics e => (Panics e, w')
                    end) ->
              r0.1 = Returns (v', None) ->
              v' = v /\
              exists data s,
                files r0.2 !! filename v = Some (RegularFile data) /\
                decrypt (string_of_list_ascii data) K = Returns (s, None)).
  { intros r0 Hr'.
    destruct (encrypt "" K) as [[s [e'|]]|msg] eqn:Hen.
    - rewrite (Write_encrypt_error v "" w1 K s e' Hp1 Hen) in Hr'. absurd_run r0.
    - destruct (encrypt_success_valid _ _ _ Hen) as [HK ->].
      rewrite (Write_encrypted v "" w1 K _ Hp1 Hen) in Hr'.
      unfold encode, base64.EncodeToString in Hr'.
      rewrite list_ascii_of_string_of_list_ascii in Hr'.
      cbn [list_ascii_of_string] in Hr'. rewrite ciphertext_nil in Hr'.
      cbn [base64.Encode] in Hr'.
      destruct (WriteFile_cases (filename v) [] 384 (log (password_event v) w1))
        as [[e HW]|[[e [n HW]]|[_ HW]]]; rewrite HW in Hr';
        [absurd_run r0 | absurd_run r0 |].
      subst r0; cbn [fst snd ret]; intros [= <-]; (split; [done|]); exists [], "";
        (split; [unfold set_files; cbn [files]; apply lookup_insert_eq
                | by apply decrypt_empty]).
    - rewrite (Write_encrypt_panic v "" w1 K msg Hp1 Hen) in Hr'. absurd_run r0. }
  destruct (files w !! filename v) as [[data|errno]|] eqn:Hf.
  - rewrite (Read_file v w data K Hf Hp) in Hr.
    destruct (decrypt (string_of_list_ascii data) K) as [[s [e|]]|msg] eqn:Hd.
    + destruct (decrypt_error_kind _ _ _ _ Hd) as [k ->].
      rewrite Contains_KeySizeError in Hr. absurd_run r.
    + subst r. cbn [fst snd]. intros [= <-]. split; [done|].
      exists data, s. done.
    + absurd_run r.
  - destruct (Read_file_error v w) as [e He]; [by rewrite Hf|].
    rewrite He in Hr. fold w1 in Hr.
    destruct (strings.Contains _ _); [|absurd_run r].
    apply (Hcreate r Hr).
  - rewrite (Read_missing_file v w Hf) in Hr. fold w1 in Hr.
    destruct (strings.Contains _ _); [|absurd_run r].
    apply (Hcreate r Hr).
Qed.

Lemma open_or_create_password_error (v v' : Vault) (w : world)
      (p : string) (e : error) :
  (getPassword v w).1 = Returns (p, Some e) ->
  (open_or_create v w).1 <> Returns (v', None).
Proof.
  intros Hp.
  enough (H : forall r, r = open_or_create v w -> r.1 <> Returns (v', None))
    by by apply H.
  intros r Hr. unfold open_or_create, bind in Hr.
  change (loadFromDisk v w) with (Read v w) in Hr.
  set (w1 := log (EvReadFile (filename v)) w) in *.
  assert (Hp1 : (getPassword v w1).1 = Returns (p, Some e))
    by (unfold w1; by rewrite getPassword_log).
  destruct (files w !! filename v) as [[data|errno]|] eqn:Hf.
  - rewrite (Read_password_error v w data p e Hf Hp) in Hr.
    destruct (strings.Contains _ _); [|absurd_run r].
    match type of Hr with context [Write v "" ?w2] =>
      assert (Hp2 : (getPassword v w2).1 = Returns (p, Some e))
        by (by rewrite getPassword_log);
      rewrite (Write_password_error v "" w2 p e Hp2) in Hr end.
    absurd_run r.
  - destruct (Read_file_error v w) as [e0 He]; [by rewrite Hf|].
    rewrite He in Hr. fold w1 in Hr.
    destruct (strings.Contains _ _); [|absurd_run r].
    rewrite (Write_password_error v "" w1 p e Hp1) in Hr. absurd_run r.
  - rewrite (Read_missing_file v w Hf) in Hr. fold w1 in Hr.
    destruct (strings.Contains _ _); [|absurd_run r].
    rewrite (Write_password_error v "" w1 p e Hp1) in Hr. absurd_run r.
Qed.

Lemma keyring_Get_frame (s u : string) (w w' : world) :
  secrets w' = secrets w -> keyring_get_failure w' = keyring_get_failure w ->
  (keyring.Get s u w').1 = (keyring.Get s u w).1.
Proof.
  intros Hs Hf. unfold keyring.Get. rewrite Hs, Hf.
  destruct (keyring_get_failure w); [done|]. by destruct (secrets w !! _).
Qed.

(** What a successful [InitKeyring] leaves behind. *)
Lemma InitKeyring_success_inv (i : VaultInput) (w : world) (v : Vault) :
  (InitKeyring i w).1 = Returns (v, None) ->
  v = keyring_vault_of i true /\
  exists K data s,
    (keyring.Get (Service i) (User i) (InitKeyring i w).2).1 = Returns (K, None) /\
    files (InitKeyring i w).2 !! Filename i = Some (RegularFile data) /\
    decrypt (string_of_list_ascii data) K = Returns (s, None).
Proof.
  set (v1 := keyring_vault_of i true).
  set (w1 := log (EvKeyringGet (Service i) (User i)) w).
  destruct (keyring_Get_world (Service i) (User i) w) as [[p [e|]] Hg].
  - (* the keyring reported an error *)
    assert (Hg1 : (keyring.Get (Service i) (User i) w).1 = Returns (p, Some e))
      by by rewrite Hg.
    rewrite (InitKeyring_error i w p e Hg1). fold w1.
    destruct (strings.Contains (Error e) "secret not found in keyring");
      [|intros Hx; discriminate Hx].
    destruct (initKeyring_run (Service i) (User i) w1) as (pw & Hlen & Hall & Hik).
    destruct (keyring_set_failure w1).
    { unfold bind. rewrite Hik. intros Hx; discriminate Hx. }
    set (w3 := set_secrets _ _) in Hik. fold v1.
    assert (Hb : (do err <- initKeyring (Service i) (User i);
                  match err with
                  | Some e' => ret (keyring_vault_of i false, Some e')
                  | None => open_or_create v1
                  end) w1 = open_or_create v1 w3)
      by (unfold bind at 1; by rewrite Hik).
    rewrite Hb. clear Hb.
    destruct (keyring_get_failure w) as [m|] eqn:Hgf.
    + assert (Hp : (getPassword v1 w3).1 = Returns ("", Some (KeyringError m))).
      { unfold getPassword, getPasswordKeyring, keyring.Get. cbn [v1 keyring_vault_of keyring].
        change (keyring_get_failure w3) with (keyring_get_failure w).
        by rewrite Hgf. }
      intros H. by destruct (open_or_create_password_error v1 v w3 _ _ Hp).
    + assert (Hp : (getPassword v1 w3).1 = Returns (pw, None)).
      { unfold getPassword, getPasswordKeyring, keyring.Get. cbn [v1 keyring_vault_of keyring service user].
        change (keyring_get_failure w3) with (keyring_get_failure w).
        rewrite Hgf. unfold w3, set_secrets. cbn [secrets].
        by rewrite lookup_insert_eq. }
      intros H.
      destruct (open_or_create_success_inv v1 v w3 pw Hp H)
        as (-> & Hs & Hf & data & s & Hfile & Hd).
      split; [done|]. exists pw, data, s. split; [|split; [exact Hfile | exact Hd]].
      rewrite <- Hp. unfold getPassword, getPasswordKeyring.
      cbn [v1 keyring_vault_of keyring service user].
      by apply keyring_Get_frame.
  - (* the keyring returned a secret *)
    assert (Hg1 : (keyring.Get (Service i) (User i) w).1 = Returns (p, None))
      by by rewrite Hg.
    rewrite (InitKeyring_found i w p Hg1). fold w1 v1.
    assert (Hp : (getPassword v1 w1).1 = Returns (p, None)).
    { unfold w1. rewrite getPassword_log. exact Hg1. }
    intros H.
    destruct (open_or_create_success_inv v1 v w1 p Hp H)
      as (-> & Hs & Hf & data & s & Hfile & Hd).
    split; [done|]. exists p, data, s. split; [|split; [exact Hfile | exact Hd]].
    rewrite <- Hp. unfold getPassword, getPasswordKeyring.
    cbn [v1 keyring_vault_of keyring service user].
    by apply keyring_Get_frame.
Qed.

(** X23. [InitKeyring] is idempotent after success: when a call returned
    a handle without error, a second call with the same input returns the
    same handle without error, calls [keyring.Get], [ReadFile] and
    [keyring.Get] only, and leaves the keyring's items and all files as
    the first call left them. *)
Theorem InitKeyring_twice (i : VaultInput) (w : world) (v : Vault) :
  (InitKeyring i w).1 = Returns (v, None) ->
  let w1 := (InitKeyring i w).2 in
  (InitKeyring i w1).1 = Returns (v, None) /\
  secrets (InitKeyring i w1).2 = secrets w1 /\
  files (InitKeyring i w1).2 = files w1 /\
  emitted w1 (InitKeyring i w1).2
  = [EvKeyringGet (Service i) (User i); EvReadFile (Filename i);
     EvKeyringGet (Service i) (User i)].
Proof.
  intros H w1.
  destruct (InitKeyring_success_inv i w v H) as (-> & K & data & s & Hg & Hf & Hd).
  fold w1 in Hg, Hf.
  set (v1 := keyring_vault_of i true).
  set (w2 := log (EvKeyringGet (Service i) (User i)) w1).
  assert (Hp2 : (getPassword v1 w2).1 = Returns (K, None)).
  { unfold w2. rewrite getPassword_log. exact Hg. }
  assert (Hrun : InitKeyring i w1
                 = (Returns (v1, None),
                    log (EvKeyringGet (Service i) (User i))
                        (log (EvReadFile (Filename i)) w2))).
  { rewrite (InitKeyring_found i w1 K Hg). fold w2 v1.
    unfold open_or_create, bind.
    change (loadFromDisk v1 w2) with (Read v1 w2).
    by rewrite (Read_file v1 w2 data K Hf Hp2), Hd. }
  rewrite Hrun. cbn [fst snd]. split; [done|]. split; [done|]. split; [done|].
  unfold emitted, w2, log; simpl.
  by rewrite <- !app_assoc, drop_app_length.
Qed.

Lemma InitKeyring_twice_witness :
  let w1 := (InitKeyring sample_input windows_fresh_world).2 in
  (InitKeyring sample_input w1).1
  = Returns (keyring_vault_of sample_input true, None) /\
  secrets (InitKeyring sample_input w1).2 = secrets w1 /\
  files (InitKeyring sample_input w1).2 = files w1 /\
  emitted w1 (InitKeyring sample_input w1).2
  = [EvKeyringGet (Service sample_input) (User sample_input);
     EvReadFile (Filename sample_input);
     EvKeyringGet (Service sample_input) (User sample_input)].
Proof.
  apply (InitKeyring_twice sample_input windows_fresh_world).
  vm_compute. reflexivity.
Defined.

(** ** A vault file that cannot be written *)

Lemma WriteFile_open_fault (f : string) (d : list ascii) (p : N) (w : world)
      (errno : string) :
  (forall e, files w !! f <> Some (Inaccessible e)) ->
  write_faults w !! f = Some (OpenFault errno) ->
  ioutil.WriteFile f d p w
  = (Returns (Some (PathError "open" f errno)), log (EvWriteFile f d p) w).
Proof.
  intros Hf Hw. unfold ioutil.WriteFile. rewrite Hw.
  destruct (files w !! f) as [[?|e]|]; try reflexivity.
  by destruct (Hf e).
Qed.

(** X24. The bootstrap of the vault file can fail: when the keyring
    returns a key of an accepted size, the file does not exist, the file
    system's error text contains "system cannot find the file specified"
    and the file cannot be created, [InitKeyring] attempts the write of
    the empty content and returns the error of that write, with a handle
    whose keyring flag is on; no file is created. *)
Theorem InitKeyring_uncreatable_file (i : VaultInput) (w : world)
        (K errno : string) :
  (keyring.Get (Service i) (User i) w).1 = Returns (K, None) ->
  valid_key_size (String.length K) ->
  files w !! Filename i = None ->
  write_faults w !! Filename i = Some (OpenFault errno) ->
  strings.Contains (Error (PathError "open" (Filename i) (enoent w)))
                   "system cannot find the file specified" = true ->
  (InitKeyring i w).1
  = Returns (keyring_vault_of i true,
             Some (PathError "open" (Filename i) errno)) /\
  files (InitKeyring i w).2 = files w /\
  emitted w (InitKeyring i w).2
  = [EvKeyringGet (Service i) (User i); EvReadFile (Filename i);
     EvKeyringGet (Service i) (User i); EvWriteFile (Filename i) [] 384].
Proof.
  intros Hg HK Hf Hw Hc.
  set (v := keyring_vault_of i true).
  set (w1 := log (EvKeyringGet (Service i) (User i)) w).
  set (w2 := log (EvReadFile (Filename i)) w1).
  set (w3 := log (EvKeyringGet (Service i) (User i)) w2).
  assert (Hp2 : (getPassword v w2).1 = Returns (K, None)).
  { unfold w2, w1. rewrite !getPassword_log. exact Hg. }
  assert (He : encrypt "" K = Returns ("", None)).
  { rewrite encrypt_valid by by rewrite length_list_ascii_of_string.
    cbn [list_ascii_of_string]. by rewrite ciphertext_nil. }
  assert (Hrun : InitKeyring i w
                 = (Returns (v, Some (PathError "open" (Filename i) errno)),
                    log (EvWriteFile (Filename i) [] 384) w3)).
  { rewrite (InitKeyring_found i w K Hg). fold v w1.
    unfold open_or_create. unfold bind at 1.
    change (loadFromDisk v w1) with (Read v w1).
    rewrite (Read_missing_file v w1 Hf).
    change (enoent w1) with (enoent w). change (filename v) with (Filename i).
    rewrite Hc. fold w2. unfold bind.
    rewrite (Write_encrypted v "" w2 K "" Hp2 He).
    change (log (password_event v) w2) with w3.
    change (filename v) with (Filename i). cbn [list_ascii_of_string].
    rewrite (WriteFile_open_fault (Filename i) [] 384 w3 errno);
      [reflexivity | | exact Hw].
    intros e. change (files w3) with (files w). by rewrite Hf. }
  rewrite Hrun. cbn [fst snd].
  split; [reflexivity|]. split; [reflexivity|].
  unfold emitted, w3, w2, w1, log; simpl.
  by rewrite <- !app_assoc, drop_app_length.
Qed.

Lemma InitKeyring_uncreatable_file_witness :
  (InitKeyring sample_input readonly_directory_world).1
  = Returns (keyring_vault_of sample_input true,
             Some (PathError "open" (Filename sample_input) "Access is denied.")) /\
  files (InitKeyring sample_input readonly_directory_world).2
  = files readonly_directory_world /\
  emitted readonly_directory_world
          (InitKeyring sample_input readonly_directory_world).2
  = [EvKeyringGet (Service sample_input) (User sample_input);
     EvReadFile (Filename sample_input);
     EvKeyringGet (Service sample_input) (User sample_input);
     EvWriteFile (Filename sample_input) [] 384].
Proof.
  apply (InitKeyring_uncreatable_file sample_input readonly_directory_world key32).
  - vm_compute. reflexivity.
  - right; right. reflexivity.
  - vm_compute. reflexivity.
  - vm_compute. reflexivity.
  - vm_compute. reflexivity.
Defined.

(** X25. A vault file that can be read but not written: when the keyring
    initialisation succeeds with a key of an accepted size and the file
    cannot be opened for writing, the sample program with [-encrypt] logs
    the error of the write and exits with status 1; it prints nothing
    else, also when [-decrypt] is set, and leaves the files as the
    initialisation left them. *)
Theorem main_write_failure (f : sample.Flags) (w : world) (K errno : string) :
  sample.newPassword f = false ->
  sample.encryptFlag f = true ->
  let params := mkVaultInput "ugglyc" "browser" "" (sample.filename f) in
  (keyring.Get "ugglyc" "browser" w).1 = Returns (K, None) ->
  valid_key_size (String.length K) ->
  (InitKeyring params w).1 = Returns (keyring_vault_of params true, None) ->
  write_faults w !! sample.filename f = Some (OpenFault errno) ->
  (sample.main f w).1
  = Returns ([sample.LogPrint
                (Error (PathError "open" (sample.filename f) errno))], 1) /\
  files (sample.main f w).2 = files (InitKeyring params w).2.
Proof.
  intros Hn He params Hg HK Hi Hw.
  set (v := keyring_vault_of params true) in *.
  set (w1 := log (EvKeyringGet (Service params) (User params)) w).
  assert (Hp1 : (getPassword v w1).1 = Returns (K, None)).
  { unfold w1. rewrite getPassword_log. exact Hg. }
  assert (Hik : InitKeyring params w = open_or_create v w1)
    by exact (InitKeyring_found params w K Hg).
  rewrite Hik in Hi |- *.
  destruct (open_or_create_loaded v w1 K Hp1 Hi) as (Hs & Hen & Hgf & data & Hf).
  pose proof (open_or_create_faults v w1) as Hwf.
  assert (Hmain : sample.main f w
                  = sample.encryptStep f v [] (open_or_create v w1).2).
  { unfold sample.main. rewrite Hn. cbv zeta iota. fold params.
    change (InitSmart params) with (InitKeyring params).
    unfold bind at 1. rewrite Hik.
    destruct (open_or_create v w1) as [o w2]. cbn [fst snd] in *.
    by subst o. }
  rewrite Hmain.
  destruct (open_or_create v w1) as [o w2]. cbn [fst snd] in *.
  assert (Hp2 : (getPassword v w2).1 = Returns (K, None))
    by (rewrite <- Hp1; by apply getPassword_frame).
  assert (Henc : encrypt (sample.message f) K
                 = Returns (encode (ciphertext
                                      (aes.expandKey
                                         (map N_of_ascii (list_ascii_of_string K)))
                                      (list_ascii_of_string (sample.message f))),
                            None)).
  { apply encrypt_valid. by rewrite length_list_ascii_of_string. }
  unfold sample.encryptStep. rewrite He. unfold bind.
  rewrite (Write_encrypted v (sample.message f) w2 K _ Hp2 Henc).
  rewrite (WriteFile_open_fault (filename v) _ 384 _ errno).
  - split; reflexivity.
  - intros e. change (files (log (password_event v) w2)) with (files w2).
    by rewrite Hf.
  - change (write_faults (log (password_event v) w2)) with (write_faults w2).
    rewrite Hwf. exact Hw.
Qed.

Lemma main_write_failure_witness :
  (sample.main both_flags readonly_file_world).1
  = Returns ([sample.LogPrint
                (Error (PathError "open" (sample.filename both_flags)
                                  "permission denied"))], 1) /\
  files (sample.main both_flags readonly_file_world).2
  = files (InitKeyring (mkVaultInput "ugglyc" "browser" ""
                                     (sample.filename both_flags))
                       readonly_file_world).2.
Proof.
  apply (main_write_failure both_flags readonly_file_world key32
                            "permission denied").
  - reflexivity.
  - reflexivity.
  - vm_compute. reflexivity.
  - right; right. reflexivity.
  - vm_compute. reflexivity.
  - vm_compute. reflexivity.
Defined.
